(** * cleanup.py: the pattern-matching and deletion-planning engine

    A shallow embedding of [scripts/cleanup.py] (class [CReSOCleaner] and
    [main]) together with the parts of CPython's [fnmatch], [pathlib] and
    [shutil] that the script calls, in their POSIX flavour as of
    CPython 3.9 - 3.11.

    Conventions of the model:
    - a file name is a [string] of 8-bit characters, a path is the list of
      its components counted from the root of the file-system tree;
    - the file system is a finite tree of regular files and directories
      (no symbolic links); a directory carries the three permission bits
      that decide whether listing, modifying and traversing it succeed;
    - Python exceptions are values of [exn]; a computation that may raise
      returns a [result];
    - stateful methods thread a [world] (file system, statistics, number
      of clock readings taken, remaining standard input, printed lines). *)

From Stdlib Require Import Bool Arith Lia List Ascii String.
From Stdlib Require Import Sorted Permutation NArith DecimalString.
Import ListNotations.
Open Scope string_scope.
Open Scope list_scope.

Set Implicit Arguments.

(** ** Exceptions and results *)

Inductive errno : Type :=
| ENOENT | ENOTDIR | EACCES | EEXIST | EISDIR | EBUSY | ENAMETOOLONG
| ShutilError.

(** [OSError e] stands for [OSError] and all its subclasses;
    [PermissionError] is [OSError EACCES], [FileNotFoundError] is
    [OSError ENOENT], [FileExistsError] is [OSError EEXIST], and
    [OSError ShutilError] is [shutil.Error] (with [SameFileError]), which
    carries no error number. [RecursionError] is what ends a call that
    nests without end. *)
Inductive exn : Type :=
| OSError (e : errno)
| ValueError
| NotImplementedError
| EOFError
| SystemExit (code : nat)
| RecursionError.

Inductive result (A : Type) : Type :=
| Ok (a : A)
| Raise (e : exn).

Arguments Ok {A} a.
Arguments Raise {A} e.

Definition bind {A B : Type} (r : result A) (k : A -> result B) : result B :=
  match r with
  | Ok a => k a
  | Raise e => Raise e
  end.

Notation "x <- c ;; k" := (bind c (fun x => k))
  (at level 61, c at next level, right associativity).

(** [except (OSError, PermissionError)] catches exactly the [OSError]s. *)
Definition is_OSError (e : exn) : bool :=
  match e with OSError _ => true | _ => false end.

Definition is_PermissionError (e : exn) : bool :=
  match e with OSError EACCES => true | _ => false end.

(** [pathlib._ignore_error]: the errors that [is_file], [is_dir] and
    [exists] turn into [False]. *)
Definition ignore_error (e : exn) : bool :=
  match e with
  | OSError ENOENT | OSError ENOTDIR => true
  | _ => false
  end.

(** ** fnmatch: shell patterns on one name *)

Module Fnmatch.

(** What [fnmatch.translate] turns a pattern into: a sequence of regular
    expression atoms. [TSet neg items] is a bracket expression; an item
    [(lo, hi)] is the range [lo-hi], a single character [c] is [(c, c)]. *)
Inductive tok : Type :=
| TStar
| TAny
| TLit (c : ascii)
| TSet (neg : bool) (items : list (ascii * ascii)).

(** The scan for the closing bracket: [find_close s] splits [s] at its
    first ["]"] into what is before and what is after it. *)
Fixpoint find_close (s : string) : option (string * string) :=
  match s with
  | EmptyString => None
  | String c s' =>
      if Ascii.eqb c "]" then Some (EmptyString, s')
      else match find_close s' with
           | Some (stuff, rest) => Some (String c stuff, rest)
           | None => None
           end
  end.

(** [split_bracket s], for [s] the text after an opening ["["]: skip a
    leading ["!"], accept a ["]"] right after it as a member, then look for
    the closing bracket. The result is (negated, members, rest). *)
Definition split_bracket (s : string) : option (bool * string * string) :=
  let '(neg, s1) :=
    match s with
    | String "!" s' => (true, s')
    | _ => (false, s)
    end in
  match s1 with
  | String "]" s2 =>
      match find_close s2 with
      | Some (stuff, rest) => Some (neg, String "]" stuff, rest)
      | None => None
      end
  | _ =>
      match find_close s1 with
      | Some (stuff, rest) => Some (neg, stuff, rest)
      | None => None
      end
  end.

(** Members of a bracket expression: [a-b] with a character on both sides
    of the hyphen is a range, everything else stands for itself. *)
Fixpoint set_items (s : string) : list (ascii * ascii) :=
  match s with
  | EmptyString => []
  | String a s1 =>
      match s1 with
      | String "-" (String b s2) => (a, b) :: set_items s2
      | _ => (a, a) :: set_items s1
      end
  end.

Fixpoint translate_fuel (fuel : nat) (pat : string) : list tok :=
  match fuel with
  | O => []
  | S fuel' =>
      match pat with
      | EmptyString => []
      | String c pat' =>
          if Ascii.eqb c "*" then TStar :: translate_fuel fuel' pat'
          else if Ascii.eqb c "?" then TAny :: translate_fuel fuel' pat'
          else if Ascii.eqb c "[" then
            match split_bracket pat' with
            | None => TLit "[" :: translate_fuel fuel' pat'
            | Some (neg, stuff, rest) =>
                TSet neg (set_items stuff) :: translate_fuel fuel' rest
            end
          else TLit c :: translate_fuel fuel' pat'
      end
  end.

(** Every step consumes at least one character, so the length of the
    pattern is fuel enough. *)
Definition translate (pat : string) : list tok :=
  translate_fuel (String.length pat) pat.

Definition in_range (c : ascii) (item : ascii * ascii) : bool :=
  Nat.leb (nat_of_ascii (fst item)) (nat_of_ascii c) &&
  Nat.leb (nat_of_ascii c) (nat_of_ascii (snd item)).

Definition tok_accepts (t : tok) (c : ascii) : bool :=
  match t with
  | TStar => true
  | TAny => true
  | TLit d => Ascii.eqb d c
  | TSet neg items => xorb neg (existsb (in_range c) items)
  end.

(** Full match of a name against the atoms ([re.fullmatch]). *)
Fixpoint match_toks (ts : list tok) (s : string) {struct ts} : bool :=
  match ts with
  | [] => match s with EmptyString => true | _ => false end
  | TStar :: ts' =>
      (fix star (s : string) : bool :=
         match_toks ts' s ||
         match s with
         | EmptyString => false
         | String _ s' => star s'
         end) s
  | t :: ts' =>
      match s with
      | EmptyString => false
      | String c s' => tok_accepts t c && match_toks ts' s'
      end
  end.

(** [fnmatch.fnmatchcase(name, pat)]. *)
Definition fnmatchcase (name pat : string) : bool :=
  match_toks (translate pat) name.

End Fnmatch.

(** ** Pure paths *)

Module PurePath.

(** A path, as the list of its components. *)
Definition path : Type := list string.

(** [s.split("/")]. *)
Fixpoint split_slash (s : string) : list string :=
  match s with
  | EmptyString => [EmptyString]
  | String c s' =>
      if Ascii.eqb c "/" then EmptyString :: split_slash s'
      else match split_slash s' with
           | [] => [String c EmptyString]
           | x :: xs => String c x :: xs
           end
  end.

Definition starts_with_slash (s : string) : bool :=
  match s with
  | String "/" _ => true
  | _ => false
  end.

Definition keep_part (x : string) : bool :=
  negb (String.eqb x "") && negb (String.eqb x ".").

(** [_PosixFlavour.parse_parts((s,))]: whether the path has a root, and
    its components, with empty and ["."] components dropped. *)
Definition parse_parts (s : string) : bool * list string :=
  (starts_with_slash s, filter keep_part (split_slash s)).

Fixpoint is_prefix (p q : path) : bool :=
  match p, q with
  | [], _ => true
  | x :: p', y :: q' => String.eqb x y && is_prefix p' q'
  | _ :: _, [] => false
  end.

(** [self.relative_to(other)]. *)
Definition relative_to (self other : path) : result path :=
  if is_prefix other self then Ok (skipn (List.length other) self)
  else Raise ValueError.

(** The loop of [PurePath.match] over
    [zip(reversed(parts), reversed(pat_parts))]. *)
Fixpoint zip_match (rparts rpats : list string) : bool :=
  match rparts, rpats with
  | part :: rparts', pat :: rpats' =>
      if Fnmatch.fnmatchcase part pat then zip_match rparts' rpats'
      else false
  | _, _ => true
  end.

(** [PurePath.match(pattern)] on a relative path with components
    [parts]. *)
Definition pmatch (parts : path) (pattern : string) : result bool :=
  let '(root, pat_parts) := parse_parts pattern in
  if negb root && Nat.eqb (List.length pat_parts) 0 then Raise ValueError
  else if root then Ok false
  else if Nat.ltb (List.length parts) (List.length pat_parts) then Ok false
  else Ok (zip_match (rev parts) (rev pat_parts)).

(** [self / s]: joining with a rooted string starts again from it. *)
Definition joinpath (self : path) (s : string) : path :=
  let '(root, parts) := parse_parts s in
  if root then parts else self ++ parts.

(** The order of paths: lexicographic on the components, each compared
    as a string. *)
Fixpoint str_compare (a b : string) : comparison :=
  match a, b with
  | EmptyString, EmptyString => Eq
  | EmptyString, String _ _ => Lt
  | String _ _, EmptyString => Gt
  | String c a', String d b' =>
      match Nat.compare (nat_of_ascii c) (nat_of_ascii d) with
      | Eq => str_compare a' b'
      | o => o
      end
  end.

Fixpoint path_compare (p q : path) : comparison :=
  match p, q with
  | [], [] => Eq
  | [], _ :: _ => Lt
  | _ :: _, [] => Gt
  | x :: p', y :: q' =>
      match str_compare x y with
      | Eq => path_compare p' q'
      | o => o
      end
  end.

Definition path_eqb (p q : path) : bool :=
  match path_compare p q with Eq => true | _ => false end.

Definition path_leb (p q : path) : bool :=
  match path_compare p q with Gt => false | _ => true end.

(** [sorted(set(ps))]: the distinct paths of [ps] in increasing order. *)
Fixpoint insert_sorted (p : path) (ps : list path) : list path :=
  match ps with
  | [] => [p]
  | q :: ps' =>
      match path_compare p q with
      | Lt => p :: q :: ps'
      | Eq => q :: ps'
      | Gt => q :: insert_sorted p ps'
      end
  end.

Definition sorted_set (ps : list path) : list path :=
  fold_right insert_sorted [] ps.

End PurePath.

(** ** The file system *)

Module FS.
Import PurePath.

(** The permission bits of a directory, as they apply to the user who
    runs the script: listing it, changing its entries, going through it. *)
Record mode : Type := Mode {
  can_read : bool;
  can_write : bool;
  can_search : bool
}.

Definition rwx : mode := Mode true true true.

(** A regular file with its bytes, or a directory with its entries in
    the order in which [os.scandir] lists them. There are no symbolic
    links, and a directory that stands for a real one has no entry named
    ["."] or [".."]. *)
#[warnings="-register-all"]
Inductive node : Type :=
| File (data : string)
| Dir (m : mode) (entries : list (string * node)).

Definition is_dir_node (n : node) : bool :=
  match n with Dir _ _ => true | File _ => false end.

(** Induction on a tree, with the hypothesis for every entry of a
    directory. *)
Section NodeInd.
Variable P : node -> Prop.
Hypothesis P_File : forall data, P (File data).
Hypothesis P_Dir :
  forall m es, Forall (fun e => P (snd e)) es -> P (Dir m es).

Fixpoint node_rect_all (n : node) : P n :=
  match n with
  | File data => P_File data
  | Dir m es =>
      P_Dir m
        ((fix all (es : list (string * node))
            : Forall (fun e => P (snd e)) es :=
            match es with
            | [] => Forall_nil _
            | e :: es' => Forall_cons e (node_rect_all (snd e)) (all es')
            end) es)
  end.
End NodeInd.

Fixpoint find_entry (x : string) (es : list (string * node)) : option node :=
  match es with
  | [] => None
  | (y, n) :: es' => if String.eqb x y then Some n else find_entry x es'
  end.

Fixpoint remove_entry (x : string) (es : list (string * node))
  : list (string * node) :=
  match es with
  | [] => []
  | (y, n) :: es' =>
      if String.eqb x y then remove_entry x es'
      else (y, n) :: remove_entry x es'
  end.

(** Replace the entry [x] where it stands, or add it at the end. *)
Fixpoint set_entry (x : string) (n : node) (es : list (string * node))
  : list (string * node) :=
  match es with
  | [] => [(x, n)]
  | (y, n') :: es' =>
      if String.eqb x y then (y, n) :: es' else (y, n') :: set_entry x n es'
  end.

Definition put_entry (x : string) (o : option node)
  (es : list (string * node)) : list (string * node) :=
  match o with
  | Some n => set_entry x n es
  | None => remove_entry x es
  end.

(** [os.stat]: walk down from the root; every directory on the way has
    to be searchable. A component [".."] is looked up as the name it is,
    not followed to the parent directory: [resolve] tells where a path
    leads for paths without such a component, and for the others says
    that nothing is there. *)
Fixpoint resolve (n : node) (p : path) : result node :=
  match p with
  | [] => Ok n
  | x :: p' =>
      match n with
      | File _ => Raise (OSError ENOTDIR)
      | Dir m es =>
          if can_search m then
            match find_entry x es with
            | Some c => resolve c p'
            | None => Raise (OSError ENOENT)
            end
          else Raise (OSError EACCES)
      end
  end.

(** [Path.is_file], [Path.is_dir], [Path.exists]: the ignorable errors
    give [False], the others are raised. *)
Definition test_path (test : node -> bool) (fs : node) (p : path)
  : result bool :=
  match resolve fs p with
  | Ok n => Ok (test n)
  | Raise e => if ignore_error e then Ok false else Raise e
  end.

Definition is_file : node -> path -> result bool :=
  test_path (fun n => negb (is_dir_node n)).

Definition is_dir : node -> path -> result bool :=
  test_path is_dir_node.

Definition exists_ : node -> path -> result bool :=
  test_path (fun _ => true).

(** [os.path.isdir]: no error comes out of it. *)
Definition os_path_isdir (fs : node) (p : path) : bool :=
  match resolve fs p with
  | Ok n => is_dir_node n
  | Raise _ => false
  end.

(** [Path.stat().st_size] of a regular file; what a directory reports is
    of no use to the script. *)
Definition st_size (fs : node) (p : path) : result nat :=
  n <- resolve fs p ;;
  match n with
  | File data => Ok (String.length data)
  | Dir _ _ => Ok 0
  end.

(** *** Globbing *)

(** The selectors of [pathlib]: one per pattern component. *)
Inductive selector : Type :=
| Terminating
| Precise (name : string) (dironly : bool) (successor : selector)
| Wildcard (pat : string) (dironly : bool) (successor : selector)
| Recursive (successor : selector).

Fixpoint contains_char (c : ascii) (s : string) : bool :=
  match s with
  | EmptyString => false
  | String d s' => Ascii.eqb c d || contains_char c s'
  end.

Fixpoint contains_2stars (s : string) : bool :=
  match s with
  | String "*" (String "*" _) => true
  | String _ s' => contains_2stars s'
  | EmptyString => false
  end.

Definition is_wildcard_pattern (pat : string) : bool :=
  contains_char "*" pat || contains_char "?" pat || contains_char "[" pat.

Definition nonempty {A : Type} (l : list A) : bool :=
  match l with [] => false | _ :: _ => true end.

(** [_make_selector]: the class is chosen from the first component, and
    the selector of the remaining ones becomes its successor. *)
Fixpoint make_selector (pattern_parts : list string) : result selector :=
  match pattern_parts with
  | [] => Ok Terminating
  | pat :: child_parts =>
      if String.eqb pat "**" then
        s <- make_selector child_parts ;; Ok (Recursive s)
      else if contains_2stars pat then Raise ValueError
      else
        s <- make_selector child_parts ;;
        if is_wildcard_pattern pat
        then Ok (Wildcard pat (nonempty child_parts) s)
        else Ok (Precise pat (nonempty child_parts) s)
  end.

(** The starting points of a ["**"] component: the directory itself and
    then, entry by entry, the directories below it. [acc] tells whether
    the system calls on path [P] succeed, that is whether every directory
    above it is searchable; a directory that is listed but cannot be
    reached is still a starting point. *)
Section SubDirectories.
Variable iterate : path -> bool -> node -> list (path * bool * node).
Variable P : path.
Variable m : mode.

(** The loop over the entries of the directory at [P]. *)
Fixpoint sub_directories (es : list (string * node))
  : list (path * bool * node) :=
  match es with
  | [] => []
  | (x, c) :: es' =>
      match c with
      | Dir _ _ => iterate (P ++ [x]) (can_search m) c ++ sub_directories es'
      | File _ => sub_directories es'
      end
  end.
End SubDirectories.

Fixpoint iterate_directories (P : path) (acc : bool) (n : node)
  : list (path * bool * node) :=
  (P, acc, n) ::
  match n with
  | File _ => []
  | Dir m es =>
      if acc && can_read m
      then sub_directories iterate_directories P m es
      else []
  end.

(** [if p not in yielded: yield p]. *)
Fixpoint dedup (seen : list path) (ps : list path) : list path :=
  match ps with
  | [] => []
  | p :: ps' =>
      if existsb (path_eqb p) seen then dedup seen ps'
      else p :: dedup (p :: seen) ps'
  end.

(** [_select_from] of each selector class, at path [P] whose node is [n].
    A [PermissionError] ends the enumeration below the place where it
    occurs and is not passed on. A component [".."] of the pattern is a
    name for [Precise] like any other, which no directory holds: the scan
    of a pattern with such a component, which [pathlib] takes to the
    parent directory, is not described, and yields nothing here. *)
Fixpoint select (sel : selector) (P : path) (acc : bool) (n : node)
  : list path :=
  match sel with
  | Terminating => [P]
  | Precise name dironly succ =>
      match n with
      | Dir m es =>
          if acc && can_search m then
            match find_entry name es with
            | Some c =>
                if dironly && negb (is_dir_node c) then []
                else select succ (P ++ [name]) true c
            | None => []
            end
          else []
      | File _ => []
      end
  | Wildcard pat dironly succ =>
      match n with
      | Dir m es =>
          if acc && can_read m then
            flat_map
              (fun e : string * node =>
                 if dironly && negb (is_dir_node (snd e)) then []
                 else if Fnmatch.fnmatchcase (fst e) pat
                      then select succ (P ++ [fst e]) (can_search m) (snd e)
                      else [])
              es
          else []
      | File _ => []
      end
  | Recursive succ =>
      dedup []
        (flat_map
           (fun s : path * bool * node =>
              select succ (fst (fst s)) (snd (fst s)) (snd s))
           (iterate_directories P acc n))
  end.

(** [Path.rglob(pattern)], with everything it yields collected. *)
Definition rglob (fs : node) (P : path) (pattern : string)
  : result (list path) :=
  let '(root, pattern_parts) := parse_parts pattern in
  if root then Raise NotImplementedError
  else
    sel <- make_selector ("**" :: pattern_parts) ;;
    d <- is_dir fs P ;;
    if d then
      n <- resolve fs P ;;
      Ok (select sel P true n)
    else Ok [].

(** *** Changing the tree *)

(** What a system call does to one directory entry: from the mode of
    the directory that holds it and the entry as it is ([None]: no such
    entry), the entry as it becomes and the outcome. *)
Definition entry_op : Type := mode -> option node -> option node * result unit.

(** Go down to the directory that holds the last component of [p] and
    apply [f] there. The root of the tree has no entry of its own. *)
Fixpoint alter (n : node) (p : path) (f : entry_op) : node * result unit :=
  match p with
  | [] => (n, Raise (OSError EBUSY))
  | x :: p' =>
      match n with
      | File _ => (n, Raise (OSError ENOTDIR))
      | Dir m es =>
          if can_search m then
            match p' with
            | [] =>
                let '(o, r) := f m (find_entry x es) in
                (Dir m (put_entry x o es), r)
            | _ :: _ =>
                match find_entry x es with
                | Some c =>
                    let '(c', r) := alter c p' f in
                    (Dir m (set_entry x c' es), r)
                | None => (n, Raise (OSError ENOENT))
                end
            end
          else (n, Raise (OSError EACCES))
      end
  end.

(** [os.unlink]. *)
Definition unlink_op : entry_op :=
  fun m o =>
    match o with
    | None => (o, Raise (OSError ENOENT))
    | Some (Dir _ _) => (o, Raise (OSError EISDIR))
    | Some (File _) =>
        if can_write m then (None, Ok tt) else (o, Raise (OSError EACCES))
    end.

Definition unlink (fs : node) (p : path) : node * result unit :=
  alter fs p unlink_op.

(** The body of [shutil.rmtree] on an open directory: remove the entries
    one after the other, the sub-directories after their own contents; the
    first error is raised, and what was removed before it stays removed. *)
Section RmEntries.
Variable rm : node -> node * result unit.
Variable m : mode.

(** The loop over the entries of a directory of mode [m]: what is left
    of them, and the outcome. *)
Fixpoint rm_entries (es : list (string * node))
  : list (string * node) * result unit :=
  match es with
  | [] => ([], Ok tt)
  | (x, c) :: es' =>
      match c with
      | File _ =>
          if can_search m && can_write m then rm_entries es'
          else ((x, c) :: es', Raise (OSError EACCES))
      | Dir _ _ =>
          if can_search m then
            let '(c', r) := rm c in
            match r with
            | Ok _ =>
                if can_write m then rm_entries es'
                else ((x, c') :: es', Raise (OSError EACCES))
            | Raise e => ((x, c') :: es', Raise e)
            end
          else ((x, c) :: es', Raise (OSError EACCES))
      end
  end.
End RmEntries.

Fixpoint rm_contents (n : node) : node * result unit :=
  match n with
  | File _ => (n, Raise (OSError ENOTDIR))
  | Dir m es =>
      if can_read m then
        let '(rest, r) := rm_entries rm_contents m es in
        (Dir m rest, r)
      else (n, Raise (OSError EACCES))
  end.

Definition rmtree_op : entry_op :=
  fun m o =>
    match o with
    | None => (o, Raise (OSError ENOENT))
    | Some c =>
        let '(c', r) := rm_contents c in
        match r with
        | Ok _ =>
            if can_write m then (None, Ok tt)
            else (Some c', Raise (OSError EACCES))
        | Raise e => (Some c', Raise e)
        end
    end.

(** [shutil.rmtree(p)] with its default error handler. *)
Definition rmtree (fs : node) (p : path) : node * result unit :=
  match p with
  | [] =>
      let '(fs', r) := rm_contents fs in
      (fs', match r with Ok _ => Raise (OSError EBUSY) | Raise e => Raise e end)
  | _ :: _ => alter fs p rmtree_op
  end.

(** [os.mkdir]. *)
Definition mkdir_op : entry_op :=
  fun m o =>
    match o with
    | Some _ => (o, Raise (OSError EEXIST))
    | None =>
        if can_write m then (Some (Dir rwx []), Ok tt)
        else (o, Raise (OSError EACCES))
    end.

Definition os_mkdir (fs : node) (p : path) : node * result unit :=
  match p with
  | [] => (fs, Raise (OSError EEXIST))
  | _ :: _ => alter fs p mkdir_op
  end.

(** The handler [except OSError: if not exist_ok or not self.is_dir():
    raise] of [Path.mkdir], with [exist_ok=True]. *)
Definition unless_is_dir (fs : node) (p : path) (e : exn) : result unit :=
  match is_dir fs p with
  | Ok true => Ok tt
  | Ok false => Raise e
  | Raise e' => Raise e'
  end.

(** [Path.mkdir(parents=False, exist_ok=True)]. *)
Definition mkdir_exist_ok (fs : node) (p : path) : node * result unit :=
  let '(fs', r) := os_mkdir fs p in
  match r with
  | Ok _ => (fs', Ok tt)
  | Raise (OSError ENOENT) => (fs', Raise (OSError ENOENT))
  | Raise e => (fs', unless_is_dir fs' p e)
  end.

(** [Path.mkdir(parents=True, exist_ok=True)] of the path [rev rp]: when
    the parent is missing it is made first, in the same way. *)
Fixpoint mkdir_parents_rev (fs : node) (rp : list string)
  : node * result unit :=
  let p := rev rp in
  let '(fs', r) := os_mkdir fs p in
  match r with
  | Ok _ => (fs', Ok tt)
  | Raise (OSError ENOENT) =>
      match rp with
      | [] => (fs', Raise (OSError ENOENT))
      | _ :: rp' =>
          let '(fs1, r1) := mkdir_parents_rev fs' rp' in
          match r1 with
          | Ok _ => mkdir_exist_ok fs1 p
          | Raise e => (fs1, Raise e)
          end
      end
  | Raise e => (fs', unless_is_dir fs' p e)
  end.

Definition mkdir_parents (fs : node) (p : path) : node * result unit :=
  mkdir_parents_rev fs (rev p).

(** Opening [dst] for writing and filling it with [data]. *)
Definition write_op (data : string) : entry_op :=
  fun m o =>
    match o with
    | Some (Dir _ _) => (o, Raise (OSError EISDIR))
    | Some (File _) => (Some (File data), Ok tt)
    | None =>
        if can_write m then (Some (File data), Ok tt)
        else (o, Raise (OSError EACCES))
    end.

Definition basename (p : path) : list string :=
  match rev p with
  | [] => []
  | x :: _ => [x]
  end.

(** [shutil.copy2(src, dst)]: into [dst] when that is a directory, onto
    [dst] otherwise; copying a file onto itself is an error. *)
Definition copy2 (fs : node) (src dst : path) : node * result unit :=
  let dst' := if os_path_isdir fs dst then dst ++ basename src else dst in
  match resolve fs src with
  | Raise e => (fs, Raise e)
  | Ok (Dir _ _) => (fs, Raise (OSError EISDIR))
  | Ok (File data) =>
      if path_eqb src dst' then (fs, Raise (OSError ShutilError))
      else alter fs dst' (write_op data)
  end.

(** [shutil.copytree(src, dst, dirs_exist_ok=True)] for the directory [n]
    found at [src]: list it, make [dst], copy the entries one by one and
    collect their errors, which are raised together at the end. The source
    is read as it was when the copy began. *)
Section CopyEntries.
Variable copy : node -> path -> node -> path -> node * result unit.
Variable m : mode.
Variable src dst : path.

(** The loop over the entries of the source directory, of mode [m];
    [errors] tells whether one of the copies so far has failed. *)
Fixpoint copy_entries (es : list (string * node)) (fs : node)
  (errors : bool) : node * bool :=
  match es with
  | [] => (fs, errors)
  | (x, c) :: es' =>
      let '(fs', r) :=
        if can_search m then
          match c with
          | Dir _ _ => copy c (src ++ [x]) fs (dst ++ [x])
          | File _ => copy2 fs (src ++ [x]) (dst ++ [x])
          end
        else (fs, Raise (OSError EACCES)) in
      copy_entries es' fs'
        (errors || match r with Ok _ => false | Raise _ => true end)
  end.
End CopyEntries.

Fixpoint copytree_node (n : node) (src : path) (fs : node) (dst : path)
  : node * result unit :=
  match n with
  | File _ => (fs, Raise (OSError ENOTDIR))
  | Dir m es =>
      if can_read m then
        let '(fs1, r1) := mkdir_parents fs dst in
        match r1 with
        | Raise e => (fs1, Raise e)
        | Ok _ =>
            let '(fs2, errors) :=
              copy_entries copytree_node m src dst es fs1 false in
            (fs2, if errors then Raise (OSError ShutilError) else Ok tt)
        end
      else (fs, Raise (OSError EACCES))
  end.

(** A copy of a directory into its own subtree never ends by itself:
    every level finds the directory the level before has made, until the
    interpreter refuses to nest any deeper and the call ends with
    [RecursionError], which no handler of the script catches. (With names
    long enough, a path passes the length the system accepts before that
    depth is reached, and the call ends with [shutil.Error] instead.) The
    directories such a copy leaves behind are not part of the model. *)
Definition copytree (fs : node) (src dst : path) : node * result unit :=
  match resolve fs src with
  | Raise e => (fs, Raise e)
  | Ok n =>
      if is_prefix src dst then (fs, Raise RecursionError)
      else copytree_node n src fs dst
  end.

End FS.

(** ** The cleaner *)

Module Cleaner.
Import PurePath FS.

(** [self.stats]. *)
Record stats : Type := Stats {
  files_deleted : nat;
  dirs_deleted : nat;
  space_freed : nat
}.

(** [self.config]; the category map keeps the order of its keys. *)
Record config : Type := Config {
  protected_patterns : list string;
  cleanup_patterns : list (string * list string);
  backup_dir : string;
  interactive : bool;
  dry_run : bool
}.

(** What the script prints, one constructor per [print] of the source;
    the rendering of sizes by [format_size] is left to the reader of the
    messages. *)
Inductive msg : Type :=
| NoFilesFound (category : string)
| FilesFound (category : string) (items total_size : nat)
| Item (rel_path : path) (size : nat)
| AndMore (n : nat)
| WouldDelete (category : string) (items : nat)
| Prompt (category : string)
| CouldNotDelete (file_path : path) (e : exn)
| Deleted (category : string) (items total_size : nat)
| Banner (root : path)
| DryRunMode
| BackupMode
| Summary (s : stats)
| WouldDeleteTotals (files size : nat)
| CategoryLine (category : string) (items total_size : nat)
| UnknownCategories (invalid available : list string)
| ConfigSaved (p : path)
| ErrorSavingConfig (e : exn).

(** The state the methods work on: the file system, the statistics, how
    many times the clock has been read, the lines still to come on
    standard input, and what has been printed. *)
Record world : Type := World {
  fs : node;
  st : stats;
  ticks : nat;
  stdin : list string;
  stdout : list msg
}.

Definition M (A : Type) : Type := world -> world * result A.

Definition ret {A : Type} (a : A) : M A := fun w => (w, Ok a).

Definition raise {A : Type} (e : exn) : M A := fun w => (w, Raise e).

Definition bindM {A B : Type} (c : M A) (k : A -> M B) : M B :=
  fun w =>
    let '(w1, r) := c w in
    match r with
    | Ok a => k a w1
    | Raise e => (w1, Raise e)
    end.

Notation "'do' x <- c ; k" := (bindM c (fun x => k))
  (at level 10, x binder, c at level 100, k at level 200).

(** A computation that only reads the file system. *)
Definition reading {A : Type} (f : node -> result A) : M A :=
  fun w => (w, f (fs w)).

(** A system call that changes the file system. *)
Definition changing (f : node -> node * result unit) : M unit :=
  fun w =>
    let '(fs', r) := f (fs w) in
    (World fs' (st w) (ticks w) (stdin w) (stdout w), r).

Definition print (m : msg) : M unit :=
  fun w => (World (fs w) (st w) (ticks w) (stdin w) (stdout w ++ [m]), Ok tt).

Definition set_stats (s : stats) : M unit :=
  fun w => (World (fs w) s (ticks w) (stdin w) (stdout w), Ok tt).

Definition get_stats : M stats := fun w => (w, Ok (st w)).

(** [input(prompt)]. *)
Definition input (prompt : msg) : M string :=
  fun w =>
    match stdin w with
    | [] =>
        (World (fs w) (st w) (ticks w) [] (stdout w ++ [prompt]),
         Raise EOFError)
    | line :: rest =>
        (World (fs w) (st w) (ticks w) rest (stdout w ++ [prompt]), Ok line)
    end.

(** *** Strings *)

(** A character is a code point below 256, a string a [str] of such
    characters; what [lower] and [strip] do to the characters beyond is
    outside the model. [str.lower()] turns the capital letters among them into
    the small ones: [A] to [Z], and [U+00C0] to [U+00DE] without the
    multiplication sign [U+00D7]. *)
Definition lower_char (c : ascii) : ascii :=
  let n := nat_of_ascii c in
  if (Nat.leb 65 n && Nat.leb n 90) ||
     (Nat.leb 192 n && Nat.leb n 222 && negb (Nat.eqb n 215))
  then ascii_of_nat (n + 32) else c.

Fixpoint lower (s : string) : string :=
  match s with
  | EmptyString => EmptyString
  | String c s' => String (lower_char c) (lower s')
  end.

(** The characters that [str.strip()] removes, those for which
    [str.isspace()] holds: tab to carriage return, the four separators
    [U+001C] to [U+001F], the space, the next-line character [U+0085] and
    the no-break space [U+00A0]. *)
Definition is_space (c : ascii) : bool :=
  let n := nat_of_ascii c in
  (Nat.leb 9 n && Nat.leb n 13) || (Nat.leb 28 n && Nat.leb n 32) ||
  Nat.eqb n 133 || Nat.eqb n 160.

Fixpoint lstrip (s : string) : string :=
  match s with
  | EmptyString => EmptyString
  | String c s' => if is_space c then lstrip s' else s
  end.

(** [s.rstrip()] for the characters that [drop] accepts. *)
Fixpoint rstrip_by (drop : ascii -> bool) (s : string) : string :=
  match s with
  | EmptyString => EmptyString
  | String c s' =>
      match rstrip_by drop s' with
      | EmptyString => if drop c then EmptyString else String c EmptyString
      | t => String c t
      end
  end.

Definition strip (s : string) : string := rstrip_by is_space (lstrip s).

Definition is_slash (c : ascii) : bool := Ascii.eqb c "/".

Fixpoint endswith_slash (s : string) : bool :=
  match s with
  | EmptyString => false
  | String c EmptyString => is_slash c
  | String _ s' => endswith_slash s'
  end.

(** [key in d] and [d[key]]. *)
Fixpoint lookup {V : Type} (k : string) (d : list (string * V)) : option V :=
  match d with
  | [] => None
  | (k', v) :: d' => if String.eqb k k' then Some v else lookup k d'
  end.

Definition keys {V : Type} (d : list (string * V)) : list string :=
  map fst d.

Definition mem (k : string) (l : list string) : bool :=
  existsb (String.eqb k) l.

Section Methods.

(** [self.project_root], [self.config], [self.config_path]; the text that
    [json.dump] writes for the configuration; and the clock: [clock k] is
    what [datetime.now().strftime("%Y%m%d_%H%M%S")] returns the [k]-th
    time it is asked. *)
Variable project_root : path.
Variable cfg : config.
Variable config_path : path.
Variable config_text : string.
Variable clock : nat -> string.

Definition now : M string :=
  fun w =>
    (World (fs w) (st w) (S (ticks w)) (stdin w) (stdout w),
     Ok (clock (ticks w))).

(** [save_config]. *)
Definition save_config : M unit :=
  fun w =>
    let '(w1, r) := changing (fun fs => alter fs config_path (write_op config_text)) w in
    match r with
    | Ok _ => print (ConfigSaved config_path) w1
    | Raise e =>
        if is_OSError e then print (ErrorSavingConfig e) w1
        else (w1, Raise e)
    end.

(** The loop of [is_protected] over the protected patterns. *)
Fixpoint any_match (relative_path : path) (patterns : list string)
  : result bool :=
  match patterns with
  | [] => Ok false
  | pattern :: rest =>
      b <- pmatch relative_path pattern ;;
      if b then Ok true else any_match relative_path rest
  end.

(** [is_protected]. *)
Definition is_protected (p : path) : result bool :=
  relative_path <- relative_to p project_root ;;
  any_match relative_path (protected_patterns cfg).

(** The inner loops of [find_files]: keep the paths of the wanted kind
    that are not protected. *)
Fixpoint keep_unprotected (kind : node -> path -> result bool) (fs : node)
  (paths : list path) (found_files : list path) : result (list path) :=
  match paths with
  | [] => Ok found_files
  | p :: rest =>
      k <- kind fs p ;;
      if k then
        b <- is_protected p ;;
        if b then keep_unprotected kind fs rest found_files
        else keep_unprotected kind fs rest (found_files ++ [p])
      else keep_unprotected kind fs rest found_files
  end.

Fixpoint find_loop (fs : node) (patterns : list string)
  (found_files : list path) : result (list path) :=
  match patterns with
  | [] => Ok found_files
  | pattern :: rest =>
      if endswith_slash pattern then
        paths <- rglob fs project_root (rstrip_by is_slash pattern) ;;
        found <- keep_unprotected is_dir fs paths found_files ;;
        find_loop fs rest found
      else
        paths <- rglob fs project_root pattern ;;
        found <- keep_unprotected is_file fs paths found_files ;;
        find_loop fs rest found
  end.

(** [find_files]. *)
Definition find_files (fs : node) (patterns : list string)
  : result (list path) :=
  found_files <- find_loop fs patterns [] ;;
  Ok (sorted_set found_files).

(** The loop of [get_file_size] over [path.rglob('*')]: the total so
    far, and the exception that ended the loop, if one did. *)
Fixpoint size_loop (fs : node) (items : list path) (total_size : nat)
  : nat * option exn :=
  match items with
  | [] => (total_size, None)
  | item :: rest =>
      match is_file fs item with
      | Raise e => (total_size, Some e)
      | Ok false => size_loop fs rest total_size
      | Ok true =>
          match st_size fs item with
          | Raise e => (total_size, Some e)
          | Ok n => size_loop fs rest (total_size + n)
          end
      end
  end.

(** [get_file_size]. *)
Definition get_file_size (fs : node) (p : path) : result nat :=
  f <- is_file fs p ;;
  if f then st_size fs p
  else
    d <- is_dir fs p ;;
    if d then
      match rglob fs p "*" with
      | Raise e => if is_OSError e then Ok 0 else Raise e
      | Ok items =>
          match size_loop fs items 0 with
          | (total_size, None) => Ok total_size
          | (total_size, Some e) =>
              if is_OSError e then Ok total_size else Raise e
          end
      end
    else Ok 0.

(** [sum(self.get_file_size(f) for f in files)]. *)
Fixpoint sum_sizes (fs : node) (files : list path) : result nat :=
  match files with
  | [] => Ok 0
  | f :: rest =>
      n <- get_file_size fs f ;;
      t <- sum_sizes fs rest ;;
      Ok (n + t)
  end.

Definition parent (p : path) : path := removelast p.

(** [backup_file]. *)
Definition backup_file (file_path backup_dir : path) : M unit :=
  do _ <- changing (fun fs => mkdir_parents fs backup_dir);
  do relative_path <- reading (fun _ => relative_to file_path project_root);
  let backup_path := backup_dir ++ relative_path in
  do _ <- changing (fun fs => mkdir_parents fs (parent backup_path));
  do f <- reading (fun fs => is_file fs file_path);
  if f then changing (fun fs => copy2 fs file_path backup_path)
  else
    do d <- reading (fun fs => is_dir fs file_path);
    if d then changing (fun fs => copytree fs file_path backup_path)
    else ret tt.

(** [delete_path]. *)
Definition delete_path (p : path) (backup : bool) : M unit :=
  do _ <- (if backup then
             do timestamp <- now;
             let backup_dir :=
               joinpath (joinpath project_root (backup_dir cfg)) timestamp in
             backup_file p backup_dir
           else ret tt);
  do size <- reading (fun fs => get_file_size fs p);
  do f <- reading (fun fs => is_file fs p);
  do _ <- (if f then
             do _ <- changing (fun fs => unlink fs p);
             do s <- get_stats;
             set_stats (Stats (files_deleted s + 1) (dirs_deleted s)
                          (space_freed s))
           else
             do d <- reading (fun fs => is_dir fs p);
             if d then
               do _ <- changing (fun fs => rmtree fs p);
               do s <- get_stats;
               set_stats (Stats (files_deleted s) (dirs_deleted s + 1)
                            (space_freed s))
             else ret tt);
  do s <- get_stats;
  set_stats (Stats (files_deleted s) (dirs_deleted s) (space_freed s + size)).

(** The listing of the first ten entries in [clean_category]. *)
Fixpoint show_items (files : list path) : M unit :=
  match files with
  | [] => ret tt
  | file_path :: rest =>
      do rel_path <- reading (fun _ => relative_to file_path project_root);
      do size <- reading (fun fs => get_file_size fs file_path);
      do _ <- print (Item rel_path size);
      show_items rest
  end.

(** The deletion loop of [clean_category], with its [try] around each
    entry. *)
Fixpoint delete_all (files : list path) (backup : bool) : M unit :=
  match files with
  | [] => ret tt
  | file_path :: rest =>
      fun w =>
        let '(w1, r) := delete_path file_path backup w in
        match r with
        | Ok _ => delete_all rest backup w1
        | Raise e =>
            if is_OSError e then
              (do _ <- print (CouldNotDelete file_path e);
               delete_all rest backup) w1
            else (w1, Raise e)
        end
  end.

(** [clean_category]. *)
Definition clean_category (category : string) (patterns : list string)
  (dry_run backup interactive : bool) : M (list path * nat) :=
  do files_to_clean <- reading (fun fs => find_files fs patterns);
  do total_size <- reading (fun fs => sum_sizes fs files_to_clean);
  if negb (nonempty files_to_clean) then
    do _ <- print (NoFilesFound category);
    ret (files_to_clean, total_size)
  else
    do _ <- print (FilesFound category (List.length files_to_clean) total_size);
    do _ <- show_items (firstn 10 files_to_clean);
    do _ <- (if Nat.ltb 10 (List.length files_to_clean)
             then print (AndMore (List.length files_to_clean - 10))
             else ret tt);
    if dry_run then
      do _ <- print (WouldDelete category (List.length files_to_clean));
      ret (files_to_clean, total_size)
    else
      do skip <- (if interactive then
                    do line <- input (Prompt category);
                    let response := strip (lower line) in
                    if String.eqb response "s" then ret true
                    else if negb (String.eqb response "y") then ret true
                    else ret false
                  else ret false);
      if skip then ret (files_to_clean, 0)
      else
        do _ <- delete_all files_to_clean backup;
        do _ <- print (Deleted category (List.length files_to_clean) total_size);
        ret (files_to_clean, total_size).

(** The loop of [run_cleanup] over the categories, with the two running
    totals. *)
Fixpoint run_loop (categories : list string)
  (dry_run backup interactive : bool) (total_files_found total_size_found : nat)
  : M (nat * nat) :=
  match categories with
  | [] => ret (total_files_found, total_size_found)
  | category :: rest =>
      match lookup category (cleanup_patterns cfg) with
      | Some patterns =>
          do found <- clean_category category patterns dry_run backup interactive;
          run_loop rest dry_run backup interactive
            (total_files_found + List.length (fst found))
            (total_size_found + snd found)
      | None =>
          run_loop rest dry_run backup interactive
            total_files_found total_size_found
      end
  end.

(** [run_cleanup]. *)
Definition run_cleanup (categories : list string)
  (dry_run backup interactive : bool) : M unit :=
  do _ <- print (Banner project_root);
  do _ <- (if dry_run then print DryRunMode else ret tt);
  do _ <- (if backup then print BackupMode else ret tt);
  do totals <- run_loop categories dry_run backup interactive 0 0;
  do s <- get_stats;
  do _ <- print (Summary s);
  if dry_run then print (WouldDeleteTotals (fst totals) (snd totals))
  else ret tt.

(** [list_categories]. *)
Fixpoint list_loop (d : list (string * list string)) : M unit :=
  match d with
  | [] => ret tt
  | (category, patterns) :: rest =>
      do files <- reading (fun fs => find_files fs patterns);
      do total_size <- reading (fun fs => sum_sizes fs files);
      do _ <- print (CategoryLine category (List.length files) total_size);
      list_loop rest
  end.

Definition list_categories : M unit := list_loop (cleanup_patterns cfg).

(** The parsed command line. *)
Record args : Type := Args {
  arg_categories : list string;
  arg_dry_run : bool;
  arg_backup : bool;
  arg_no_interactive : bool;
  arg_list : bool;
  arg_save_config : bool
}.

(** [main], from the parsed arguments on; [sys.exit(1)] raises
    [SystemExit 1]. *)
Definition main (a : args) : M unit :=
  if arg_save_config a then save_config
  else if arg_list a then list_categories
  else
    let categories :=
      if nonempty (arg_categories a) then arg_categories a
      else keys (cleanup_patterns cfg) in
    let available_categories := keys (cleanup_patterns cfg) in
    let invalid_categories :=
      filter (fun c => negb (mem c available_categories)) categories in
    if nonempty invalid_categories then
      do _ <- print (UnknownCategories invalid_categories available_categories);
      raise (SystemExit 1)
    else
      run_cleanup categories (arg_dry_run a) (arg_backup a)
        (negb (arg_no_interactive a)).

End Methods.

End Cleaner.

(** ** Sample data *)

Module Examples.
Import PurePath FS Cleaner.

(** The project of the concrete scenario: [a/x.pyc] (10 bytes),
    [a/y.log] (20 bytes) and [docs/readme.md]. *)
Definition tree : node :=
  Dir rwx
    [("a", Dir rwx [("x.pyc", File "0123456789");
                    ("y.log", File "01234567890123456789")]);
     ("docs", Dir rwx [("readme.md", File "hello")])].

(** The built-in configuration of [load_config]. *)
Definition default_config : config :=
  Config
    ["examples/notebooks/*.ipynb"; "docs/**/*"; ".git/**/*"; "*.md";
     "pyproject.toml"; "setup.cfg"; "Makefile"; "LICENSE"]
    [("cache", ["__pycache__"; ".pytest_cache"; ".mypy_cache"; ".ruff_cache"]);
     ("python_compiled", ["*.pyc"; "*.pyo"]);
     ("models", ["*.pkl"; "*.pt"; "*.ts"; "*.onnx"]);
     ("logs", ["*.log"; "*.out"; "*.err"]);
     ("coverage", ["htmlcov"; "coverage.xml"; ".coverage*"]);
     ("results", ["*.png"; "*.jpg"; "*.csv"; "results/"; "benchmarks/results/"]);
     ("build", ["build/"; "dist/"; "*.egg-info/"])]
    "cleanup_backups" true false.

(** A directory matched as a whole together with a file inside it. *)
Definition tree_results : node :=
  Dir rwx
    [("results", Dir rwx [("plot.png", File "12345")]);
     ("keep.txt", File "k")].

(** Three logs, the second one in a directory that cannot be changed. *)
Definition tree_locked : node :=
  Dir rwx
    [("a.log", File "12345");
     ("locked", Dir (Mode true false true) [("b.log", File "123")]);
     ("z.log", File "1")].


Definition zero : stats := Stats 0 0 0.

(** A clock that moves on by a second between two readings. *)
Definition ticking (k : nat) : string :=
  match k with
  | 0 => "20240101_120000"
  | 1 => "20240101_120001"
  | _ => "20240101_120002"
  end.

Definition start (t : node) (lines : list string) : world :=
  World t zero 0 lines [].

End Examples.

(** ** Notions used in the statements *)

Import PurePath FS Cleaner.

(** A pattern without any component, on which [PurePath.match] raises. *)
Definition empty_pattern (pattern : string) : bool :=
  negb (fst (parse_parts pattern)) &&
  Nat.eqb (List.length (snd (parse_parts pattern))) 0.

(** Where an entry of the result of [find_files] comes from. *)
Definition selected_by (project_root : path) (t : node) (pattern : string)
  (p : path) : Prop :=
  if endswith_slash pattern then
    (exists paths,
       rglob t project_root (rstrip_by is_slash pattern) = Ok paths /\
       In p paths) /\
    is_dir t p = Ok true
  else
    (exists paths, rglob t project_root pattern = Ok paths /\ In p paths) /\
    is_file t p = Ok true.

(** [w'] differs from [w] in what has been printed at most. *)
Definition only_printed (w w' : world) : Prop :=
  fs w' = fs w /\ st w' = st w /\ ticks w' = ticks w /\ stdin w' = stdin w.

(** The answer read at the prompt, as [clean_category] compares it. *)
Definition answer (w : world) : string := strip (lower (hd "" (stdin w))).

(** Whether the run stops at the prompt without deleting. *)
Definition declined (dry_run interactive : bool) (files : list path)
  (w : world) : bool :=
  nonempty files && negb dry_run && interactive &&
  negb (String.eqb (answer w) "y").

(** One path component matches one pattern component. *)
Definition matches (name pat : string) : Prop :=
  Fnmatch.fnmatchcase name pat = true.

(** The reading of the specification: the pattern covers the whole
    relative path, a ["**"] component stands for any number of path
    components, every other component for exactly one. *)
Fixpoint anchored_match (pats parts : list string) {struct pats} : bool :=
  match pats with
  | [] => match parts with [] => true | _ :: _ => false end
  | pat :: pats' =>
      if String.eqb pat "**" then
        (fix skip (parts : list string) : bool :=
           anchored_match pats' parts ||
           match parts with
           | [] => false
           | _ :: parts' => skip parts'
           end) parts
      else
        match parts with
        | [] => false
        | x :: parts' =>
            Fnmatch.fnmatchcase x pat && anchored_match pats' parts'
        end
  end.

(** The atoms of a pattern without special characters. *)
Fixpoint literals (s : string) : list Fnmatch.tok :=
  match s with
  | EmptyString => []
  | String c s' => Fnmatch.TLit c :: literals s'
  end.

(** A result that, when it is an exception, is an [OSError]. *)
Definition os_only {A : Type} (r : result A) : Prop :=
  forall e, r = Raise e -> is_OSError e = true.

(** An entry operation that raises nothing but [OSError]s. *)
Definition op_os_only (f : entry_op) : Prop :=
  forall m o, os_only (snd (f m o)).

(** An entry operation that succeeds only by removing the entry. *)
Definition removing (f : entry_op) : Prop :=
  forall m o o', f m o = (o', Ok tt) -> o' = None.

(** [w] with another file system. *)
Definition with_fs (w : world) (t : node) : world :=
  World t (st w) (ticks w) (stdin w) (stdout w).

(** The first statement of [delete_path]: the backup, when it is asked
    for. *)
Definition backup_step (project_root : path) (cfg : config)
  (clock : nat -> string) (p : path) (backup : bool) : M unit :=
  if backup then
    do timestamp <- now clock;
    backup_file project_root p
      (joinpath (joinpath project_root (backup_dir cfg)) timestamp)
  else ret tt.

(** What a call of [delete_path] that returns has done to the statistics
    and to its entry: counted it once, as a file or as a directory, and
    removed it; or found nothing to remove and counted nothing. *)
Definition counted_once (before : stats) (w' : world) (p : path) : Prop :=
  (files_deleted (st w') = S (files_deleted before) /\
   dirs_deleted (st w') = dirs_deleted before /\
   resolve (fs w') p = Raise (OSError ENOENT)) \/
  (files_deleted (st w') = files_deleted before /\
   dirs_deleted (st w') = S (dirs_deleted before) /\
   resolve (fs w') p = Raise (OSError ENOENT)) \/
  (files_deleted (st w') = files_deleted before /\
   dirs_deleted (st w') = dirs_deleted before /\
   is_file (fs w') p = Ok false /\ is_dir (fs w') p = Ok false).

(** The selector of [rglob('*')]. *)
Definition star_selector : selector :=
  Recursive (Wildcard "*" false Terminating).

(** Neither path lies on the way to the other. *)
Definition unrelated (p q : path) : bool :=
  negb (is_prefix p q) && negb (is_prefix q p).

(** No entry of the list lies inside another one, or is listed twice. *)
Fixpoint separate (files : list path) : Prop :=
  match files with
  | [] => True
  | f :: rest => Forall (fun g => unrelated g f = true) rest /\ separate rest
  end.

(** Every call of [delete_path] in the loop over [files] returns
    normally. *)
Fixpoint all_deleted (project_root : path) (cfg : config)
  (clock : nat -> string) (files : list path) (backup : bool) (w : world)
  : bool :=
  match files with
  | [] => true
  | f :: rest =>
      match delete_path project_root cfg clock f backup w with
      | (w1, Ok _) => all_deleted project_root cfg clock rest backup w1
      | (_, Raise _) => false
      end
  end.

(** No entry of the list contains a backup root of the batch or lies
    inside one. *)
Definition clear_of_backups (project_root : path) (cfg : config)
  (clock : nat -> string) (files : list path) : Prop :=
  forall k g,
    In g files ->
    unrelated g (joinpath (joinpath project_root (backup_dir cfg)) (clock k))
    = true.

(** The node at [p] below [n], when every directory on the way to it
    can be listed and entered. *)
Fixpoint listed (n : node) (p : path) : option node :=
  match p with
  | [] => Some n
  | x :: p' =>
      match n with
      | File _ => None
      | Dir m es =>
          if can_read m && can_search m then
            match find_entry x es with
            | Some c => listed c p'
            | None => None
            end
          else None
      end
  end.

(** Where a path leads in a tree without symbolic links: a component
    [".."] takes back the component before it. *)
Fixpoint normal_onto (seen : path) (p : path) : path :=
  match p with
  | [] => rev seen
  | x :: p' =>
      if String.eqb x ".." then normal_onto (tl seen) p'
      else normal_onto (x :: seen) p'
  end.

Definition normal (p : path) : path := normal_onto [] p.

(** The entry [p] holds the place under [bdir] where its own backup
    goes, so that backing it up is a copy of a directory into itself. *)
Definition holds_own_backup (project_root p bdir : path) : bool :=
  is_prefix p (bdir ++ skipn (List.length project_root) p).

(** The backup root of the call made in world [w]. *)
Definition backup_root (project_root : path) (cfg : config)
  (clock : nat -> string) (w : world) : path :=
  joinpath (joinpath project_root (backup_dir cfg)) (clock (ticks w)).




(** No name occurs twice in the list. *)
Fixpoint distinct (l : list string) : bool :=
  match l with
  | [] => true
  | x :: l' => negb (mem x l') && distinct l'
  end.

(** No directory holds two entries of the same name. *)
Fixpoint unique_names (n : node) : bool :=
  match n with
  | File _ => true
  | Dir _ es =>
      distinct (map fst es) && forallb (fun e => unique_names (snd e)) es
  end.

(** The selector of the last component of [rglob('*')]. *)
Definition wild : selector := Wildcard "*" false Terminating.





(** ** Further notions *)

(** [p] comes strictly before [q] in the order of paths. *)
Definition path_lt (p q : path) : Prop := path_compare p q = Lt.

(** The statistics [s'] are nowhere below [s]. *)
Definition stats_le (s s' : stats) : Prop :=
  files_deleted s <= files_deleted s' /\
  dirs_deleted s <= dirs_deleted s' /\
  space_freed s <= space_freed s'.

(** Whether [pattern] matches a relative path, an error counting as no
    match. *)
Definition matches_path (rel : path) (pattern : string) : bool :=
  match pmatch rel pattern with
  | Ok b => b
  | Raise _ => false
  end.

(** An entry operation that, when it fails, leaves the entry as it
    was. *)
Definition fails_cleanly (f : entry_op) : Prop :=
  forall m o o' e, f m o = (o', Raise e) -> o' = o.

(** [w] after one more line of output. *)
Definition printed (m : msg) (w : world) : world :=
  World (fs w) (st w) (ticks w) (stdin w) (stdout w ++ [m]).

(** The last part of [clean_category]: the deletion loop and the line
    that reports it. *)
Definition proceed (project_root : path) (cfg : config)
  (clock : nat -> string) (category : string) (files : list path)
  (total_size : nat) (backup : bool) : M (list path * nat) :=
  fun w =>
    let '(w', r) := delete_all project_root cfg clock files backup w in
    match r with
    | Ok _ =>
        (printed (Deleted category (List.length files) total_size) w',
         Ok (files, total_size))
    | Raise e => (w', Raise e)
    end.

(** [clean_category] from the point where the entries have been listed:
    the dry-run report, the prompt, the deletion. *)
Definition decide (project_root : path) (cfg : config)
  (clock : nat -> string) (category : string) (files : list path)
  (total_size : nat) (dry_run backup interactive : bool)
  : M (list path * nat) :=
  fun w =>
    if dry_run then
      (printed (WouldDelete category (List.length files)) w,
       Ok (files, total_size))
    else if interactive then
      match stdin w with
      | [] =>
          (World (fs w) (st w) (ticks w) [] (stdout w ++ [Prompt category]),
           Raise EOFError)
      | line :: rest =>
          let w' :=
            World (fs w) (st w) (ticks w) rest
              (stdout w ++ [Prompt category]) in
          if String.eqb (strip (lower line)) "y"
          then proceed project_root cfg clock category files total_size
                 backup w'
          else (w', Ok (files, 0))
      end
    else proceed project_root cfg clock category files total_size backup w.

(** The project of [Examples.tree] as the directory [proj] of a larger
    tree, next to a file that is not part of it. *)
Definition tree_home : node :=
  Dir rwx [("proj", Examples.tree); ("other", File "mine")].

(** ** Loading the configuration *)

Module Loader.

(** What [json.load] returns. A number is kept as its literal:
    [load_config] never looks into one. *)
#[warnings="-register-all"]
Inductive json : Type :=
| JNull
| JBool (b : bool)
| JNumber (literal : string)
| JString (s : string)
| JArray (items : list json)
| JObject (members : list (string * json)).

(** The exceptions of this part: [AttributeError], [TypeError] and
    [UnicodeDecodeError] beside the ones of the rest of the script. *)
Inductive raised : Type :=
| AttributeError
| TypeError
| UnicodeDecodeError
| Other (e : exn).

Inductive outcome (A : Type) : Type :=
| Done (a : A)
| Fail (e : raised).

Arguments Done {A} a.
Arguments Fail {A} e.

(** How [json.load(f)] ends on the bytes of a file: with the value they
    stand for, with [JSONDecodeError] for a text that is not JSON, or with
    another exception of reading, decoding and parsing, such as
    [UnicodeDecodeError] for bytes that are no text in the encoding of the
    locale, [RecursionError] for a text nested too deep and [ValueError]
    for a number of too many digits. *)
Inductive loaded : Type :=
| Parsed (v : json)
| Malformed
| Broken (e : raised).

(** What [except (json.JSONDecodeError, IOError) as e] has caught. *)
Inductive cause : Type :=
| JSONDecodeError
| IOError (e : errno).

(** The two lines [load_config] prints when it falls back. *)
Inductive notice : Type :=
| CouldNotLoad (config_path : path) (e : cause)
| UsingDefault.

(** [self.config_path]: the string given to the constructor as it is, or
    the [Path] made from the project root. *)
Inductive pathlike : Type :=
| AsStr (s : string)
| AsPath (p : path).

(** The configuration as the dictionary it is in the source. *)
Definition to_json (c : config) : json :=
  JObject
    [("protected_patterns", JArray (map JString (protected_patterns c)));
     ("cleanup_patterns",
      JObject
        (map (fun kv : string * list string =>
                (fst kv, JArray (map JString (snd kv))))
           (cleanup_patterns c)));
     ("backup_dir", JString (backup_dir c));
     ("interactive", JBool (interactive c));
     ("dry_run", JBool (dry_run c))].

Definition default_config : json := to_json Examples.default_config.

Definition items (v : json) : list (string * json) :=
  match v with
  | JObject d => d
  | _ => []
  end.

Definition is_string (key : string) (v : json) : bool :=
  match v with
  | JString s => String.eqb s key
  | _ => false
  end.

Definition is_substring (key s : string) : bool :=
  match String.index 0 key s with
  | Some _ => true
  | None => false
  end.

(** [key in config]: a key of a dictionary, an element of a list, a
    substring of a string; the other values are not containers. *)
Definition contains (config : json) (key : string) : outcome bool :=
  match config with
  | JObject d => Done (mem key (keys d))
  | JArray l => Done (existsb (is_string key) l)
  | JString s => Done (is_substring key s)
  | JNull | JBool _ | JNumber _ => Fail TypeError
  end.

(** [d[key] = value] on a dictionary: in place of the old value, or
    after the last key. *)
Fixpoint set_item (key : string) (value : json) (d : list (string * json))
  : list (string * json) :=
  match d with
  | [] => [(key, value)]
  | (k, v) :: d' =>
      if String.eqb key k then (k, value) :: d'
      else (k, v) :: set_item key value d'
  end.

(** [config[key] = value]: only a dictionary takes a string as index. *)
Definition setitem (config : json) (key : string) (value : json)
  : outcome json :=
  match config with
  | JObject d => Done (JObject (set_item key value d))
  | _ => Fail TypeError
  end.

(** The loop [for key, value in default_config.items()]. *)
Fixpoint merge (defaults : list (string * json)) (config : json)
  : outcome json :=
  match defaults with
  | [] => Done config
  | (key, value) :: rest =>
      match contains config key with
      | Fail e => Fail e
      | Done true => merge rest config
      | Done false =>
          match setitem config key value with
          | Fail e => Fail e
          | Done config' => merge rest config'
          end
      end
  end.

(** [open(config_path, 'r')] and the reading of the whole file. *)
Definition open_read (t : node) (p : path) : result string :=
  match resolve t p with
  | Ok (File data) => Ok data
  | Ok (Dir _ _) => Raise (OSError EISDIR)
  | Raise e => Raise e
  end.

Section Load.

(** [json.load] on an open file, as a function of the bytes the file
    holds. *)
Variable loads : string -> loaded.

(** [load_config]: what is printed, and the configuration or the
    exception. Of the exceptions of [json.load] the [except] clause
    catches [JSONDecodeError] and [OSError]; any other one is passed
    on. *)
Definition load_config (config_path : pathlike) (t : node)
  : list notice * outcome json :=
  match config_path with
  | AsStr _ => ([], Fail AttributeError)
  | AsPath p =>
      match exists_ t p with
      | Raise e => ([], Fail (Other e))
      | Ok false => ([], Done default_config)
      | Ok true =>
          match open_read t p with
          | Raise (OSError e) =>
              ([CouldNotLoad p (IOError e); UsingDefault],
               Done default_config)
          | Raise e => ([], Fail (Other e))
          | Ok data =>
              match loads data with
              | Parsed config => ([], merge (items default_config) config)
              | Malformed =>
                  ([CouldNotLoad p JSONDecodeError; UsingDefault],
                   Done default_config)
              | Broken (Other (OSError e)) =>
                  ([CouldNotLoad p (IOError e); UsingDefault],
                   Done default_config)
              | Broken e => ([], Fail e)
              end
          end
      end
  end.

(** [__init__], as far as the configuration goes: [config_path or
    self.project_root / ".cleanrc"], then [load_config]. *)
Definition init (project_root : path) (config_path : option string)
  (t : node) : pathlike * (list notice * outcome json) :=
  let config_path :=
    match config_path with
    | None => AsPath (joinpath project_root ".cleanrc")
    | Some s =>
        if String.eqb s "" then AsPath (joinpath project_root ".cleanrc")
        else AsStr s
    end in
  (config_path, load_config config_path t).

End Load.

End Loader.

(** A configuration file that sets [backup_dir] only, and [json.load]
    on the files of the examples; the byte 255 is no text in UTF-8. *)
Definition quoted (s : string) : string :=
  String (Ascii.ascii_of_nat 34) (s ++ String (Ascii.ascii_of_nat 34) "").

Definition sample_text : string :=
  "{" ++ quoted "backup_dir" ++ ": " ++ quoted "old" ++ "}".

Definition sample_loads (text : string) : Loader.loaded :=
  if String.eqb text sample_text
  then Loader.Parsed (Loader.JObject [("backup_dir", Loader.JString "old")])
  else if String.eqb text "[]" then Loader.Parsed (Loader.JArray [])
  else if String.eqb text (String (Ascii.ascii_of_nat 255) "")
  then Loader.Broken Loader.UnicodeDecodeError
  else Loader.Malformed.

(** The project of [Examples.tree] with such a file. *)
Definition tree_configured : node :=
  match Examples.tree with
  | Dir m es => Dir m (es ++ [(".cleanrc", File sample_text)])
  | File data => File data
  end.

(** ** Sizes for the reader *)

Module Format.
Local Open Scope N_scope.

(** A floating-point number of the script: the fraction [num / den],
    where [den] is a power of two. Every number [format_size] computes is
    such a fraction with at most 53 significant bits in [num], so that its
    divisions by [1024.0] are exact. *)
Record float : Type := Float { num : N; den : N }.

(** [a / b] to the nearest integer, the even one at a tie. *)
Definition round_half_even (a b : N) : N :=
  let q := a / b in
  let r := a mod b in
  if 2 * r <? b then q
  else if b <? 2 * r then q + 1
  else if N.even q then q else q + 1.

(** [float(n)] for an [int]: exact below [2 ** 53]; beyond, the nearest
    number with 53 significant bits; [None] is the [OverflowError] of an
    [int] too large for a float. *)
Definition float_of_int (n : N) : option float :=
  if n <? 2 ^ 53 then Some (Float n 1)
  else
    let e := N.log2 n - 52 in
    let f := round_half_even n (2 ^ e) * 2 ^ e in
    if f <? 2 ^ 1024 then Some (Float f 1) else None.

(** [x < 1024.0] and [x / 1024.0]. *)
Definition below_1024 (x : float) : bool := num x <? 1024 * den x.

Definition div_1024 (x : float) : float := Float (num x) (den x * 1024).

Definition decimal (n : N) : string :=
  NilZero.string_of_uint (N.to_uint n).

(** [x] in tenths, as [f"{x:.1f}"] rounds it, and the text. *)
Definition tenths (x : float) : N := round_half_even (10 * num x) (den x).

Definition show_tenths (t : N) : string :=
  (decimal (t / 10) ++ "." ++ decimal (t mod 10))%string.

Definition fmt1 (x : float) : string := show_tenths (tenths x).

(** The loop of [format_size] from its second round on, where
    [bytes_size] is a float. *)
Fixpoint format_loop (units : list string) (x : float) : string :=
  match units with
  | [] => (fmt1 x ++ " TB")%string
  | unit :: rest =>
      if below_1024 x then (fmt1 x ++ " " ++ unit)%string
      else format_loop rest (div_1024 x)
  end.

(** [format_size]: the first round compares and prints the [int] it was
    given; the first division makes a float of it. *)
Definition format_size (bytes_size : N) : option string :=
  if bytes_size <? 1024 then Some (fmt1 (Float bytes_size 1) ++ " B")%string
  else
    match float_of_int bytes_size with
    | None => None
    | Some x => Some (format_loop ["KB"; "MB"; "GB"]%string (div_1024 x))
    end.

(** The units, by the number of divisions. *)
Definition unit_name (k : nat) : string :=
  match k with
  | 0%nat => "B"
  | 1%nat => "KB"
  | 2%nat => "MB"
  | 3%nat => "GB"
  | _ => "TB"
  end.

End Format.

(** The tree [n], found at [src], has been copied to the fresh path
    [dst]: every regular file in it is at the same place under [dst]. *)
Definition copied (n : node) : Prop :=
  forall src t dst t',
    copytree_node n src t dst = (t', Ok tt) ->
    resolve t src = Ok n ->
    unrelated src dst = true ->
    resolve t dst = Raise (OSError ENOENT) ->
    unique_names n = true ->
    forall q data,
      resolve n q = Ok (File data) ->
      resolve t' (dst ++ q) = Ok (File data).

(** An exception other than [SystemExit]. *)
Definition no_exit (e : exn) : bool :=
  match e with
  | SystemExit _ => false
  | _ => true
  end.

(** A result, and a command, that do not end with [SystemExit]. *)
Definition stays {A : Type} (r : result A) : Prop :=
  forall e, r = Raise e -> no_exit e = true.

Definition staying {A : Type} (c : M A) : Prop :=
  forall w, stays (snd (c w)).

(** The deletions counted so far, of files and of directories. *)
Definition deletions (s : stats) : nat := files_deleted s + dirs_deleted s.

(** A path without a component [".."]: in a file system without
    links, which is what [node] describes, such a path names the place
    that its components spell out, and two such paths name the same place
    only if they are equal. *)
Definition plain (p : path) : bool :=
  forallb (fun x => negb (String.eqb x "..")) p.

(** A pattern without a component [".."] never leads the scan out of the
    directory it starts from. *)
Definition plain_pattern (s : string) : bool :=
  plain (snd (parse_parts s)).

(** ** Properties *)

(** *** Paths *)

Lemma is_prefix_refl : forall p, is_prefix p p = true.
Proof.
  induction p as [|x p IH]; simpl; [reflexivity|].
  now rewrite String.eqb_refl.
Qed.

Lemma is_prefix_app : forall p q, is_prefix p (p ++ q) = true.
Proof.
  induction p as [|x p IH]; intros q; simpl; [reflexivity|].
  rewrite String.eqb_refl. apply IH.
Qed.

Lemma is_prefix_trans :
  forall p q r, is_prefix p q = true -> is_prefix q r = true ->
                is_prefix p r = true.
Proof.
  induction p as [|x p IH]; intros q r Hpq Hqr; [reflexivity|].
  destruct q as [|y q]; [discriminate|].
  destruct r as [|z r]; [discriminate|].
  simpl in *.
  apply andb_true_iff in Hpq as [Hxy Hpq].
  apply andb_true_iff in Hqr as [Hyz Hqr].
  apply String.eqb_eq in Hxy, Hyz; subst.
  rewrite String.eqb_refl; simpl.
  eauto.
Qed.

Lemma is_prefix_split :
  forall p q, is_prefix p q = true -> exists r, q = p ++ r.
Proof.
  induction p as [|x p IH]; intros q H.
  - now exists q.
  - destruct q as [|y q]; [discriminate|].
    simpl in H. apply andb_true_iff in H as [Hxy H].
    apply String.eqb_eq in Hxy; subst.
    destruct (IH _ H) as [r ->].
    now exists r.
Qed.

Lemma relative_to_app :
  forall root rel, relative_to (root ++ rel) root = Ok rel.
Proof.
  intros root rel. unfold relative_to.
  rewrite is_prefix_app.
  f_equal. induction root; simpl; auto.
Qed.

(** *** Globbing stays below its starting point *)

Lemma iterate_directories_prefix :
  forall n P acc s,
    In s (iterate_directories P acc n) ->
    is_prefix P (fst (fst s)) = true.
Proof.
  induction n as [data|m es IH] using node_rect_all;
    intros P acc s Hin; simpl in Hin.
  - destruct Hin as [<-|[]]. apply is_prefix_refl.
  - destruct Hin as [<-|Hin]; [apply is_prefix_refl|].
    destruct (acc && can_read m); [|contradiction].
    induction es as [|[x c] es IHes]; [contradiction|].
    inversion IH as [|? ? Hc Hes]; subst.
    destruct c as [d|m' es']; cbn [sub_directories] in Hin.
    + auto.
    + apply in_app_or in Hin as [Hin|Hin]; [|auto].
      apply (Hc _ _ _) in Hin.
      eapply is_prefix_trans; [apply (is_prefix_app P [x])|exact Hin].
Qed.

Lemma dedup_incl : forall ps seen p, In p (dedup seen ps) -> In p ps.
Proof.
  induction ps as [|q ps IH]; intros seen p H; simpl in *; [assumption|].
  destruct (existsb (path_eqb q) seen).
  - right; eauto.
  - destruct H as [->|H]; [now left|right; eauto].
Qed.

Lemma select_prefix :
  forall sel P acc n p,
    In p (select sel P acc n) -> is_prefix P p = true.
Proof.
  induction sel as [|name dironly succ IH|pat dironly succ IH|succ IH];
    intros P acc n p Hin; simpl in Hin.
  - destruct Hin as [<-|[]]. apply is_prefix_refl.
  - destruct n as [d|m es]; [contradiction|].
    destruct (acc && can_search m); [|contradiction].
    destruct (find_entry name es) as [c|]; [|contradiction].
    destruct (dironly && negb (is_dir_node c)); [contradiction|].
    apply IH in Hin.
    eapply is_prefix_trans; [apply (is_prefix_app P [name])|exact Hin].
  - destruct n as [d|m es]; [contradiction|].
    destruct (acc && can_read m); [|contradiction].
    apply in_flat_map in Hin as [e [_ Hin]].
    destruct (dironly && negb (is_dir_node (snd e))); [contradiction|].
    destruct (Fnmatch.fnmatchcase (fst e) pat); [|contradiction].
    apply IH in Hin.
    eapply is_prefix_trans; [apply (is_prefix_app P [fst e])|exact Hin].
  - apply dedup_incl in Hin.
    apply in_flat_map in Hin as [s [Hs Hin]].
    apply iterate_directories_prefix in Hs.
    apply IH in Hin.
    eapply is_prefix_trans; eassumption.
Qed.

Lemma rglob_prefix :
  forall fs P pattern paths p,
    rglob fs P pattern = Ok paths -> In p paths -> is_prefix P p = true.
Proof.
  intros fs P pattern paths p H Hin.
  unfold rglob in H.
  destruct (parse_parts pattern) as [root parts].
  destruct root; [discriminate|].
  destruct (make_selector ("**" :: parts)) as [sel|]; [|discriminate].
  simpl in H.
  destruct (is_dir fs P) as [d|]; [|discriminate].
  simpl in H. destruct d.
  - destruct (resolve fs P) as [n|]; [|discriminate].
    simpl in H. injection H as <-.
    eapply select_prefix; eassumption.
  - injection H as <-. contradiction.
Qed.

(** *** The protection check and the scanner *)

Lemma pmatch_total :
  forall rel pattern,
    empty_pattern pattern = false -> exists b, pmatch rel pattern = Ok b.
Proof.
  intros rel pattern H. unfold pmatch, empty_pattern in *.
  destruct (parse_parts pattern) as [root parts]; simpl in H.
  rewrite H.
  destruct root; [now eexists|].
  destruct (Nat.ltb _ _); now eexists.
Qed.

Lemma any_match_false :
  forall rel patterns,
    any_match rel patterns = Ok false ->
    forall pattern, In pattern patterns -> pmatch rel pattern = Ok false.
Proof.
  induction patterns as [|q patterns IH]; intros H pattern Hin; [contradiction|].
  simpl in H.
  destruct (pmatch rel q) as [[|]|] eqn:Hq; simpl in H; try discriminate.
  destruct Hin as [<-|Hin]; auto.
Qed.

Lemma any_match_true :
  forall rel pre pattern post,
    Forall (fun q => empty_pattern q = false) pre ->
    pmatch rel pattern = Ok true ->
    any_match rel (pre ++ pattern :: post) = Ok true.
Proof.
  induction pre as [|q pre IH]; intros pattern post Hpre Hm; simpl.
  - now rewrite Hm.
  - inversion Hpre as [|? ? Hq Hpre']; subst.
    destruct (pmatch_total rel _ Hq) as [b ->]; simpl.
    destruct b; auto.
Qed.

Lemma insert_sorted_In :
  forall p ps q, In q (insert_sorted p ps) -> q = p \/ In q ps.
Proof.
  induction ps as [|r ps IH]; intros q H; simpl in H.
  - destruct H as [<-|[]]; now left.
  - destruct (path_compare p r).
    + now right.
    + destruct H as [<-|H]; [now left|now right].
    + destruct H as [<-|H]; [right; now left|].
      destruct (IH _ H); [now left|right; now right].
Qed.

Lemma sorted_set_In : forall ps q, In q (sorted_set ps) -> In q ps.
Proof.
  induction ps as [|p ps IH]; intros q H; simpl in *; [assumption|].
  apply insert_sorted_In in H as [->|H]; [now left|right; auto].
Qed.

Section Scanner.
Variable project_root : path.
Variable cfg : config.

Lemma keep_unprotected_sound :
  forall kind t paths found found',
    keep_unprotected project_root cfg kind t paths found = Ok found' ->
    forall p, In p found' ->
      In p found \/
      (In p paths /\ kind t p = Ok true /\
       is_protected project_root cfg p = Ok false).
Proof.
  induction paths as [|q paths IH]; intros found found' H p Hin; simpl in H.
  - injection H as <-. now left.
  - destruct (kind t q) as [[|]|] eqn:Hk; simpl in H; try discriminate.
    + destruct (is_protected project_root cfg q) as [[|]|] eqn:Hp;
        simpl in H; try discriminate.
      * destruct (IH _ _ H _ Hin) as [?|(?&?&?)]; [now left|].
        right; repeat split; auto. now right.
      * destruct (IH _ _ H _ Hin) as [Hf|(?&?&?)].
        -- apply in_app_or in Hf as [?|[<-|[]]]; [now left|].
           right; repeat split; auto. now left.
        -- right; repeat split; auto. now right.
    + destruct (IH _ _ H _ Hin) as [?|(?&?&?)]; [now left|].
      right; repeat split; auto. now right.
Qed.

Lemma find_loop_sound :
  forall t patterns found found',
    find_loop project_root cfg t patterns found = Ok found' ->
    forall p, In p found' ->
      In p found \/
      (is_protected project_root cfg p = Ok false /\
       exists pattern, In pattern patterns /\ selected_by project_root t pattern p).
Proof.
  induction patterns as [|pat patterns IH]; intros found found' H p Hin;
    simpl in H.
  - injection H as <-. now left.
  - destruct (endswith_slash pat) eqn:Hs.
    + destruct (rglob t project_root (rstrip_by is_slash pat))
        as [paths|] eqn:Hg; simpl in H; [|discriminate].
      destruct (keep_unprotected project_root cfg is_dir t paths found)
        as [found1|] eqn:Hk; simpl in H; [|discriminate].
      destruct (IH _ _ H _ Hin) as [Hf|[Hp [q [Hq Hsel]]]].
      * destruct (keep_unprotected_sound _ _ _ _ Hk _ Hf) as [?|(?&?&?)];
          [now left|].
        right; split; [assumption|].
        exists pat; split; [now left|].
        unfold selected_by. rewrite Hs. split; [now exists paths|assumption].
      * right; split; [assumption|]. exists q; split; [now right|assumption].
    + destruct (rglob t project_root pat) as [paths|] eqn:Hg; simpl in H;
        [|discriminate].
      destruct (keep_unprotected project_root cfg is_file t paths found)
        as [found1|] eqn:Hk; simpl in H; [|discriminate].
      destruct (IH _ _ H _ Hin) as [Hf|[Hp [q [Hq Hsel]]]].
      * destruct (keep_unprotected_sound _ _ _ _ Hk _ Hf) as [?|(?&?&?)];
          [now left|].
        right; split; [assumption|].
        exists pat; split; [now left|].
        unfold selected_by. rewrite Hs. split; [now exists paths|assumption].
      * right; split; [assumption|]. exists q; split; [now right|assumption].
Qed.

Lemma find_files_sound :
  forall t patterns files,
    find_files project_root cfg t patterns = Ok files ->
    forall p, In p files ->
      is_protected project_root cfg p = Ok false /\
      exists pattern, In pattern patterns /\ selected_by project_root t pattern p.
Proof.
  intros t patterns files H p Hin. unfold find_files in H.
  destruct (find_loop project_root cfg t patterns []) as [found|] eqn:Hl;
    simpl in H; [|discriminate].
  injection H as <-.
  apply sorted_set_In in Hin.
  destruct (find_loop_sound _ _ _ Hl _ Hin) as [[]|?]; assumption.
Qed.

Lemma find_files_present :
  forall t patterns files,
    find_files project_root cfg t patterns = Ok files ->
    forall p, In p files ->
      is_file t p = Ok true \/ is_dir t p = Ok true.
Proof.
  intros t patterns files H p Hin.
  destruct (find_files_sound _ _ H _ Hin) as [_ [pat [_ Hsel]]].
  unfold selected_by in Hsel.
  destruct (endswith_slash pat); destruct Hsel as [_ Hk]; auto.
Qed.

Lemma find_files_under_root :
  forall t patterns files,
    find_files project_root cfg t patterns = Ok files ->
    forall p, In p files -> is_prefix project_root p = true.
Proof.
  intros t patterns files H p Hin.
  destruct (find_files_sound _ _ H _ Hin) as [_ [pat [_ Hsel]]].
  unfold selected_by in Hsel.
  destruct (endswith_slash pat); destruct Hsel as [[paths [Hg Hp]] _];
    eapply rglob_prefix; eassumption.
Qed.

End Scanner.

(** C1, as the claim states it, fails: with an empty pattern listed before
    the matching one, [is_protected] raises [ValueError] instead of
    returning true. *)
Lemma C1_empty_pattern_raises :
  let cfg := Config [""; "*.md"] [] "cleanup_backups" true false in
  pmatch ["readme.md"] "*.md" = Ok true /\
  relative_to ["proj"; "readme.md"] ["proj"] = Ok ["readme.md"] /\
  is_protected ["proj"] cfg ["proj"; "readme.md"] = Raise ValueError.
Proof. repeat split. Qed.


(** C9, as the claim states it, fails: on a path outside the project root
    [is_protected] raises [ValueError]. *)
Lemma C9_outside_root_raises :
  is_prefix ["proj"] ["etc"; "passwd"] = false /\
  is_protected ["proj"] Examples.default_config ["etc"; "passwd"]
  = Raise ValueError.
Proof. split; reflexivity. Qed.


(** *** Steps that only print *)

Lemma only_printed_refl : forall w, only_printed w w.
Proof. now repeat split. Qed.

Lemma only_printed_trans :
  forall w1 w2 w3,
    only_printed w1 w2 -> only_printed w2 w3 -> only_printed w1 w3.
Proof.
  unfold only_printed. intros w1 w2 w3 (?&?&?&?) (?&?&?&?).
  repeat split; congruence.
Qed.

Ltac op_solve :=
  unfold only_printed in *; simpl in *; intuition congruence.

Ltac run :=
  unfold bindM, reading, changing, print, ret, raise, get_stats, set_stats
    in *;
  simpl in *.

Lemma show_items_only_printed :
  forall project_root files w,
    only_printed w (fst (show_items project_root files w)).
Proof.
  induction files as [|f files IH]; intros w; simpl.
  - apply only_printed_refl.
  - run.
    destruct (relative_to f project_root); simpl;
      [|apply only_printed_refl].
    destruct (get_file_size (fs w) f); simpl; [|apply only_printed_refl].
    match goal with
    | |- context [show_items _ files ?w1] =>
        specialize (IH w1);
        destruct (show_items project_root files w1) as [w2 [u|e]]
    end; simpl in *;
      op_solve.
Qed.

(** C2: in dry-run mode [clean_category] leaves the file system and the
    statistics as they were, whatever the category, the patterns and the
    other flags are: statistics that were all zero stay all zero, and every
    entry it reports is still on disk afterwards. *)
Theorem C2_dry_run_no_effect :
  forall project_root cfg clock category patterns backup interactive w,
    let out :=
      clean_category project_root cfg clock category patterns
        true backup interactive w in
    fs (fst out) = fs w /\
    st (fst out) = st w /\
    (st w = Stats 0 0 0 -> st (fst out) = Stats 0 0 0) /\
    (forall files size,
        snd out = Ok (files, size) ->
        forall p, In p files ->
          is_file (fs (fst out)) p = Ok true \/
          is_dir (fs (fst out)) p = Ok true).
Proof.
  intros project_root cfg clock category patterns backup interactive w out.
  assert (H : only_printed w (fst out) /\
              forall files size, snd out = Ok (files, size) ->
                find_files project_root cfg (fs w) patterns = Ok files).
  { subst out. unfold clean_category. run.
    destruct (find_files project_root cfg (fs w) patterns) as [files|] eqn:Hf;
      simpl; [|split; [apply only_printed_refl|discriminate]].
    destruct (sum_sizes (fs w) files) as [total|]; simpl;
      [|split; [apply only_printed_refl|discriminate]].
    destruct (nonempty files); simpl.
    - match goal with
      | |- context [show_items _ ?l ?w1] =>
          pose proof (show_items_only_printed project_root l w1) as Hs;
          destruct (show_items project_root l w1) as [w2 [u|e]]
      end; simpl in *.
      + destruct (Nat.ltb 10 (List.length files)); simpl.
        * split; [|intros ? ? [= <- <-]; reflexivity].
          op_solve.
        * split; [|intros ? ? [= <- <-]; reflexivity].
          op_solve.
      + split; [|discriminate].
        op_solve.
    - split; [now repeat split|intros ? ? [= <- <-]; reflexivity]. }
  destruct H as [(Hfs & Hst & _ & _) Hfound].
  repeat split; try assumption.
  - intros Hz. now rewrite Hst.
  - intros files size Hout p Hin. rewrite Hfs.
    eapply find_files_present; [apply (Hfound _ _ Hout)|assumption].
Qed.

Lemma C2_dry_run_no_effect_witness :
  let w := Examples.start Examples.tree [] in
  let out :=
    clean_category [] Examples.default_config Examples.ticking
      "python_compiled" ["*.pyc"; "*.pyo"] true true true w in
  fs (fst out) = Examples.tree /\
  st (fst out) = Stats 0 0 0 /\
  (is_file (fs (fst out)) ["a"; "x.pyc"] = Ok true \/
   is_dir (fs (fst out)) ["a"; "x.pyc"] = Ok true).
Proof.
  intros w out.
  destruct (C2_dry_run_no_effect [] Examples.default_config Examples.ticking
              "python_compiled" ["*.pyc"; "*.pyo"] true true w)
    as (H1 & H2 & H3 & H4).
  split; [exact H1|]. split; [apply H3; reflexivity|].
  apply (H4 [["a"; "x.pyc"]] 10); [reflexivity|now left].
Defined.

(** *** The size that [clean_category] returns *)

(** C4, as the claim states it, fails: when the user does not answer [y],
    the size in the returned pair is 0 and not the snapshot total. *)
Lemma C4_declined_returns_zero :
  let w := Examples.start Examples.tree ["n"] in
  find_files [] Examples.default_config (fs w) ["*.pyc"]
  = Ok [["a"; "x.pyc"]] /\
  sum_sizes (fs w) [["a"; "x.pyc"]] = Ok 10 /\
  snd (clean_category [] Examples.default_config Examples.ticking
         "python_compiled" ["*.pyc"] false false true w)
  = Ok ([["a"; "x.pyc"]], 0).
Proof. repeat split. Qed.

(** C4 (amended): the entries that [clean_category] returns are the
    result of the scan, and the size it returns with them is the
    pre-deletion snapshot total when nothing was found, in dry-run mode,
    and when the deletion goes ahead (non-interactive, or the answer is
    [y]); it is 0 when the run is interactive and the answer is anything
    else. *)
Theorem C4_returned_size :
  forall project_root cfg clock category patterns dry_run backup interactive
         w w' files size,
    clean_category project_root cfg clock category patterns
      dry_run backup interactive w = (w', Ok (files, size)) ->
    find_files project_root cfg (fs w) patterns = Ok files /\
    exists total_size,
      sum_sizes (fs w) files = Ok total_size /\
      size = if declined dry_run interactive files w then 0 else total_size.
Proof.
  intros project_root cfg clock category patterns dry_run backup interactive
         w w' files size H.
  unfold clean_category in H. run. unfold declined, answer.
  destruct (find_files project_root cfg (fs w) patterns) as [files0|] eqn:Hf;
    simpl in H; [|discriminate].
  destruct (sum_sizes (fs w) files0) as [total|] eqn:Ht;
    simpl in H; [|discriminate].
  destruct (nonempty files0) eqn:Hne; simpl in H.
  2:{ injection H as _ <- <-. split; [reflexivity|].
      exists total. rewrite Hne. now split. }
  match type of H with
  | context [show_items _ ?l ?w1] =>
      pose proof (show_items_only_printed project_root l w1) as Hs;
      destruct (show_items project_root l w1) as [w2 [u|e]]
  end; simpl in *; [|discriminate].
  assert (Hin2 : stdin w2 = stdin w) by op_solve. clear Hs.
  destruct (Nat.ltb 10 (List.length files0)); simpl in H;
    (destruct dry_run; simpl in H;
     [injection H as _ <- <-; split; [reflexivity|];
      exists total; rewrite Hne; now split|]);
    (destruct interactive; simpl in H;
     [|match type of H with
       | context [delete_all ?a1 ?a2 ?a3 ?a4 ?a5 ?a6] =>
           destruct (delete_all a1 a2 a3 a4 a5 a6) as [w4 [u'|e]]
       end; simpl in H; [|discriminate];
       injection H as _ <- <-; split; [reflexivity|];
       exists total; rewrite Hne; now split]);
    unfold input in H; simpl in H; rewrite Hin2 in H;
    (destruct (stdin w) as [|line rest]; simpl in H; [discriminate|]);
    (destruct (String.eqb (strip (lower line)) "s") eqn:Es; simpl in H;
     [injection H as _ <- <-; split; [reflexivity|];
      exists total; split; [assumption|];
      rewrite Hne; simpl;
      apply String.eqb_eq in Es; rewrite Es; reflexivity|]);
    (destruct (String.eqb (strip (lower line)) "y") eqn:Ey; simpl in H;
     [match type of H with
      | context [delete_all ?a1 ?a2 ?a3 ?a4 ?a5 ?a6] =>
          destruct (delete_all a1 a2 a3 a4 a5 a6) as [w4 [u'|e]]
      end; simpl in H; [|discriminate]|]);
    injection H as _ <- <-; (split; [reflexivity|]);
    exists total; (split; [assumption|]);
    rewrite Hne; simpl; rewrite Ey; reflexivity.
Qed.

Lemma C4_returned_size_witness :
  let w := Examples.start Examples.tree ["Y "] in
  find_files [] Examples.default_config (fs w) ["*.pyc"]
  = Ok [["a"; "x.pyc"]] /\
  exists total_size,
    sum_sizes (fs w) [["a"; "x.pyc"]] = Ok total_size /\
    10 = if declined false true [["a"; "x.pyc"]] w then 0 else total_size.
Proof.
  intros w.
  refine (@C4_returned_size [] Examples.default_config Examples.ticking
            "python_compiled" ["*.pyc"] false false true w
            _ [["a"; "x.pyc"]] 10 _).
  reflexivity.
Defined.

(** *** Unknown categories *)

Lemma lookup_None_mem :
  forall (V : Type) c (d : list (string * V)),
    lookup c d = None -> mem c (keys d) = false.
Proof.
  induction d as [|[k v] d IH]; intros H; simpl in *; [reflexivity|].
  destruct (String.eqb c k); [discriminate|]. auto.
Qed.

Lemma run_loop_skips_unknown :
  forall project_root cfg clock c,
    lookup c (cleanup_patterns cfg) = None ->
    forall pre post dry_run backup interactive n m w,
      run_loop project_root cfg clock (pre ++ c :: post)
        dry_run backup interactive n m w
      = run_loop project_root cfg clock (pre ++ post)
          dry_run backup interactive n m w.
Proof.
  intros project_root cfg clock c Hc.
  induction pre as [|x pre IH]; intros post dry_run backup interactive n m w;
    simpl.
  - now rewrite Hc.
  - destruct (lookup x (cleanup_patterns cfg)) as [patterns|]; [|apply IH].
    unfold bindM.
    destruct (clean_category project_root cfg clock x patterns
                dry_run backup interactive w) as [w1 [found|e]];
      [apply IH|reflexivity].
Qed.

(** C10: [run_cleanup] does not validate category names. A name that is
    not a key of [cleanup_patterns] is passed over: the run with it, at any
    place in the list, gives the same final state, the same printed totals
    and the same outcome as the run without it, and a run on that name
    alone ends normally with the file system and the statistics untouched.
    The refusal of unknown names is in [main]: there the names are printed
    and [SystemExit 1] is raised before [run_cleanup] starts, with nothing
    changed but the output. *)
Theorem C10_unknown_category_skipped :
  forall project_root cfg clock c,
    lookup c (cleanup_patterns cfg) = None ->
    (forall pre post dry_run backup interactive w,
        run_cleanup project_root cfg clock (pre ++ c :: post)
          dry_run backup interactive w
        = run_cleanup project_root cfg clock (pre ++ post)
            dry_run backup interactive w) /\
    (forall dry_run backup interactive w,
        exists w',
          run_cleanup project_root cfg clock [c] dry_run backup interactive w
          = (w', Ok tt) /\
          fs w' = fs w /\ st w' = st w) /\
    (forall config_path config_text a w,
        arg_save_config a = false ->
        arg_list a = false ->
        In c (arg_categories a) ->
        exists invalid w',
          main project_root cfg config_path config_text clock a w
          = (w', Raise (SystemExit 1)) /\
          In c invalid /\
          w' = fst (print (UnknownCategories invalid
                             (keys (cleanup_patterns cfg))) w)).
Proof.
  intros project_root cfg clock c Hc. split; [|split].
  - intros pre post dry_run backup interactive w.
    unfold run_cleanup, bindM.
    destruct (print (Banner project_root) w) as [w1 [u1|e1]]; [|reflexivity].
    destruct ((if dry_run then print DryRunMode else ret tt) w1)
      as [w2 [u2|e2]]; [|reflexivity].
    destruct ((if backup then print BackupMode else ret tt) w2)
      as [w3 [u3|e3]]; [|reflexivity].
    now rewrite (run_loop_skips_unknown project_root cfg clock c Hc).
  - intros dry_run backup interactive w.
    unfold run_cleanup. simpl. rewrite Hc.
    destruct dry_run, backup; run; eexists; repeat split.
  - intros config_path config_text a w Hsave Hlist Hin.
    assert (Hne : nonempty (arg_categories a) = true).
    { destruct (arg_categories a); [contradiction|reflexivity]. }
    assert (Hinv :
      In c (filter (fun c => negb (mem c (keys (cleanup_patterns cfg))))
              (arg_categories a))).
    { apply filter_In. split; [assumption|].
      now rewrite (lookup_None_mem _ _ Hc). }
    unfold main. rewrite Hsave, Hlist, Hne.
    destruct (filter _ (arg_categories a)) as [|x l] eqn:Hf; [contradiction|].
    simpl nonempty. cbv iota.
    exists (x :: l). eexists. split; [reflexivity|]. split; [assumption|].
    reflexivity.
Qed.

Lemma C10_unknown_category_skipped_witness :
  let w := Examples.start Examples.tree [] in
  run_cleanup [] Examples.default_config Examples.ticking
    (["logs"] ++ "bogus" :: ["build"]) false false false w
  = run_cleanup [] Examples.default_config Examples.ticking
      (["logs"] ++ ["build"]) false false false w.
Proof.
  intros w.
  apply (proj1 (C10_unknown_category_skipped [] Examples.default_config
                  Examples.ticking "bogus" eq_refl)).
Defined.

(** *** How patterns match *)

Lemma translate_fuel_literal :
  forall pat fuel,
    is_wildcard_pattern pat = false ->
    String.length pat <= fuel ->
    Fnmatch.translate_fuel fuel pat = literals pat.
Proof.
  induction pat as [|c pat IH]; intros fuel Hw Hlen.
  - destruct fuel; reflexivity.
  - destruct fuel as [|fuel]; [simpl in Hlen; lia|].
    unfold is_wildcard_pattern in Hw.
    change (contains_char "*" (String c pat))
      with (Ascii.eqb "*" c || contains_char "*" pat) in Hw.
    change (contains_char "?" (String c pat))
      with (Ascii.eqb "?" c || contains_char "?" pat) in Hw.
    change (contains_char "[" (String c pat))
      with (Ascii.eqb "[" c || contains_char "[" pat) in Hw.
    apply orb_false_iff in Hw as [Hw H3].
    apply orb_false_iff in Hw as [H1 H2].
    apply orb_false_iff in H1 as [H1 H1'].
    apply orb_false_iff in H2 as [H2 H2'].
    apply orb_false_iff in H3 as [H3 H3'].
    change (Fnmatch.translate_fuel (S fuel) (String c pat))
      with (if Ascii.eqb c "*" then
              Fnmatch.TStar :: Fnmatch.translate_fuel fuel pat
            else if Ascii.eqb c "?" then
              Fnmatch.TAny :: Fnmatch.translate_fuel fuel pat
            else if Ascii.eqb c "[" then
              match Fnmatch.split_bracket pat with
              | None =>
                  Fnmatch.TLit "[" :: Fnmatch.translate_fuel fuel pat
              | Some (neg, stuff, rest) =>
                  Fnmatch.TSet neg (Fnmatch.set_items stuff)
                  :: Fnmatch.translate_fuel fuel rest
              end
            else Fnmatch.TLit c :: Fnmatch.translate_fuel fuel pat).
    rewrite (Ascii.eqb_sym c "*"), H1, (Ascii.eqb_sym c "?"), H2,
      (Ascii.eqb_sym c "["), H3.
    change (literals (String c pat)) with (Fnmatch.TLit c :: literals pat).
    f_equal. apply IH; [|simpl in Hlen; lia].
    unfold is_wildcard_pattern. now rewrite H1', H2', H3'.
Qed.

Lemma match_literals :
  forall pat name,
    Fnmatch.match_toks (literals pat) name = true <-> name = pat.
Proof.
  induction pat as [|c pat IH]; intros name; simpl.
  - destruct name; split; congruence.
  - destruct name as [|d name]; [split; discriminate|].
    simpl. rewrite andb_true_iff, IH, Ascii.eqb_eq.
    split; [intros [-> ->]; reflexivity|intros [= -> ->]; now split].
Qed.

Lemma fnmatchcase_literal :
  forall name pat,
    is_wildcard_pattern pat = false ->
    (Fnmatch.fnmatchcase name pat = true <-> name = pat).
Proof.
  intros name pat Hw. unfold Fnmatch.fnmatchcase, Fnmatch.translate.
  rewrite translate_fuel_literal by auto.
  apply match_literals.
Qed.

Lemma Forall2_rev :
  forall (A B : Type) (R : A -> B -> Prop) l1 l2,
    Forall2 R l1 l2 -> Forall2 R (rev l1) (rev l2).
Proof.
  induction 1; simpl; [constructor|].
  apply Forall2_app; [assumption|now repeat constructor].
Qed.

Lemma zip_match_firstn :
  forall pats parts,
    List.length pats <= List.length parts ->
    (zip_match parts pats = true <->
     Forall2 matches (firstn (List.length pats) parts) pats).
Proof.
  induction pats as [|pat pats IH]; intros parts Hlen.
  - destruct parts; simpl; split; auto; constructor.
  - destruct parts as [|x parts]; [simpl in Hlen; lia|].
    simpl in Hlen. simpl.
    destruct (Fnmatch.fnmatchcase x pat) eqn:Hx.
    + rewrite IH by lia. split.
      * intros H. now constructor.
      * intros H. now inversion H.
    + split; [discriminate|].
      intros H. inversion H; subst. unfold matches in *. congruence.
Qed.

Lemma zip_match_suffix :
  forall pats parts,
    List.length pats <= List.length parts ->
    (zip_match (rev parts) (rev pats) = true <->
     exists pre suf, parts = pre ++ suf /\ Forall2 matches suf pats).
Proof.
  intros pats parts Hlen.
  rewrite zip_match_firstn by (rewrite !length_rev; assumption).
  rewrite length_rev. split.
  - intros H. apply Forall2_rev in H. rewrite rev_involutive in H.
    exists (rev (skipn (List.length pats) (rev parts))),
           (rev (firstn (List.length pats) (rev parts))).
    split; [|assumption].
    rewrite <- rev_app_distr, firstn_skipn. now rewrite rev_involutive.
  - intros (pre & suf & -> & H).
    rewrite rev_app_distr.
    pose proof (Forall2_length H) as Hl.
    rewrite <- Hl, <- (length_rev suf), firstn_app, Nat.sub_diag.
    rewrite firstn_all, firstn_O, app_nil_r.
    now apply Forall2_rev.
Qed.

Lemma pmatch_from_the_right :
  forall rel pattern,
    pmatch rel pattern = Ok true <->
    fst (parse_parts pattern) = false /\
    snd (parse_parts pattern) <> [] /\
    exists pre suf,
      rel = pre ++ suf /\ Forall2 matches suf (snd (parse_parts pattern)).
Proof.
  intros rel pattern. unfold pmatch.
  destruct (parse_parts pattern) as [root pats]. simpl.
  destruct root; simpl.
  { destruct pats; simpl; split; try discriminate; intros [? _]; discriminate. }
  destruct pats as [|pat pats]; simpl.
  { split; [discriminate|]. intros (_ & H & _). congruence. }
  destruct (Nat.ltb (List.length rel) (S (List.length pats))) eqn:Hlt.
  - split; [discriminate|].
    intros (_ & _ & pre & suf & -> & H).
    apply Forall2_length in H. apply Nat.ltb_lt in Hlt.
    rewrite length_app in Hlt. simpl in H. lia.
  - apply Nat.ltb_ge in Hlt.
    change (rev pats ++ [pat]) with (rev (pat :: pats)).
    split.
    + intros [= H].
      apply (zip_match_suffix (pat :: pats) rel) in H; [|assumption].
      split; [reflexivity|]. split; [discriminate|assumption].
    + intros (_ & _ & H). f_equal.
      now apply (zip_match_suffix (pat :: pats) rel).
Qed.

Lemma make_selector_sound :
  forall parts sel,
    make_selector parts = Ok sel ->
    ~ In "**" parts ->
    forall P acc n p,
      In p (select sel P acc n) ->
      exists suf, p = P ++ suf /\ Forall2 matches suf parts.
Proof.
  induction parts as [|pat parts IH]; intros sel Hsel Hno P acc n p Hin.
  - injection Hsel as <-. destruct Hin as [<-|[]].
    exists []. rewrite app_nil_r. split; [reflexivity|constructor].
  - simpl in Hsel.
    destruct (String.eqb pat "**") eqn:Hpat.
    { apply String.eqb_eq in Hpat. exfalso. apply Hno. now left. }
    destruct (contains_2stars pat); [discriminate|].
    destruct (make_selector parts) as [succ|] eqn:Hsucc; [|discriminate].
    simpl in Hsel.
    assert (Hno' : ~ In "**" parts) by (intros ?; apply Hno; now right).
    destruct (is_wildcard_pattern pat) eqn:Hw; injection Hsel as <-;
      simpl in Hin;
      (destruct n as [d|m es]; [contradiction|]).
    + destruct (acc && can_read m); [|contradiction].
      apply in_flat_map in Hin as [e [_ Hin]].
      destruct (nonempty parts && negb (is_dir_node (snd e)));
        [contradiction|].
      destruct (Fnmatch.fnmatchcase (fst e) pat) eqn:Hm; [|contradiction].
      destruct (IH _ eq_refl Hno' _ _ _ _ Hin) as (suf & -> & Hsuf).
      exists (fst e :: suf). rewrite <- app_assoc. split; [reflexivity|].
      now constructor.
    + destruct (acc && can_search m); [|contradiction].
      destruct (find_entry pat es) as [c|]; [|contradiction].
      destruct (nonempty parts && negb (is_dir_node c)); [contradiction|].
      destruct (IH _ eq_refl Hno' _ _ _ _ Hin) as (suf & -> & Hsuf).
      exists (pat :: suf). rewrite <- app_assoc. split; [reflexivity|].
      constructor; [|assumption].
      now apply fnmatchcase_literal.
Qed.

Lemma rglob_from_the_right :
  forall t root pattern paths p,
    ~ In "**" (snd (parse_parts pattern)) ->
    rglob t root pattern = Ok paths ->
    In p paths ->
    exists pre suf,
      p = root ++ pre ++ suf /\
      Forall2 matches suf (snd (parse_parts pattern)).
Proof.
  intros t root pattern paths p Hno H Hin. unfold rglob in H.
  destruct (parse_parts pattern) as [r parts]. simpl in Hno.
  destruct r; [discriminate|].
  simpl in H.
  destruct (make_selector parts) as [succ|] eqn:Hsucc; [|discriminate].
  simpl in H.
  destruct (is_dir t root) as [[|]|]; simpl in H; try discriminate.
  2:{ injection H as <-. contradiction. }
  destruct (resolve t root) as [n|]; [|discriminate].
  simpl in H. injection H as <-.
  apply dedup_incl in Hin.
  apply in_flat_map in Hin as [s [Hs Hin]].
  apply iterate_directories_prefix in Hs.
  apply is_prefix_split in Hs as [pre Hpre].
  destruct (make_selector_sound _ Hsucc Hno _ _ _ _ Hin) as (suf & -> & Hsuf).
  exists pre, suf. rewrite Hpre, <- app_assoc. now split.
Qed.

(** C5, as the claim states it, fails. A pattern need not cover the whole
    relative path: ["*.md"] protects [docs/readme.md], and the category
    pattern ["*.pyc"] selects [a/x.pyc]. And in the protection check ["**"]
    does not cross a boundary: ["docs/**/*"] does not match
    [docs/a/b/c]. *)
Lemma C5_not_anchored :
  pmatch ["docs"; "readme.md"] "*.md" = Ok true /\
  anchored_match ["*.md"] ["docs"; "readme.md"] = false /\
  rglob Examples.tree [] "*.pyc" = Ok [["a"; "x.pyc"]] /\
  anchored_match ["*.pyc"] ["a"; "x.pyc"] = false /\
  pmatch ["docs"; "a"; "b"; "c"] "docs/**/*" = Ok false /\
  anchored_match ["docs"; "**"; "*"] ["docs"; "a"; "b"; "c"] = true.
Proof. repeat split. Qed.


(** *** Only [OSError]s come out of the file system *)

Lemma os_only_Ok : forall (A : Type) (a : A), os_only (Ok a).
Proof. intros A a e H. discriminate. Qed.

Lemma os_only_Raise : forall (A : Type) k, os_only (@Raise A (OSError k)).
Proof. intros A k e [= <-]. reflexivity. Qed.

Lemma os_only_bind :
  forall (A B : Type) (r : result A) (k : A -> result B),
    os_only r -> (forall a, os_only (k a)) -> os_only (bind r k).
Proof.
  intros A B [a|e] k Hr Hk; simpl; [apply Hk|].
  intros e' [= <-]. now apply Hr.
Qed.

Lemma os_only_retype :
  forall (A B : Type) e, os_only (@Raise A e) -> os_only (@Raise B e).
Proof. intros A B e H e' [= <-]. now apply H. Qed.

Create HintDb fsdb.
#[local] Hint Resolve os_only_Ok os_only_Raise : fsdb.

Lemma resolve_os_only : forall p t, os_only (resolve t p).
Proof.
  induction p as [|x p IH]; intros t; simpl; auto with fsdb.
  destruct t as [d|m es]; auto with fsdb.
  destruct (can_search m); auto with fsdb.
  destruct (find_entry x es); auto with fsdb.
Qed.

Lemma test_path_os_only :
  forall test t p, os_only (test_path test t p).
Proof.
  intros test t p. unfold test_path.
  pose proof (resolve_os_only p t) as H.
  destruct (resolve t p) as [n|e] eqn:E; auto with fsdb.
  destruct (ignore_error e); auto with fsdb.
  intros e' [= <-]. now apply H.
Qed.

Lemma st_size_os_only : forall t p, os_only (st_size t p).
Proof.
  intros t p. unfold st_size.
  apply os_only_bind; [apply resolve_os_only|].
  intros [d|m es]; auto with fsdb.
Qed.

Lemma alter_cons :
  forall m es x p f,
    alter (Dir m es) (x :: p) f =
    if can_search m then
      match p with
      | [] =>
          let '(o, r) := f m (find_entry x es) in
          (Dir m (put_entry x o es), r)
      | _ :: _ =>
          match find_entry x es with
          | Some c =>
              let '(c', r) := alter c p f in
              (Dir m (set_entry x c' es), r)
          | None => (Dir m es, Raise (OSError ENOENT))
          end
      end
    else (Dir m es, Raise (OSError EACCES)).
Proof. reflexivity. Qed.

Lemma alter_os_only :
  forall f, op_os_only f -> forall p t, os_only (snd (alter t p f)).
Proof.
  intros f Hf. induction p as [|x p IH]; intros t; [simpl; auto with fsdb|].
  destruct t as [d|m es]; [simpl; auto with fsdb|].
  rewrite alter_cons.
  destruct (can_search m); [|simpl; auto with fsdb].
  destruct p as [|y p].
  - specialize (Hf m (find_entry x es)).
    destruct (f m (find_entry x es)) as [o r]. exact Hf.
  - destruct (find_entry x es) as [c|]; [|simpl; auto with fsdb].
    specialize (IH c). destruct (alter c (y :: p) f) as [c' r]. exact IH.
Qed.

Lemma rm_contents_Dir :
  forall m es,
    rm_contents (Dir m es) =
    if can_read m then
      let '(rest, r) := rm_entries rm_contents m es in (Dir m rest, r)
    else (Dir m es, Raise (OSError EACCES)).
Proof. reflexivity. Qed.

Lemma rm_entries_os_only :
  forall rm m es,
    Forall (fun e => os_only (snd (rm (snd e)))) es ->
    os_only (snd (rm_entries rm m es)).
Proof.
  intros rm m. induction es as [|[x c] es IH]; intros H; simpl;
    auto with fsdb.
  inversion H as [|? ? Hc Hes]; subst. simpl in Hc.
  destruct c as [d|m' es'].
  - destruct (can_search m && can_write m); simpl; auto with fsdb.
  - destruct (can_search m); simpl; auto with fsdb.
    destruct (rm (Dir m' es')) as [c' [u|e]]; simpl in *.
    + destruct (can_write m); simpl; auto with fsdb.
    + exact Hc.
Qed.

Lemma rm_contents_os_only : forall n, os_only (snd (rm_contents n)).
Proof.
  induction n as [d|m es IH] using node_rect_all; [simpl; auto with fsdb|].
  rewrite rm_contents_Dir.
  destruct (can_read m); [|simpl; auto with fsdb].
  pose proof (rm_entries_os_only rm_contents m IH) as H.
  destruct (rm_entries rm_contents m es) as [rest r]. exact H.
Qed.

Lemma unlink_op_os_only : op_os_only unlink_op.
Proof.
  intros m [[d|m' es]|]; simpl; auto with fsdb.
  destruct (can_write m); simpl; auto with fsdb.
Qed.

Lemma rmtree_op_os_only : op_os_only rmtree_op.
Proof.
  intros m [c|]; simpl; auto with fsdb.
  pose proof (rm_contents_os_only c) as H.
  destruct (rm_contents c) as [c' [u|e]]; simpl in *; auto.
  destruct (can_write m); simpl; auto with fsdb.
Qed.

Lemma mkdir_op_os_only : op_os_only mkdir_op.
Proof.
  intros m [c|]; simpl; auto with fsdb.
  destruct (can_write m); simpl; auto with fsdb.
Qed.

Lemma write_op_os_only : forall data, op_os_only (write_op data).
Proof.
  intros data m [[d|m' es]|]; simpl; auto with fsdb.
  destruct (can_write m); simpl; auto with fsdb.
Qed.

Lemma unlink_os_only : forall t p, os_only (snd (unlink t p)).
Proof. intros. apply alter_os_only, unlink_op_os_only. Qed.

Lemma rmtree_os_only : forall t p, os_only (snd (rmtree t p)).
Proof.
  intros t [|x p]; simpl.
  - pose proof (rm_contents_os_only t) as H.
    destruct (rm_contents t) as [t' [u|e]]; simpl in *; auto with fsdb.
  - apply (alter_os_only rmtree_op_os_only (x :: p)).
Qed.

Lemma os_mkdir_os_only : forall t p, os_only (snd (os_mkdir t p)).
Proof.
  intros t [|x p]; simpl; auto with fsdb.
  apply (alter_os_only mkdir_op_os_only (x :: p)).
Qed.

Lemma unless_is_dir_os_only :
  forall t p k, os_only (unless_is_dir t p (OSError k)).
Proof.
  intros t p k. unfold unless_is_dir.
  pose proof (test_path_os_only is_dir_node t p) as H.
  change (test_path is_dir_node t p) with (is_dir t p) in H.
  destruct (is_dir t p) as [[|]|e]; auto with fsdb.
  intros e' [= <-]. now apply H.
Qed.

Lemma mkdir_exist_ok_os_only :
  forall t p, os_only (snd (mkdir_exist_ok t p)).
Proof.
  intros t p. unfold mkdir_exist_ok.
  pose proof (os_mkdir_os_only t p) as H.
  destruct (os_mkdir t p) as [t' [u|e]]; simpl in *; auto with fsdb.
  specialize (H e eq_refl).
  destruct e as [k| | | | |]; try discriminate.
  destruct k; simpl; auto using unless_is_dir_os_only with fsdb.
Qed.

Lemma mkdir_parents_rev_os_only :
  forall rp t, os_only (snd (mkdir_parents_rev t rp)).
Proof.
  induction rp as [|x rp IH]; intros t;
    cbn [mkdir_parents_rev];
    match goal with
    | |- context [os_mkdir t ?p] =>
        pose proof (os_mkdir_os_only t p) as H;
        destruct (os_mkdir t p) as [t' [u|e]]
    end; simpl in H |- *; auto with fsdb;
    specialize (H e eq_refl);
    (destruct e as [k| | | | |]; try discriminate);
    destruct k; simpl; auto using unless_is_dir_os_only with fsdb.
  specialize (IH t').
  destruct (mkdir_parents_rev t' rp) as [t1 [u|e]]; simpl in *; auto.
  apply mkdir_exist_ok_os_only.
Qed.

Lemma mkdir_parents_os_only :
  forall t p, os_only (snd (mkdir_parents t p)).
Proof. intros. apply mkdir_parents_rev_os_only. Qed.

Lemma copy2_os_only : forall t src dst, os_only (snd (copy2 t src dst)).
Proof.
  intros t src dst. unfold copy2.
  pose proof (resolve_os_only src t) as H.
  destruct (resolve t src) as [[data|m es]|e]; simpl; auto with fsdb.
  - destruct (path_eqb src _); simpl; auto with fsdb.
    apply alter_os_only, write_op_os_only.
  - intros e' [= <-]. now apply H.
Qed.

Lemma copytree_node_os_only :
  forall n src t dst, os_only (snd (copytree_node n src t dst)).
Proof.
  intros [d|m es] src t dst; simpl; auto with fsdb.
  destruct (can_read m); simpl; auto with fsdb.
  pose proof (mkdir_parents_os_only t dst) as H.
  destruct (mkdir_parents t dst) as [t1 [u|e]]; simpl in *; auto.
  match goal with
  | |- context [let '(a, b) := ?g in _] => destruct g as [t2 [|]]
  end; simpl; auto with fsdb.
Qed.

Lemma copytree_os_only :
  forall t src dst,
    is_prefix src dst = false -> os_only (snd (copytree t src dst)).
Proof.
  intros t src dst Hsd. unfold copytree.
  pose proof (resolve_os_only src t) as H.
  destruct (resolve t src) as [n|e]; simpl.
  - rewrite Hsd. apply copytree_node_os_only.
  - intros e' [= <-]. now apply H.
Qed.

(** *** Removing an entry *)

Lemma find_entry_remove :
  forall x es, find_entry x (remove_entry x es) = None.
Proof.
  induction es as [|[y n] es IH]; simpl; [reflexivity|].
  destruct (String.eqb x y) eqn:E; [assumption|].
  simpl. now rewrite E.
Qed.

Lemma find_entry_set :
  forall x n es, find_entry x (set_entry x n es) = Some n.
Proof.
  induction es as [|[y n'] es IH]; simpl.
  - now rewrite String.eqb_refl.
  - destruct (String.eqb x y) eqn:E; simpl; now rewrite E.
Qed.

Lemma alter_removed :
  forall f, removing f ->
    forall p t t',
      alter t p f = (t', Ok tt) ->
      resolve t' p = Raise (OSError ENOENT).
Proof.
  intros f Hf. induction p as [|x p IH]; intros t t' H; [discriminate|].
  destruct t as [d|m es]; [discriminate|].
  rewrite alter_cons in H.
  destruct (can_search m) eqn:Hs; [|discriminate].
  destruct p as [|y p].
  - destruct (f m (find_entry x es)) as [o r] eqn:Ef.
    injection H as <- ->.
    rewrite (Hf _ _ _ Ef). simpl. now rewrite Hs, find_entry_remove.
  - destruct (find_entry x es) as [c|]; [|discriminate].
    destruct (alter c (y :: p) f) as [c' r] eqn:Ec.
    injection H as <- ->.
    change (resolve (Dir m (set_entry x c' es)) (x :: y :: p))
      with (if can_search m then
              match find_entry x (set_entry x c' es) with
              | Some c => resolve c (y :: p)
              | None => Raise (OSError ENOENT)
              end
            else Raise (OSError EACCES)).
    rewrite Hs, find_entry_set. eauto.
Qed.

Lemma unlink_op_removing : removing unlink_op.
Proof.
  intros m [[d|m' es]|] o'; simpl; try discriminate.
  destruct (can_write m); [|discriminate]. now intros [= <-].
Qed.

Lemma rmtree_op_removing : removing rmtree_op.
Proof.
  intros m [c|] o'; simpl; try discriminate.
  destruct (rm_contents c) as [c' [[]|e]]; try discriminate.
  destruct (can_write m); [|discriminate]. now intros [= <-].
Qed.

Lemma rmtree_removed :
  forall t p t',
    rmtree t p = (t', Ok tt) -> resolve t' p = Raise (OSError ENOENT).
Proof.
  intros t [|x p] t' H; simpl in H.
  - destruct (rm_contents t) as [t1 [u|e]]; discriminate.
  - eapply alter_removed; [apply rmtree_op_removing|exact H].
Qed.

(** *** One call of [delete_path] *)

Lemma delete_path_after_backup :
  forall project_root cfg clock p backup w,
    delete_path project_root cfg clock p backup w =
    let '(w1, r) := backup_step project_root cfg clock p backup w in
    match r with
    | Ok _ => delete_path project_root cfg clock p false w1
    | Raise e => (w1, Raise e)
    end.
Proof.
  intros. unfold delete_path, backup_step, bindM at 1.
  destruct backup; [|reflexivity].
  match goal with
  | |- context [bindM (now clock) ?k w] => destruct (bindM (now clock) k w) as [w1 [u|e]]
  end; reflexivity.
Qed.

Lemma backup_file_frame :
  forall project_root p bdir w,
    exists t',
      fst (backup_file project_root p bdir w) = with_fs w t' /\
      (is_prefix project_root p = true ->
       holds_own_backup project_root p bdir = false ->
       os_only (snd (backup_file project_root p bdir w))).
Proof.
  intros project_root p bdir w. unfold backup_file, holds_own_backup. run.
  pose proof (mkdir_parents_os_only (fs w) bdir) as H1.
  destruct (mkdir_parents (fs w) bdir) as [t1 [u1|e1]]; simpl in *;
    [|eexists; split; [reflexivity|auto]].
  unfold relative_to.
  destruct (is_prefix project_root p) eqn:Hp; simpl;
    [|eexists; split; [reflexivity|discriminate]].
  match goal with
  | |- context [mkdir_parents t1 ?q] =>
      pose proof (mkdir_parents_os_only t1 q) as H2;
      destruct (mkdir_parents t1 q) as [t2 [u2|e2]]
  end; simpl in *; [|eexists; split; [reflexivity|auto]].
  pose proof (test_path_os_only (fun n => negb (is_dir_node n)) t2 p) as H3.
  change (test_path (fun n => negb (is_dir_node n)) t2 p)
    with (is_file t2 p) in H3.
  destruct (is_file t2 p) as [[|]|e3]; simpl in *;
    [| |eexists; split; [reflexivity|eauto using os_only_retype]].
  - match goal with
    | |- context [copy2 t2 p ?q] =>
        pose proof (copy2_os_only t2 p q) as H4;
        destruct (copy2 t2 p q) as [t3 r3]
    end; simpl in *. eexists; split; [reflexivity|auto].
  - pose proof (test_path_os_only is_dir_node t2 p) as H5.
    change (test_path is_dir_node t2 p) with (is_dir t2 p) in H5.
    destruct (is_dir t2 p) as [[|]|e5]; simpl in *;
      [| |eexists; split; [reflexivity|eauto using os_only_retype]].
    + match goal with
      | |- context [copytree t2 p ?q] =>
          pose proof (copytree_os_only t2 p q) as H4;
          destruct (copytree t2 p q) as [t3 r3]
      end; simpl in *. eexists; split; [reflexivity|auto].
    + eexists; split; [reflexivity|auto with fsdb].
Qed.

Lemma backup_step_frame :
  forall project_root cfg clock p backup w,
    let out := backup_step project_root cfg clock p backup w in
    st (fst out) = st w /\ stdin (fst out) = stdin w /\
    stdout (fst out) = stdout w /\
    (is_prefix project_root p = true ->
     (backup = true ->
      holds_own_backup project_root p
        (backup_root project_root cfg clock w) = false) ->
     os_only (snd out)).
Proof.
  intros project_root cfg clock p backup w. unfold backup_step, backup_root.
  destruct backup; [|simpl; repeat split; auto with fsdb].
  unfold bindM, now.
  match goal with
  | |- context [backup_file project_root p ?b ?w1] =>
      destruct (backup_file_frame project_root p b w1) as (t' & Hw & Hr);
      destruct (backup_file project_root p b w1) as [w2 r2]
  end; simpl in *. subst w2.
  destruct r2; simpl; repeat split; auto.
Qed.

Lemma rglob_star :
  forall t p,
    rglob t p "*" =
    (d <- is_dir t p ;;
     if d then n <- resolve t p ;; Ok (select star_selector p true n)
     else Ok []).
Proof. reflexivity. Qed.

Lemma rglob_star_os_only : forall t p, os_only (rglob t p "*").
Proof.
  intros t p. rewrite rglob_star.
  apply os_only_bind; [apply test_path_os_only|].
  intros [|]; auto with fsdb.
  apply os_only_bind; [apply resolve_os_only|auto with fsdb].
Qed.

Lemma size_loop_os_only :
  forall t items total e,
    snd (size_loop t items total) = Some e -> is_OSError e = true.
Proof.
  induction items as [|item items IH]; intros total e H; simpl in H;
    [discriminate|].
  pose proof (test_path_os_only (fun n => negb (is_dir_node n)) t item) as H1.
  change (test_path (fun n => negb (is_dir_node n)) t item)
    with (is_file t item) in H1.
  destruct (is_file t item) as [[|]|e1]; simpl in H.
  - pose proof (st_size_os_only t item) as H2.
    destruct (st_size t item) as [n|e2]; simpl in H; [eauto|].
    injection H as <-. now apply H2.
  - eauto.
  - injection H as <-. now apply H1.
Qed.

Lemma get_file_size_os_only : forall t p, os_only (get_file_size t p).
Proof.
  intros t p. unfold get_file_size.
  apply os_only_bind; [apply test_path_os_only|].
  intros [|]; [apply st_size_os_only|].
  apply os_only_bind; [apply test_path_os_only|].
  intros [|]; auto with fsdb.
  pose proof (rglob_star_os_only t p) as H.
  destruct (rglob t p "*") as [items|e].
  - pose proof (size_loop_os_only t items 0) as H1.
    destruct (size_loop t items 0) as [total [e|]]; simpl in *;
      auto with fsdb.
    rewrite (H1 e eq_refl). auto with fsdb.
  - rewrite (H e eq_refl). auto with fsdb.
Qed.

Lemma delete_path_plain_outcome :
  forall project_root cfg clock p w w' r,
    delete_path project_root cfg clock p false w = (w', r) ->
    match r with
    | Raise e => is_OSError e = true /\ st w' = st w
    | Ok _ => counted_once (st w) w' p
    end /\
    ticks w' = ticks w /\ stdin w' = stdin w /\ stdout w' = stdout w.
Proof.
  intros project_root cfg clock p w w' r H.
  unfold delete_path in H. run.
  pose proof (get_file_size_os_only (fs w) p) as Hsize.
  destruct (get_file_size (fs w) p) as [size|e]; simpl in H.
  2:{ injection H as <- <-. auto. }
  pose proof (test_path_os_only (fun n => negb (is_dir_node n)) (fs w) p)
    as Hfile.
  change (test_path (fun n => negb (is_dir_node n)) (fs w) p)
    with (is_file (fs w) p) in Hfile.
  destruct (is_file (fs w) p) as [[|]|e] eqn:Ef; simpl in H.
  3:{ injection H as <- <-. auto. }
  - pose proof (unlink_os_only (fs w) p) as Hu.
    destruct (unlink (fs w) p) as [t' [[]|e]] eqn:Eu; simpl in H;
      injection H as <- <-; simpl; repeat split; auto.
    left. simpl. repeat split; try lia.
    eapply alter_removed; [apply unlink_op_removing|exact Eu].
  - pose proof (test_path_os_only is_dir_node (fs w) p) as Hdir.
    change (test_path is_dir_node (fs w) p) with (is_dir (fs w) p) in Hdir.
    destruct (is_dir (fs w) p) as [[|]|e] eqn:Ed; simpl in H.
    3:{ injection H as <- <-. auto. }
    + pose proof (rmtree_os_only (fs w) p) as Hr.
      destruct (rmtree (fs w) p) as [t' [[]|e]] eqn:Er; simpl in H;
        injection H as <- <-; simpl; repeat split; auto.
      right; left. simpl. repeat split; try lia.
      eapply rmtree_removed; exact Er.
    + injection H as <- <-. simpl. repeat split; auto.
      right; right. simpl. auto.
Qed.



(** *** The deletion loop *)









(** *** What a change at one path leaves alone *)

Lemma find_entry_set_other :
  forall x y n es,
    String.eqb y x = false ->
    find_entry y (set_entry x n es) = find_entry y es.
Proof.
  induction es as [|[z n'] es IH]; intros H; simpl.
  - now rewrite H.
  - destruct (String.eqb x z) eqn:E; simpl.
    + apply String.eqb_eq in E; subst. now rewrite H.
    + now rewrite IH.
Qed.

Lemma find_entry_remove_other :
  forall x y es,
    String.eqb y x = false ->
    find_entry y (remove_entry x es) = find_entry y es.
Proof.
  induction es as [|[z n'] es IH]; intros H; simpl; [reflexivity|].
  destruct (String.eqb x z) eqn:E; simpl.
  - apply String.eqb_eq in E; subst. rewrite H. auto.
  - now rewrite IH.
Qed.

Lemma find_entry_put_other :
  forall x y o es,
    String.eqb y x = false ->
    find_entry y (put_entry x o es) = find_entry y es.
Proof.
  intros x y [n|] es H; simpl;
    [now apply find_entry_set_other|now apply find_entry_remove_other].
Qed.

Lemma resolve_Dir :
  forall m es x p,
    resolve (Dir m es) (x :: p) =
    if can_search m then
      match find_entry x es with
      | Some c => resolve c p
      | None => Raise (OSError ENOENT)
      end
    else Raise (OSError EACCES).
Proof. reflexivity. Qed.

Lemma alter_frame :
  forall f q t p,
    unrelated p q = true ->
    resolve (fst (alter t q f)) p = resolve t p.
Proof.
  intros f. induction q as [|x q IH]; intros t p H.
  { unfold unrelated in H. simpl in H.
    rewrite andb_false_r in H. discriminate. }
  destruct p as [|y p]; [discriminate|].
  destruct t as [d|m es]; [reflexivity|].
  rewrite alter_cons.
  destruct (can_search m) eqn:Hs; [|reflexivity].
  unfold unrelated in H. simpl in H.
  destruct (String.eqb y x) eqn:Eyx.
  - apply String.eqb_eq in Eyx; subst y.
    rewrite String.eqb_refl in H. simpl in H.
    destruct q as [|z q].
    { destruct p; simpl in H; rewrite ?andb_false_r in H; discriminate. }
    destruct (find_entry x es) as [c|] eqn:Ec; [|reflexivity].
    specialize (IH c p H).
    destruct (alter c (z :: q) f) as [c' r]. simpl in IH |- *.
    now rewrite Hs, find_entry_set, Ec.
  - assert (Hfind : forall o,
              find_entry y (put_entry x o es) = find_entry y es)
      by (intros; now apply find_entry_put_other).
    destruct q as [|z q].
    + destruct (f m (find_entry x es)) as [o r]. simpl.
      now rewrite Hs, Hfind.
    + destruct (find_entry x es) as [c|]; [|reflexivity].
      destruct (alter c (z :: q) f) as [c' r]. simpl.
      pose proof (Hfind (Some c')) as Hc'. simpl in Hc'.
      now rewrite Hs, Hc'.
Qed.

Lemma rmtree_frame :
  forall q t p,
    unrelated p q = true ->
    resolve (fst (rmtree t q)) p = resolve t p.
Proof.
  intros [|x q] t p H.
  - unfold unrelated in H. simpl in H.
    rewrite andb_false_r in H. discriminate.
  - apply (alter_frame rmtree_op (x :: q) t p H).
Qed.

Lemma resolve_app :
  forall p r t,
    resolve t (p ++ r) = (n <- resolve t p ;; resolve n r).
Proof.
  induction p as [|x p IH]; intros r t; [reflexivity|].
  destruct t as [d|m es]; [reflexivity|].
  rewrite <- app_comm_cons, !resolve_Dir.
  destruct (can_search m); [|reflexivity].
  destruct (find_entry x es); [apply IH|reflexivity].
Qed.

Lemma resolve_below :
  forall t t' p q,
    resolve t' p = resolve t p ->
    is_prefix p q = true ->
    resolve t' q = resolve t q.
Proof.
  intros t t' p q H Hq.
  apply is_prefix_split in Hq as [r ->].
  now rewrite !resolve_app, H.
Qed.

Lemma size_loop_ext :
  forall t t' items total,
    (forall item, In item items -> resolve t' item = resolve t item) ->
    size_loop t' items total = size_loop t items total.
Proof.
  induction items as [|item items IH]; intros total H; [reflexivity|].
  assert (Hitems : forall n, size_loop t' items n = size_loop t items n)
    by (intros; apply IH; intros; apply H; now right).
  simpl. unfold is_file, st_size, test_path.
  rewrite (H item (or_introl eq_refl)).
  destruct (resolve t item) as [[d|m es]|e]; simpl; rewrite ?Hitems;
    try reflexivity.
Qed.

Lemma get_file_size_frame :
  forall t t' p,
    resolve t' p = resolve t p ->
    get_file_size t' p = get_file_size t p.
Proof.
  intros t t' p H. unfold get_file_size.
  rewrite !rglob_star.
  unfold is_file, is_dir, st_size, test_path. rewrite H.
  destruct (resolve t p) as [[d|m es]|e] eqn:E; try reflexivity;
    [|destruct (ignore_error e); reflexivity].
  cbn [bind negb is_dir_node].
  rewrite (@size_loop_ext t t'); [reflexivity|].
  rewrite <- E in H.
  intros item Hin. apply (@resolve_below t t' p item H).
  eapply select_prefix. exact Hin.
Qed.

Lemma delete_path_plain_frame :
  forall project_root cfg clock p w w' r g,
    delete_path project_root cfg clock p false w = (w', r) ->
    unrelated g p = true ->
    resolve (fs w') g = resolve (fs w) g.
Proof.
  intros project_root cfg clock p w w' r g H Hg.
  unfold delete_path in H. run.
  destruct (get_file_size (fs w) p) as [size|e]; simpl in H;
    [|now injection H as <- <-].
  destruct (is_file (fs w) p) as [[|]|e]; simpl in H;
    [| |now injection H as <- <-].
  - pose proof (alter_frame unlink_op p (fs w) g Hg) as Hf.
    fold (unlink (fs w) p) in Hf.
    destruct (unlink (fs w) p) as [t' [[]|e]]; simpl in H, Hf;
      now injection H as <- <-.
  - destruct (is_dir (fs w) p) as [[|]|e]; simpl in H;
      [| |now injection H as <- <-]; [|now injection H as <- <-].
    pose proof (rmtree_frame p (fs w) g Hg) as Hf.
    destruct (rmtree (fs w) p) as [t' [[]|e]]; simpl in H, Hf;
      now injection H as <- <-.
Qed.

(** *** Bytes freed and the reported size *)

Lemma delete_path_plain_measures :
  forall project_root cfg clock p w w',
    delete_path project_root cfg clock p false w = (w', Ok tt) ->
    exists size,
      get_file_size (fs w) p = Ok size /\
      space_freed (st w') = space_freed (st w) + size.
Proof.
  intros project_root cfg clock p w w' H.
  unfold delete_path in H. run.
  destruct (get_file_size (fs w) p) as [size|e]; simpl in H; [|discriminate].
  exists size. split; [reflexivity|].
  destruct (is_file (fs w) p) as [[|]|e]; simpl in H; [| |discriminate].
  - destruct (unlink (fs w) p) as [t' [[]|e]]; simpl in H; [|discriminate].
    now injection H as <-.
  - destruct (is_dir (fs w) p) as [[|]|e]; simpl in H; [| |discriminate].
    + destruct (rmtree (fs w) p) as [t' [[]|e]]; simpl in H; [|discriminate].
      now injection H as <-.
    + now injection H as <-.
Qed.

Lemma sum_sizes_frame :
  forall t t' files,
    (forall g, In g files -> resolve t' g = resolve t g) ->
    sum_sizes t' files = sum_sizes t files.
Proof.
  induction files as [|g files IH]; intros H; [reflexivity|].
  simpl. rewrite (get_file_size_frame t t' g) by (apply H; now left).
  rewrite IH by (intros; apply H; now right). reflexivity.
Qed.


(** The second of three logs cannot be removed: the other two are
    removed and counted, and a warning names the one that stays. *)
Example delete_all_goes_on :
  let w := Examples.start Examples.tree_locked [] in
  let out :=
    clean_category [] Examples.default_config Examples.ticking
      "logs" ["*.log"; "*.out"; "*.err"] false false false w in
  snd out = Ok ([["a.log"]; ["locked"; "b.log"]; ["z.log"]], 9) /\
  st (fst out) = Stats 2 0 6 /\
  In (CouldNotDelete ["locked"; "b.log"] (OSError EACCES)) (stdout (fst out)) /\
  resolve (fs (fst out)) ["locked"; "b.log"] = Ok (File "123") /\
  resolve (fs (fst out)) ["z.log"] = Raise (OSError ENOENT).
Proof.
  vm_compute. split; [reflexivity|]. split; [reflexivity|].
  split; [do 4 right; now left|]. split; reflexivity.
Qed.

(** *** What the backup leaves alone *)

Lemma is_prefix_app_cases :
  forall g b s,
    is_prefix g (b ++ s) = true ->
    is_prefix g b = true \/ is_prefix b g = true.
Proof.
  induction g as [|x g IH]; intros b s H; [now left|].
  destruct b as [|y b]; [now right|].
  simpl in H |- *. apply andb_true_iff in H as [Exy H].
  rewrite Exy. apply String.eqb_eq in Exy. subst y.
  rewrite String.eqb_refl. simpl. eauto.
Qed.

Lemma unrelated_extend :
  forall g b q,
    unrelated g b = true -> is_prefix b q = true -> unrelated g q = true.
Proof.
  intros g b q H Hq. unfold unrelated in *.
  apply andb_true_iff in H as [H1 H2].
  apply negb_true_iff in H1, H2.
  apply andb_true_iff. split; apply negb_true_iff.
  - destruct (is_prefix g q) eqn:E; [|reflexivity].
    apply is_prefix_split in Hq as [s ->].
    apply is_prefix_app_cases in E as [E|E]; congruence.
  - destruct (is_prefix q g) eqn:E; [|reflexivity].
    rewrite (@is_prefix_trans _ _ _ Hq E) in H2. discriminate.
Qed.

Lemma is_prefix_removelast :
  forall p g, is_prefix g (removelast p) = true -> is_prefix g p = true.
Proof.
  intros p g H. destruct p as [|x p]; [assumption|].
  rewrite (app_removelast_last x (l := x :: p)) by discriminate.
  eapply is_prefix_trans; [exact H|apply is_prefix_app].
Qed.

Lemma alter_mkdir_frame :
  forall q t g,
    is_prefix g q = false ->
    resolve (fst (alter t q mkdir_op)) g = resolve t g.
Proof.
  induction q as [|x q IH]; intros t g H; [reflexivity|].
  destruct t as [d|m es]; [reflexivity|].
  rewrite alter_cons.
  destruct (can_search m) eqn:Hs; [|reflexivity].
  destruct g as [|y g]; [discriminate|].
  simpl in H.
  destruct (String.eqb y x) eqn:Eyx.
  - apply String.eqb_eq in Eyx. subst y. simpl in H.
    destruct q as [|z q].
    + destruct g as [|z g]; [discriminate|].
      destruct (find_entry x es) as [c|] eqn:Ec; simpl.
      * now rewrite Hs, find_entry_set, Ec.
      * destruct (can_write m); simpl; rewrite Hs.
        -- now rewrite find_entry_set, Ec.
        -- now rewrite find_entry_remove, Ec.
    + destruct (find_entry x es) as [c|] eqn:Ec; [|reflexivity].
      specialize (IH c g H).
      destruct (alter c (z :: q) mkdir_op) as [c' r]. simpl in IH |- *.
      now rewrite Hs, find_entry_set, Ec.
  - assert (Hfind : forall o,
              find_entry y (put_entry x o es) = find_entry y es)
      by (intros; now apply find_entry_put_other).
    destruct q as [|z q].
    + destruct (mkdir_op m (find_entry x es)) as [o r]. simpl.
      now rewrite Hs, Hfind.
    + destruct (find_entry x es) as [c|]; [|reflexivity].
      destruct (alter c (z :: q) mkdir_op) as [c' r]. simpl.
      pose proof (Hfind (Some c')) as Hc'. simpl in Hc'.
      now rewrite Hs, Hc'.
Qed.

Lemma os_mkdir_frame :
  forall t q g,
    is_prefix g q = false ->
    resolve (fst (os_mkdir t q)) g = resolve t g.
Proof.
  intros t [|x q] g H; [reflexivity|].
  now apply (alter_mkdir_frame (x :: q)).
Qed.

Lemma mkdir_exist_ok_frame :
  forall t q g,
    is_prefix g q = false ->
    resolve (fst (mkdir_exist_ok t q)) g = resolve t g.
Proof.
  intros t q g H. unfold mkdir_exist_ok.
  pose proof (os_mkdir_frame t q g H) as H1.
  destruct (os_mkdir t q) as [t' [u|e]]; [assumption|].
  destruct e as [[]| | | | |]; assumption.
Qed.

Lemma mkdir_parents_rev_frame :
  forall rp t g,
    is_prefix g (rev rp) = false ->
    resolve (fst (mkdir_parents_rev t rp)) g = resolve t g.
Proof.
  induction rp as [|x rp IH]; intros t g H; cbn [mkdir_parents_rev];
    match goal with
    | |- context [os_mkdir t ?q] =>
        pose proof (os_mkdir_frame t q g H) as H1;
        destruct (os_mkdir t q) as [t' [u|e]]
    end; try assumption;
    (destruct e as [[]| | | | |]; try assumption).
  assert (Hrp : is_prefix g (rev rp) = false).
  { destruct (is_prefix g (rev rp)) eqn:E; [|reflexivity].
    simpl in H.
    rewrite (@is_prefix_trans _ _ _ E (is_prefix_app (rev rp) [x])) in H.
    discriminate. }
  specialize (IH t' g Hrp).
  destruct (mkdir_parents_rev t' rp) as [t1 [u|e]]; simpl in *;
    [|congruence].
  rewrite (mkdir_exist_ok_frame t1 _ g H). congruence.
Qed.

Lemma mkdir_parents_frame :
  forall t q g,
    is_prefix g q = false ->
    resolve (fst (mkdir_parents t q)) g = resolve t g.
Proof.
  intros t q g H. apply mkdir_parents_rev_frame.
  now rewrite rev_involutive.
Qed.

Lemma unrelated_not_prefix :
  forall g q, unrelated g q = true -> is_prefix g q = false.
Proof.
  intros g q H. unfold unrelated in H.
  apply andb_true_iff in H as [H _]. now apply negb_true_iff in H.
Qed.

Lemma copy2_frame :
  forall t src dst g,
    unrelated g dst = true ->
    resolve (fst (copy2 t src dst)) g = resolve t g.
Proof.
  intros t src dst g H. unfold copy2.
  destruct (resolve t src) as [[data|m es]|e]; try reflexivity.
  destruct (path_eqb src _); [reflexivity|].
  apply alter_frame.
  destruct (os_path_isdir t dst); [|assumption].
  apply (@unrelated_extend _ _ _ H), is_prefix_app.
Qed.

Lemma copy_entries_frame :
  forall copy m src dst g es,
    unrelated g dst = true ->
    Forall (fun e =>
              forall src t dst,
                unrelated g dst = true ->
                resolve (fst (copy (snd e) src t dst)) g = resolve t g) es ->
    forall t errors,
      resolve (fst (copy_entries copy m src dst es t errors)) g
      = resolve t g.
Proof.
  intros copy m src dst g es Hg.
  induction es as [|[x c] es IH]; intros Hall t errors; [reflexivity|].
  inversion Hall as [|? ? Hc Hrest]; subst. simpl in Hc.
  cbn [copy_entries].
  assert (Hx : unrelated g (dst ++ [x]) = true)
    by (apply (@unrelated_extend _ _ _ Hg), is_prefix_app).
  destruct (can_search m).
  - destruct c as [d|m' es'].
    + pose proof (copy2_frame t (src ++ [x]) (dst ++ [x]) g Hx) as H1.
      destruct (copy2 t (src ++ [x]) (dst ++ [x])) as [t' r].
      rewrite IH by assumption. exact H1.
    + pose proof (Hc (src ++ [x]) t (dst ++ [x]) Hx) as H1.
      destruct (copy (Dir m' es') (src ++ [x]) t (dst ++ [x])) as [t' r].
      rewrite IH by assumption. exact H1.
  - now rewrite IH.
Qed.

Lemma copytree_node_frame :
  forall n g src t dst,
    unrelated g dst = true ->
    resolve (fst (copytree_node n src t dst)) g = resolve t g.
Proof.
  induction n as [d|m es IH] using node_rect_all; intros g src t dst Hg;
    [reflexivity|].
  cbn [copytree_node].
  destruct (can_read m); [|reflexivity].
  pose proof (mkdir_parents_frame t dst g (@unrelated_not_prefix _ _ Hg))
    as H1.
  destruct (mkdir_parents t dst) as [t1 [u|e]]; [|assumption].
  pose proof (@copy_entries_frame copytree_node m src dst g es Hg) as H2.
  assert (Hall :
    Forall (fun e =>
              forall src t dst,
                unrelated g dst = true ->
                resolve (fst (copytree_node (snd e) src t dst)) g
                = resolve t g) es).
  { eapply Forall_impl; [|exact IH]. intros e He. apply He. }
  specialize (H2 Hall t1 false).
  destruct (copy_entries copytree_node m src dst es t1 false) as [t2 errors].
  simpl in *. congruence.
Qed.

Lemma copytree_frame :
  forall t src dst g,
    unrelated g dst = true ->
    resolve (fst (copytree t src dst)) g = resolve t g.
Proof.
  intros t src dst g H. unfold copytree.
  destruct (resolve t src) as [n|e]; [|reflexivity].
  destruct (is_prefix src dst); [reflexivity|].
  now apply copytree_node_frame.
Qed.

Lemma backup_file_leaves :
  forall project_root p bdir w g,
    unrelated g bdir = true ->
    resolve (fs (fst (backup_file project_root p bdir w))) g
    = resolve (fs w) g.
Proof.
  intros project_root p bdir w g Hg. unfold backup_file. run.
  pose proof (mkdir_parents_frame (fs w) bdir g
                (@unrelated_not_prefix _ _ Hg)) as H1.
  destruct (mkdir_parents (fs w) bdir) as [t1 [u1|e1]]; simpl in *;
    [|assumption].
  destruct (relative_to p project_root) as [rel|]; simpl; [|assumption].
  assert (Hdst : unrelated g (bdir ++ rel) = true)
    by (apply (@unrelated_extend _ _ _ Hg), is_prefix_app).
  assert (Hpar : is_prefix g (parent (bdir ++ rel)) = false).
  { destruct (is_prefix g (parent (bdir ++ rel))) eqn:E; [|reflexivity].
    apply is_prefix_removelast in E.
    rewrite (@unrelated_not_prefix _ _ Hdst) in E. discriminate. }
  pose proof (mkdir_parents_frame t1 _ g Hpar) as H2.
  destruct (mkdir_parents t1 (parent (bdir ++ rel))) as [t2 [u2|e2]];
    simpl in *; [|congruence].
  destruct (is_file t2 p) as [[|]|e3]; simpl; [| |congruence].
  - pose proof (copy2_frame t2 p (bdir ++ rel) g Hdst) as H3.
    destruct (copy2 t2 p (bdir ++ rel)) as [t3 r3]. simpl in *. congruence.
  - destruct (is_dir t2 p) as [[|]|e5]; simpl; [| |congruence]; [|congruence].
    pose proof (copytree_frame t2 p (bdir ++ rel) g Hdst) as H3.
    destruct (copytree t2 p (bdir ++ rel)) as [t3 r3]. simpl in *.
    congruence.
Qed.

Lemma backup_step_leaves :
  forall project_root cfg clock p backup w g,
    (backup = true ->
     forall k,
       unrelated g
         (joinpath (joinpath project_root (backup_dir cfg)) (clock k))
       = true) ->
    resolve (fs (fst (backup_step project_root cfg clock p backup w))) g
    = resolve (fs w) g.
Proof.
  intros project_root cfg clock p backup w g H. unfold backup_step.
  destruct backup; [|reflexivity].
  unfold bindM, now.
  match goal with
  | |- context [backup_file project_root p ?b ?w1] =>
      pose proof (@backup_file_leaves project_root p b w1 g
                    (H eq_refl (ticks w))) as H1;
      destruct (backup_file project_root p b w1) as [w2 [u|e]]
  end; exact H1.
Qed.

Lemma delete_path_measures :
  forall project_root cfg clock p backup w w',
    delete_path project_root cfg clock p backup w = (w', Ok tt) ->
    exists w1 size,
      backup_step project_root cfg clock p backup w = (w1, Ok tt) /\
      delete_path project_root cfg clock p false w1 = (w', Ok tt) /\
      get_file_size (fs w1) p = Ok size /\
      space_freed (st w') = space_freed (st w) + size.
Proof.
  intros project_root cfg clock p backup w w' H.
  rewrite delete_path_after_backup in H.
  destruct (backup_step_frame project_root cfg clock p backup w)
    as (Hst & _).
  destruct (backup_step project_root cfg clock p backup w)
    as [w1 [[]|e]]; [|discriminate].
  simpl in Hst.
  destruct (@delete_path_plain_measures _ _ _ _ _ _ H) as (size & Hs & Hf).
  exists w1, size. repeat split; try assumption. now rewrite <- Hst.
Qed.

Lemma bytes_freed_with_backup :
  forall project_root cfg clock backup files w total_size,
    separate files ->
    (backup = true -> clear_of_backups project_root cfg clock files) ->
    sum_sizes (fs w) files = Ok total_size ->
    all_deleted project_root cfg clock files backup w = true ->
    exists w',
      delete_all project_root cfg clock files backup w = (w', Ok tt) /\
      space_freed (st w') = space_freed (st w) + total_size.
Proof.
  intros project_root cfg clock backup.
  induction files as [|f files IH]; intros w total Hsep Hclear Hsum Hall.
  - injection Hsum as <-. exists w. split; [reflexivity|]. simpl. lia.
  - destruct Hsep as [Hf Hsep]. simpl in Hsum, Hall |- *.
    destruct (delete_path project_root cfg clock f backup w)
      as [w2 [[]|e]] eqn:E; [|discriminate].
    destruct (@delete_path_measures _ _ _ _ _ _ _ E)
      as (w1 & size & Hb & Hplain & Hsize & Hfreed).
    assert (Hleaves : forall g, In g (f :: files) ->
                        resolve (fs w1) g = resolve (fs w) g).
    { intros g Hg.
      pose proof (@backup_step_leaves project_root cfg clock f backup w g)
        as Hl.
      rewrite Hb in Hl. apply Hl. intros Hbk k. now apply Hclear. }
    rewrite <- (get_file_size_frame (fs w) (fs w1) f) in Hsum
      by (apply Hleaves; now left).
    rewrite Hsize in Hsum. simpl in Hsum.
    destruct (sum_sizes (fs w) files) as [rest|] eqn:Hrest; [|discriminate].
    injection Hsum as <-.
    assert (Hrest2 : sum_sizes (fs w2) files = Ok rest).
    { rewrite <- Hrest. apply sum_sizes_frame. intros g Hg.
      rewrite <- (Hleaves g) by now right.
      eapply delete_path_plain_frame; [exact Hplain|].
      rewrite Forall_forall in Hf. now apply Hf. }
    assert (Hclear' :
      backup = true -> clear_of_backups project_root cfg clock files).
    { intros Hbk k g Hg. apply Hclear; [assumption|now right]. }
    destruct (IH w2 rest Hsep Hclear' Hrest2 Hall) as (w' & Hw' & Hfreed').
    exists w'. split; [assumption|]. lia.
Qed.

(** C3, as the claim states it, fails: [delete_path] measures the entry
    again when it deletes it. Here the directory [results] and the file
    [results/plot.png] inside it are both matched; the reported size counts
    the file twice, every call of [delete_path] returns normally, and 5
    bytes are freed against a reported size of 10. *)
Lemma C3_size_measured_again :
  let files := [["results"]; ["results"; "plot.png"]] in
  let patterns :=
    ["*.png"; "*.jpg"; "*.csv"; "results/"; "benchmarks/results/"] in
  let w := Examples.start Examples.tree_results [] in
  let out :=
    clean_category [] Examples.default_config Examples.ticking
      "results" patterns false false false w in
  snd out = Ok (files, 10) /\
  all_deleted [] Examples.default_config Examples.ticking files false w
  = true /\
  space_freed (st (fst out)) = 5 /\
  resolve (fs (fst out)) ["results"] = Raise (OSError ENOENT).
Proof. vm_compute. repeat split. Qed.

(** C3 (amended): the executor does not use the sizes of the planner.
    Every call of [delete_path] that returns has measured its entry anew,
    after the backup step and before the removal, and has added that size
    to the bytes freed. When no matched entry lies inside another one, none
    of them (in backup mode) contains a backup root of the batch or lies
    inside one, and every call returns normally, the sizes measured at
    deletion time are those of the snapshot, and the bytes freed by the
    category grow by exactly the reported size. *)
Theorem C3_bytes_freed :
  forall project_root cfg clock backup,
    (forall p w w',
        delete_path project_root cfg clock p backup w = (w', Ok tt) ->
        exists w1 size,
          backup_step project_root cfg clock p backup w = (w1, Ok tt) /\
          get_file_size (fs w1) p = Ok size /\
          space_freed (st w') = space_freed (st w) + size) /\
    (forall files w total_size,
        separate files ->
        (backup = true -> clear_of_backups project_root cfg clock files) ->
        sum_sizes (fs w) files = Ok total_size ->
        all_deleted project_root cfg clock files backup w = true ->
        exists w',
          delete_all project_root cfg clock files backup w = (w', Ok tt) /\
          space_freed (st w') = space_freed (st w) + total_size).
Proof.
  intros project_root cfg clock backup. split.
  - intros p w w' H.
    destruct (@delete_path_measures _ _ _ _ _ _ _ H)
      as (w1 & size & Hb & _ & Hs & Hf).
    now exists w1, size.
  - intros files w total. apply bytes_freed_with_backup.
Qed.

Lemma C3_bytes_freed_witness :
  let files := [["a"; "x.pyc"]; ["a"; "y.log"]] in
  let w := Examples.start Examples.tree [] in
  exists w',
    delete_all [] Examples.default_config Examples.ticking files true w
    = (w', Ok tt) /\
    space_freed (st w') = space_freed (st w) + 30.
Proof.
  intros files w.
  apply (proj2 (C3_bytes_freed [] Examples.default_config Examples.ticking
                  true)).
  - simpl. repeat constructor.
  - intros _ k g Hg.
    destruct k as [|[|k]];
      (destruct Hg as [<-|[<-|[]]]; reflexivity).
  - reflexivity.
  - reflexivity.
Defined.

(** *** Backup before deletion *)

Lemma str_compare_refl : forall s, str_compare s s = Eq.
Proof.
  induction s as [|c s IH]; simpl; [reflexivity|].
  now rewrite Nat.compare_refl.
Qed.

Lemma path_eqb_refl : forall p, path_eqb p p = true.
Proof.
  unfold path_eqb. induction p as [|x p IH]; simpl; [reflexivity|].
  now rewrite str_compare_refl.
Qed.

(** What a successful change leaves at its path. *)
Lemma alter_Ok :
  forall f q t t',
    alter t q f = (t', Ok tt) ->
    exists m o o',
      f m o = (o', Ok tt) /\
      resolve t' q =
      match o' with
      | Some n => Ok n
      | None => Raise (OSError ENOENT)
      end.
Proof.
  intros f. induction q as [|x q IH]; intros t t' H; [discriminate|].
  destruct t as [d|m es]; [discriminate|].
  rewrite alter_cons in H.
  destruct (can_search m) eqn:Hs; [|discriminate].
  destruct q as [|y q].
  - destruct (f m (find_entry x es)) as [o' r] eqn:Ef.
    injection H as <- ->.
    exists m, (find_entry x es), o'. split; [assumption|].
    rewrite resolve_Dir, Hs.
    destruct o' as [n|]; simpl;
      [now rewrite find_entry_set|now rewrite find_entry_remove].
  - destruct (find_entry x es) as [c|]; [|discriminate].
    destruct (alter c (y :: q) f) as [c' r] eqn:Ec.
    injection H as <- ->.
    destruct (IH _ _ Ec) as (m' & o & o' & Hf & Hres).
    exists m', o, o'. split; [assumption|].
    now rewrite resolve_Dir, Hs, find_entry_set.
Qed.

Lemma alter_written :
  forall data q t t',
    alter t q (write_op data) = (t', Ok tt) ->
    resolve t' q = Ok (File data).
Proof.
  intros data q t t' H.
  destruct (alter_Ok _ _ _ H) as (m & o & o' & Hf & ->).
  destruct o as [[d|m' es]|]; simpl in Hf; try discriminate.
  - now injection Hf as <-.
  - destruct (can_write m); [|discriminate]. now injection Hf as <-.
Qed.

(** A change at [q] that leaves directories in place, and files too when
    it is made at [p] itself, keeps the regular file at [p]. *)
Lemma alter_keeps_file :
  forall f,
    (forall m m' es, fst (f m (Some (Dir m' es))) = Some (Dir m' es)) ->
    forall q t p data,
      (p = q -> forall m d, fst (f m (Some (File d))) = Some (File d)) ->
      resolve t p = Ok (File data) ->
      resolve (fst (alter t q f)) p = Ok (File data).
Proof.
  intros f Hdir. induction q as [|x q IH]; intros t p data Hfile H;
    [assumption|].
  destruct t as [d|m es]; [assumption|].
  rewrite alter_cons.
  destruct p as [|y p]; [discriminate|].
  rewrite resolve_Dir in H.
  destruct (can_search m) eqn:Hs; [|discriminate].
  destruct (String.eqb y x) eqn:Eyx.
  - apply String.eqb_eq in Eyx. subst y.
    destruct (find_entry x es) as [c|] eqn:Ec; [|discriminate].
    destruct q as [|z q].
    + destruct (f m (Some c)) as [o r] eqn:Ef. simpl.
      rewrite Hs.
      assert (Ho : o = Some c).
      { destruct c as [d|m' es'].
        - destruct p as [|z p]; [|discriminate].
          specialize (Hfile eq_refl m d). now rewrite Ef in Hfile.
        - specialize (Hdir m m' es'). now rewrite Ef in Hdir. }
      subst o. simpl. now rewrite find_entry_set.
    + specialize (IH c p data).
      destruct (alter c (z :: q) f) as [c' r]. simpl in IH |- *.
      rewrite Hs, find_entry_set. apply IH; [|assumption].
      intros ->. now apply Hfile.
  - assert (Hfind : forall o,
              find_entry y (put_entry x o es) = find_entry y es)
      by (intros; now apply find_entry_put_other).
    destruct q as [|z q].
    + destruct (f m (find_entry x es)) as [o r]. simpl.
      now rewrite Hs, Hfind.
    + destruct (find_entry x es) as [c|];
        [|simpl; now rewrite Hs].
      destruct (alter c (z :: q) f) as [c' r]. simpl.
      pose proof (Hfind (Some c')) as Hc'. simpl in Hc'.
      now rewrite Hs, Hc'.
Qed.

Lemma os_mkdir_keeps_file :
  forall t q p data,
    resolve t p = Ok (File data) ->
    resolve (fst (os_mkdir t q)) p = Ok (File data).
Proof.
  intros t [|x q] p data H; [assumption|].
  apply (alter_keeps_file mkdir_op); auto.
Qed.

Lemma mkdir_exist_ok_keeps_file :
  forall t q p data,
    resolve t p = Ok (File data) ->
    resolve (fst (mkdir_exist_ok t q)) p = Ok (File data).
Proof.
  intros t q p data H. unfold mkdir_exist_ok.
  pose proof (os_mkdir_keeps_file t q p H) as H1.
  destruct (os_mkdir t q) as [t' [u|e]]; [assumption|].
  destruct e as [[]| | | | |]; assumption.
Qed.

Lemma mkdir_parents_rev_keeps_file :
  forall rp t p data,
    resolve t p = Ok (File data) ->
    resolve (fst (mkdir_parents_rev t rp)) p = Ok (File data).
Proof.
  induction rp as [|x rp IH]; intros t p data H; cbn [mkdir_parents_rev];
    match goal with
    | |- context [os_mkdir t ?q] =>
        pose proof (os_mkdir_keeps_file t q p H) as H1;
        destruct (os_mkdir t q) as [t' [u|e]]
    end; try assumption;
    (destruct e as [[]| | | | |]; try assumption).
  specialize (IH t' p data H1).
  destruct (mkdir_parents_rev t' rp) as [t1 [u|e]]; [|assumption].
  now apply mkdir_exist_ok_keeps_file.
Qed.

Lemma mkdir_parents_keeps_file :
  forall t q p data,
    resolve t p = Ok (File data) ->
    resolve (fst (mkdir_parents t q)) p = Ok (File data).
Proof. intros. now apply mkdir_parents_rev_keeps_file. Qed.

Lemma copy2_keeps_source :
  forall t src dst data,
    resolve t src = Ok (File data) ->
    resolve (fst (copy2 t src dst)) src = Ok (File data).
Proof.
  intros t src dst data Hsrc. unfold copy2. rewrite Hsrc.
  destruct (path_eqb src _) eqn:E; [assumption|].
  apply (alter_keeps_file (write_op data)); auto.
  intros Heq. rewrite <- Heq, path_eqb_refl in E. discriminate.
Qed.

(** A regular file is not on the way to anything else. *)
Lemma file_not_prefix :
  forall t p q data n,
    resolve t p = Ok (File data) ->
    resolve t q = Ok n ->
    p <> q ->
    is_prefix p q = false.
Proof.
  intros t p q data n Hp Hq Hne.
  destruct (is_prefix p q) eqn:E; [|reflexivity].
  apply is_prefix_split in E as [r ->].
  rewrite resolve_app, Hp in Hq. simpl in Hq.
  destruct r; [|discriminate].
  rewrite app_nil_r in Hne. contradiction.
Qed.

(** The copy that [backup_file] makes of a regular file. *)
Lemma backup_file_of_file :
  forall project_root p bdir rel data w,
    resolve (fs w) p = Ok (File data) ->
    relative_to p project_root = Ok rel ->
    let out := backup_file project_root p bdir w in
    resolve (fs (fst out)) p = Ok (File data) /\
    (snd out = Ok tt ->
     exists dst,
       (dst = bdir ++ rel \/ dst = (bdir ++ rel) ++ basename p) /\
       p <> dst /\
       resolve (fs (fst out)) dst = Ok (File data)).
Proof.
  intros project_root p bdir rel data w Hp Hrel. unfold backup_file. run.
  pose proof (mkdir_parents_keeps_file (fs w) bdir p Hp) as H1.
  destruct (mkdir_parents (fs w) bdir) as [t1 [u1|e1]]; simpl in *;
    [|split; [assumption|discriminate]].
  rewrite Hrel. simpl.
  match goal with
  | |- context [mkdir_parents t1 ?q] =>
      pose proof (mkdir_parents_keeps_file t1 q p H1) as H2;
      destruct (mkdir_parents t1 q) as [t2 [u2|e2]]
  end; simpl in *; [|split; [assumption|discriminate]].
  unfold is_file, test_path. rewrite H2. simpl.
  pose proof (copy2_keeps_source t2 p (bdir ++ rel) H2) as H3.
  unfold copy2 in *. rewrite H2 in *.
  set (dst := if os_path_isdir t2 (bdir ++ rel)
              then (bdir ++ rel) ++ basename p else bdir ++ rel) in *.
  destruct (path_eqb p dst) eqn:E; simpl in *; [split; [assumption|discriminate]|].
  destruct (alter t2 dst (write_op data)) as [t3 r3] eqn:Ea. simpl in *.
  split; [assumption|]. intros ->.
  exists dst. split; [|split].
  - subst dst. destruct (os_path_isdir t2 (bdir ++ rel)); auto.
  - intros <-. now rewrite path_eqb_refl in E.
  - eapply alter_written. exact Ea.
Qed.

Lemma backup_step_ticks :
  forall project_root cfg clock p backup w,
    ticks (fst (backup_step project_root cfg clock p backup w)) =
    if backup then S (ticks w) else ticks w.
Proof.
  intros project_root cfg clock p backup w. unfold backup_step.
  destruct backup; [|reflexivity].
  unfold bindM, now.
  match goal with
  | |- context [backup_file project_root p ?b ?w1] =>
      destruct (backup_file_frame project_root p b w1) as (t' & Hw & _);
      destruct (backup_file project_root p b w1) as [w2 r2]
  end; simpl in *. subst w2.
  destruct r2; reflexivity.
Qed.

(** C6, as the claim states it, fails: the time stamp is taken in every
    call of [delete_path]. With a clock that moves on between the two
    deletions of one batch, the two entries are copied under two different
    backup roots. *)
Lemma C6_two_backup_roots :
  let w := Examples.start Examples.tree [] in
  let out :=
    clean_category [] Examples.default_config Examples.ticking
      "compiled_and_logs" ["*.pyc"; "*.log"] false true false w in
  snd out = Ok ([["a"; "x.pyc"]; ["a"; "y.log"]], 30) /\
  resolve (fs (fst out)) ["cleanup_backups"; "20240101_120000"; "a"; "x.pyc"]
  = Ok (File "0123456789") /\
  resolve (fs (fst out)) ["cleanup_backups"; "20240101_120001"; "a"; "y.log"]
  = Ok (File "01234567890123456789") /\
  resolve (fs (fst out)) ["cleanup_backups"; "20240101_120000"; "a"; "y.log"]
  = Raise (OSError ENOENT).
Proof. vm_compute. repeat split. Qed.

(** C6 (amended): with backup, every call of [delete_path] reads the
    clock once, so the backup root is fixed per entry and not per batch.
    When the call returns for a regular file, the file has been removed and
    its bytes are under
    [<project_root>/<backup_dir>/<time stamp of that call>/<relative path>]
    (inside that path, under the file's own name, when a directory was
    already there). When the backup step raises, [delete_path] stops with
    that exception, the file is still in place and nothing is counted. *)
Theorem C6_backup_per_entry :
  forall project_root cfg clock,
    (forall p backup w w' r,
        delete_path project_root cfg clock p backup w = (w', r) ->
        ticks w' = if backup then S (ticks w) else ticks w) /\
    (forall p rel data w w',
        resolve (fs w) p = Ok (File data) ->
        relative_to p project_root = Ok rel ->
        delete_path project_root cfg clock p true w = (w', Ok tt) ->
        let dst := backup_root project_root cfg clock w ++ rel in
        resolve (fs w') p = Raise (OSError ENOENT) /\
        (resolve (fs w') dst = Ok (File data) \/
         resolve (fs w') (dst ++ basename p) = Ok (File data))) /\
    (forall p rel data w w1 e,
        resolve (fs w) p = Ok (File data) ->
        relative_to p project_root = Ok rel ->
        backup_step project_root cfg clock p true w = (w1, Raise e) ->
        delete_path project_root cfg clock p true w = (w1, Raise e) /\
        resolve (fs w1) p = Ok (File data) /\
        st w1 = st w).
Proof.
  intros project_root cfg clock. split; [|split].
  - intros p backup w w' r H.
    rewrite delete_path_after_backup in H.
    pose proof (backup_step_ticks project_root cfg clock p backup w) as Ht.
    destruct (backup_step project_root cfg clock p backup w) as [w1 [u|e]];
      simpl in Ht.
    + apply delete_path_plain_outcome in H as (_ & Hticks & _). congruence.
    + injection H as <- <-. assumption.
  - intros p rel data w w' Hp Hrel H dst.
    rewrite delete_path_after_backup in H.
    unfold backup_step, bindM, now in H.
    match type of H with
    | context [backup_file project_root p ?b ?w0] =>
        destruct (@backup_file_of_file project_root p b rel data w0 Hp Hrel)
          as (Hkeep & Hcopy);
        destruct (backup_file project_root p b w0) as [w1 [[]|e]] eqn:Eb
    end; simpl in *; [|discriminate].
    destruct (Hcopy eq_refl) as (dst' & Hdst & Hne & Hres).
    unfold delete_path in H. run.
    destruct (get_file_size (fs w1) p) as [size|]; simpl in H; [|discriminate].
    unfold is_file, test_path in H. rewrite Hkeep in H. simpl in H.
    destruct (unlink (fs w1) p) as [t' [[]|e]] eqn:Eu; simpl in H;
      [|discriminate].
    injection H as <-. simpl.
    split; [eapply alter_removed; [apply unlink_op_removing|exact Eu]|].
    assert (Hfr : resolve t' dst' = Ok (File data)).
    { rewrite <- Hres.
      change t' with (fst (t', @Ok unit tt)). rewrite <- Eu.
      apply alter_frame. unfold unrelated.
      rewrite (@file_not_prefix (fs w1) dst' p data (File data) Hres Hkeep)
        by congruence.
      rewrite (@file_not_prefix (fs w1) p dst' data (File data) Hkeep Hres)
        by congruence.
      reflexivity. }
    destruct Hdst as [->| ->]; [left|right]; exact Hfr.
  - intros p rel data w w1 e Hp Hrel H.
    rewrite delete_path_after_backup, H.
    split; [reflexivity|].
    destruct (backup_step_frame project_root cfg clock p true w)
      as (Hst & _).
    rewrite H in Hst. simpl in Hst. split; [|assumption].
    unfold backup_step, bindM, now in H.
    match type of H with
    | context [backup_file project_root p ?b ?w0] =>
        destruct (@backup_file_of_file project_root p b rel data w0 Hp Hrel)
          as (Hkeep & _);
        destruct (backup_file project_root p b w0) as [w2 [[]|e2]]
    end; simpl in *; [discriminate|].
    now injection H as <- <-.
Qed.

Lemma C6_backup_per_entry_witness :
  let w := Examples.start Examples.tree [] in
  let w' :=
    fst (delete_path [] Examples.default_config Examples.ticking
           ["a"; "x.pyc"] true w) in
  resolve (fs w') ["a"; "x.pyc"] = Raise (OSError ENOENT) /\
  (resolve (fs w') ["cleanup_backups"; "20240101_120000"; "a"; "x.pyc"]
   = Ok (File "0123456789") \/
   resolve (fs w')
     (["cleanup_backups"; "20240101_120000"; "a"; "x.pyc"] ++ ["x.pyc"])
   = Ok (File "0123456789")).
Proof.
  intros w w'.
  apply (proj1 (proj2 (C6_backup_per_entry [] Examples.default_config
                         Examples.ticking))
           ["a"; "x.pyc"] ["a"; "x.pyc"] "0123456789" w w');
    reflexivity.
Defined.

(** *** The size of a directory *)



Lemma select_wild_File : forall P acc d, select wild P acc (File d) = [].
Proof. reflexivity. Qed.





(** **** The enumeration has no duplicates *)

Lemma nat_of_ascii_inj :
  forall c d, nat_of_ascii c = nat_of_ascii d -> c = d.
Proof.
  intros c d H.
  rewrite <- (ascii_nat_embedding c), <- (ascii_nat_embedding d).
  now rewrite H.
Qed.

Lemma str_compare_eq : forall a b, str_compare a b = Eq -> a = b.
Proof.
  induction a as [|c a IH]; intros [|d b] H; simpl in H;
    try discriminate; [reflexivity|].
  destruct (Nat.compare (nat_of_ascii c) (nat_of_ascii d)) eqn:E;
    try discriminate.
  apply Nat.compare_eq in E. apply nat_of_ascii_inj in E.
  f_equal; auto.
Qed.

Lemma path_eqb_eq : forall p q, path_eqb p q = true -> p = q.
Proof.
  unfold path_eqb.
  induction p as [|x p IH]; intros [|y q] H; simpl in H;
    try discriminate; [reflexivity|].
  destruct (str_compare x y) eqn:E; try discriminate.
  apply str_compare_eq in E. f_equal; auto.
Qed.


Lemma mem_In : forall x l, mem x l = true <-> In x l.
Proof.
  intros x l. unfold mem. rewrite existsb_exists. split.
  - intros [y [Hy E]]. apply String.eqb_eq in E. now subst.
  - intros H. exists x. split; [assumption|apply String.eqb_refl].
Qed.

Lemma distinct_cons :
  forall x l,
    distinct (x :: l) = true -> ~ In x l /\ distinct l = true.
Proof.
  intros x l H. simpl in H. apply andb_true_iff in H as [H1 H2].
  split; [|assumption].
  intros Hin. apply mem_In in Hin. rewrite Hin in H1. discriminate.
Qed.

Lemma find_entry_distinct :
  forall es x c,
    distinct (map fst es) = true ->
    In (x, c) es ->
    find_entry x es = Some c.
Proof.
  induction es as [|[y n] es IH]; intros x c Hd Hin; [contradiction|].
  simpl in Hd. apply distinct_cons in Hd as [Hy Hd]. simpl.
  destruct Hin as [[= -> ->]|Hin].
  - now rewrite String.eqb_refl.
  - destruct (String.eqb x y) eqn:E; [|auto].
    apply String.eqb_eq in E. subst y.
    exfalso. apply Hy. apply (in_map fst) in Hin. exact Hin.
Qed.






(** **** The sum over the enumeration *)





Lemma resolve_child :
  forall t P m es x c,
    resolve t P = Ok (Dir m es) ->
    can_search m = true ->
    distinct (map fst es) = true ->
    In (x, c) es ->
    resolve t (P ++ [x]) = Ok c.
Proof.
  intros t P m es x c HP Hs Hd Hin.
  rewrite resolve_app, HP. simpl.
  now rewrite Hs, (find_entry_distinct _ _ _ Hd Hin).
Qed.







(** *** Matching, component by component *)

Lemma anchored_two_stars :
  forall pats parts,
    anchored_match ("**" :: pats) parts =
    anchored_match pats parts ||
    match parts with
    | [] => false
    | _ :: parts' => anchored_match ("**" :: pats) parts'
    end.
Proof. intros pats [|x parts]; reflexivity. Qed.

Lemma anchored_component :
  forall pat pats x parts,
    String.eqb pat "**" = false ->
    anchored_match (pat :: pats) (x :: parts) =
    Fnmatch.fnmatchcase x pat && anchored_match pats parts.
Proof.
  intros pat pats x parts H. cbn [anchored_match]. now rewrite H.
Qed.

Lemma anchored_skip :
  forall pats pre parts,
    anchored_match pats parts = true ->
    anchored_match ("**" :: pats) (pre ++ parts) = true.
Proof.
  intros pats pre parts H. induction pre as [|x pre IH].
  - simpl app. rewrite anchored_two_stars, H. reflexivity.
  - rewrite <- app_comm_cons, anchored_two_stars, IH.
    apply orb_true_r.
Qed.

Lemma anchored_plain :
  forall pats parts,
    ~ In "**" pats ->
    anchored_match pats parts = true ->
    Forall2 matches parts pats.
Proof.
  induction pats as [|pat pats IH]; intros parts Hno H.
  - destruct parts; [constructor|discriminate].
  - assert (Hpat : String.eqb pat "**" = false).
    { apply String.eqb_neq. intros ->. apply Hno. now left. }
    destruct parts as [|x parts].
    { cbn [anchored_match] in H. rewrite Hpat in H. discriminate. }
    rewrite (anchored_component _ _ _ _ Hpat) in H.
    apply andb_true_iff in H. destruct H as [Hx H].
    constructor; [exact Hx|].
    apply IH; [|exact H]. intros Hin. apply Hno. now right.
Qed.

Lemma make_selector_anchored :
  forall parts sel,
    make_selector parts = Ok sel ->
    forall P acc n p,
      In p (select sel P acc n) ->
      exists suf, p = P ++ suf /\ anchored_match parts suf = true.
Proof.
  induction parts as [|pat parts IH]; intros sel Hsel P acc n p Hin.
  - injection Hsel as <-. destruct Hin as [<-|[]].
    exists []. now rewrite app_nil_r.
  - simpl in Hsel.
    destruct (String.eqb pat "**") eqn:Hpat.
    + apply String.eqb_eq in Hpat. subst pat.
      destruct (make_selector parts) as [succ|] eqn:Hsucc; [|discriminate].
      simpl in Hsel. injection Hsel as <-.
      cbn [select] in Hin. apply dedup_incl in Hin.
      apply in_flat_map in Hin as [s [Hs Hin]].
      apply iterate_directories_prefix in Hs.
      apply is_prefix_split in Hs as [pre Hpre].
      destruct (IH _ eq_refl _ _ _ _ Hin) as (suf & -> & Hsuf).
      exists (pre ++ suf). rewrite Hpre, <- app_assoc.
      split; [reflexivity|]. now apply anchored_skip.
    + destruct (contains_2stars pat); [discriminate|].
      destruct (make_selector parts) as [succ|] eqn:Hsucc; [|discriminate].
      simpl in Hsel.
      destruct (is_wildcard_pattern pat) eqn:Hw; injection Hsel as <-;
        cbn [select] in Hin;
        (destruct n as [d|m es]; [contradiction|]).
      * destruct (acc && can_read m); [|contradiction].
        apply in_flat_map in Hin as [e [_ Hin]].
        destruct (nonempty parts && negb (is_dir_node (snd e)));
          [contradiction|].
        destruct (Fnmatch.fnmatchcase (fst e) pat) eqn:Hm; [|contradiction].
        destruct (IH _ eq_refl _ _ _ _ Hin) as (suf & -> & Hsuf).
        exists (fst e :: suf). rewrite <- app_assoc.
        split; [reflexivity|].
        now rewrite (anchored_component _ _ _ _ Hpat), Hm.
      * destruct (acc && can_search m); [|contradiction].
        destruct (find_entry pat es) as [c|]; [|contradiction].
        destruct (nonempty parts && negb (is_dir_node c)); [contradiction|].
        destruct (IH _ eq_refl _ _ _ _ Hin) as (suf & -> & Hsuf).
        exists (pat :: suf). rewrite <- app_assoc.
        split; [reflexivity|].
        rewrite (anchored_component _ _ _ _ Hpat), Hsuf, andb_true_r.
        now apply fnmatchcase_literal.
Qed.

Lemma rglob_anchored :
  forall t root pattern paths p,
    rglob t root pattern = Ok paths ->
    In p paths ->
    exists rel,
      p = root ++ rel /\
      anchored_match ("**" :: snd (parse_parts pattern)) rel = true.
Proof.
  intros t root pattern paths p H Hin. unfold rglob in H.
  destruct (parse_parts pattern) as [r parts]. simpl.
  destruct r; [discriminate|].
  destruct (make_selector ("**" :: parts)) as [sel|] eqn:Hsel;
    [|discriminate].
  cbn [bind] in H.
  destruct (is_dir t root) as [[|]|]; cbn [bind] in H; try discriminate.
  2:{ injection H as <-. contradiction. }
  destruct (resolve t root) as [n|]; [|discriminate].
  cbn [bind] in H. injection H as <-.
  exact (make_selector_anchored _ Hsel _ _ _ _ Hin).
Qed.

Lemma dedup_complete :
  forall ps seen p,
    In p ps -> In p (dedup seen ps) \/ In p seen.
Proof.
  induction ps as [|q ps IH]; intros seen p Hin; [contradiction|].
  simpl. destruct (existsb (path_eqb q) seen) eqn:E.
  - destruct Hin as [<-|Hin]; [|now apply IH].
    right. apply existsb_exists in E as (q' & Hq' & Heq).
    apply path_eqb_eq in Heq. now subst.
  - destruct Hin as [<-|Hin]; [left; now left|].
    destruct (IH (q :: seen) p Hin) as [H|[<-|H]].
    + left. now right.
    + left. now left.
    + now right.
Qed.

Lemma sub_directories_child :
  forall P m x c es,
    In (x, c) es ->
    is_dir_node c = true ->
    incl (iterate_directories (P ++ [x]) (can_search m) c)
      (sub_directories iterate_directories P m es).
Proof.
  intros P m x c. induction es as [|[y d] es IH]; intros Hin Hc s Hs;
    [contradiction|].
  cbn [sub_directories].
  destruct Hin as [[= -> ->]|Hin].
  - destruct c as [data|m' es']; [discriminate|].
    apply in_or_app. now left.
  - destruct d as [data|m' es'].
    + now apply IH.
    + apply in_or_app. right. now apply IH.
Qed.

Lemma find_entry_In :
  forall x es c, find_entry x es = Some c -> In (x, c) es.
Proof.
  intros x es c. induction es as [|[y n] es IH]; simpl; [discriminate|].
  destruct (String.eqb x y) eqn:E.
  - apply String.eqb_eq in E. subst y. intros [= ->]. now left.
  - intros H. right. now apply IH.
Qed.

Lemma listed_step :
  forall n x p c,
    listed n (x :: p) = Some c ->
    exists m es c1,
      n = Dir m es /\ can_read m = true /\ can_search m = true /\
      find_entry x es = Some c1 /\ listed c1 p = Some c.
Proof.
  intros [data|m es] x p c H; simpl in H; [discriminate|].
  destruct (can_read m) eqn:Hr, (can_search m) eqn:Hs; simpl in H;
    try discriminate.
  destruct (find_entry x es) as [c1|] eqn:Hx; [|discriminate].
  exists m, es, c1. now repeat split.
Qed.

Lemma listed_is_dir :
  forall n p c, listed n p = Some c -> p <> [] -> is_dir_node n = true.
Proof.
  intros n [|x p] c H Hp; [contradiction|].
  apply listed_step in H as (m & es & c1 & -> & _). reflexivity.
Qed.

Lemma listed_app :
  forall pre suf n c,
    listed n (pre ++ suf) = Some c ->
    exists d, listed n pre = Some d /\ listed d suf = Some c.
Proof.
  induction pre as [|x pre IH]; intros suf n c H.
  - exists n. now split.
  - rewrite <- app_comm_cons in H.
    apply listed_step in H as (m & es & c1 & -> & Hr & Hs & Hx & H).
    destruct (IH _ _ _ H) as (d & Hd & Hsuf).
    exists d. split; [|exact Hsuf].
    simpl. now rewrite Hr, Hs, Hx.
Qed.

Lemma listed_resolve :
  forall p n c, listed n p = Some c -> resolve n p = Ok c.
Proof.
  induction p as [|x p IH]; intros n c H.
  - now injection H as ->.
  - apply listed_step in H as (m & es & c1 & -> & _ & Hs & Hx & H).
    simpl. rewrite Hs, Hx. now apply IH.
Qed.

Lemma iterate_directories_complete :
  forall pre n P d,
    listed n pre = Some d ->
    is_dir_node d = true ->
    In (P ++ pre, true, d) (iterate_directories P true n).
Proof.
  induction pre as [|x pre IH]; intros n P d H Hd.
  - injection H as ->. rewrite app_nil_r.
    destruct d; left; reflexivity.
  - pose proof H as H0.
    apply listed_step in H as (m & es & c1 & -> & Hr & Hs & Hx & H).
    assert (Hc1 : is_dir_node c1 = true).
    { destruct pre as [|y pre].
      - injection H as ->. exact Hd.
      - apply (@listed_is_dir _ _ _ H). discriminate. }
    cbn [iterate_directories]. right. rewrite Hr. cbn [andb].
    apply (sub_directories_child P m x c1 es (@find_entry_In _ _ _ Hx) Hc1).
    rewrite Hs.
    replace (P ++ x :: pre) with ((P ++ [x]) ++ pre)
      by (now rewrite <- app_assoc).
    now apply IH.
Qed.

Lemma anchored_split :
  forall pats parts,
    anchored_match ("**" :: pats) parts = true ->
    exists pre suf,
      parts = pre ++ suf /\ anchored_match pats suf = true.
Proof.
  intros pats. induction parts as [|x parts IH]; intros H;
    rewrite anchored_two_stars in H; apply orb_true_iff in H.
  - destruct H as [H|H]; [|discriminate]. exists [], []. now split.
  - destruct H as [H|H].
    + exists [], (x :: parts). now split.
    + destruct (IH H) as (pre & suf & -> & Hs).
      exists (x :: pre), suf. now split.
Qed.

Lemma anchored_nonempty :
  forall pats parts,
    pats <> [] ->
    last pats "" <> "**" ->
    anchored_match pats parts = true ->
    parts <> [].
Proof.
  induction pats as [|pat pats IH]; intros parts Hne Hl H;
    [contradiction|].
  destruct (String.eqb pat "**") eqn:Hpat.
  - apply String.eqb_eq in Hpat. subst pat.
    destruct pats as [|q pats]; [contradiction|].
    apply anchored_split in H as (pre & suf & -> & H).
    apply IH in H; [|discriminate|exact Hl].
    destruct pre; [exact H|discriminate].
  - destruct parts; [|discriminate].
    cbn [anchored_match] in H. rewrite Hpat in H. discriminate.
Qed.

Lemma select_complete :
  forall parts sel,
    make_selector parts = Ok sel ->
    last parts "" <> "**" ->
    forall suf n P c,
      listed n suf = Some c ->
      anchored_match parts suf = true ->
      In (P ++ suf) (select sel P true n).
Proof.
  induction parts as [|pat parts IH]; intros sel Hsel Hl suf n P c Hc Hm.
  - injection Hsel as <-. destruct suf; [|discriminate].
    rewrite app_nil_r. now left.
  - assert (Hl' : last parts "" <> "**")
      by (destruct parts; [discriminate|exact Hl]).
    assert (Hdir : forall suf' c1,
               parts <> [] ->
               listed c1 suf' = Some c ->
               anchored_match parts suf' = true ->
               is_dir_node c1 = true).
    { intros suf' c1 Hp H1 H2.
      apply (@listed_is_dir _ _ _ H1).
      exact (@anchored_nonempty _ _ Hp Hl' H2). }
    simpl in Hsel.
    destruct (String.eqb pat "**") eqn:Hpat.
    + apply String.eqb_eq in Hpat. subst pat.
      assert (Hp : parts <> []) by (intros ->; now apply Hl).
      destruct (make_selector parts) as [succ|]; [|discriminate].
      simpl in Hsel. injection Hsel as <-.
      apply anchored_split in Hm as (pre & suf' & -> & Hm).
      apply listed_app in Hc as (d & Hd & Hc).
      cbn [select].
      destruct (@dedup_complete
                  (flat_map
                     (fun s : path * bool * node =>
                        select succ (fst (fst s)) (snd (fst s)) (snd s))
                     (iterate_directories P true n)) [] (P ++ pre ++ suf'))
        as [H|[]]; [|exact H].
      apply in_flat_map. exists (P ++ pre, true, d). split.
      * apply iterate_directories_complete; [exact Hd|].
        exact (Hdir _ _ Hp Hc Hm).
      * cbn [fst snd]. rewrite app_assoc.
        exact (IH _ eq_refl Hl' _ _ _ _ Hc Hm).
    + destruct suf as [|x suf'].
      { cbn [anchored_match] in Hm. rewrite Hpat in Hm. discriminate. }
      rewrite (anchored_component _ _ _ _ Hpat) in Hm.
      apply andb_true_iff in Hm as [Hx Hm].
      apply listed_step in Hc as (m & es & c1 & -> & Hr & Hs & He & Hc).
      assert (Hd : nonempty parts && negb (is_dir_node c1) = false).
      { destruct parts as [|q parts]; [reflexivity|].
        rewrite (Hdir suf' c1); [reflexivity|discriminate|exact Hc|exact Hm]. }
      destruct (contains_2stars pat); [discriminate|].
      destruct (make_selector parts) as [succ|]; [|discriminate].
      simpl in Hsel.
      replace (P ++ x :: suf') with ((P ++ [x]) ++ suf')
        by (now rewrite <- app_assoc).
      pose proof (IH _ eq_refl Hl' suf' c1 (P ++ [x]) c Hc Hm) as Hin.
      destruct (is_wildcard_pattern pat) eqn:Hw; injection Hsel as <-;
        cbn [select].
      * rewrite Hr. cbn [andb]. apply in_flat_map.
        exists (x, c1). split; [exact (@find_entry_In _ _ _ He)|].
        cbn [fst snd]. rewrite Hd, Hx, Hs. exact Hin.
      * apply (@fnmatchcase_literal x pat Hw) in Hx. subst x.
        rewrite Hs, He, Hd. cbn [andb]. exact Hin.
Qed.

Lemma rglob_complete :
  forall t root pattern paths n rel c,
    rglob t root pattern = Ok paths ->
    snd (parse_parts pattern) <> [] ->
    last (snd (parse_parts pattern)) "" <> "**" ->
    resolve t root = Ok n ->
    listed n rel = Some c ->
    anchored_match ("**" :: snd (parse_parts pattern)) rel = true ->
    In (root ++ rel) paths.
Proof.
  intros t root pattern paths n rel c H Hne Hl Hn Hc Hm.
  unfold rglob in H.
  destruct (parse_parts pattern) as [r parts]. simpl in Hne, Hl, Hm.
  destruct r; [discriminate|].
  destruct (make_selector ("**" :: parts)) as [sel|] eqn:Hsel;
    [|discriminate].
  cbn [bind] in H.
  assert (Hd : is_dir_node n = true).
  { apply anchored_split in Hm as (pre & suf & -> & Hm).
    apply listed_app in Hc as (d & Hd & Hc).
    pose proof (@anchored_nonempty _ _ Hne Hl Hm) as Hsuf.
    destruct pre as [|x pre].
    - injection Hd as ->. exact (@listed_is_dir _ _ _ Hc Hsuf).
    - apply (@listed_is_dir _ _ _ Hd). discriminate. }
  unfold is_dir, test_path in H. rewrite Hn, Hd in H.
  cbn [bind] in H. injection H as <-.
  apply (@select_complete _ _ Hsel) with (c := c); [|exact Hc|exact Hm].
  destruct parts; [contradiction|exact Hl].
Qed.

Lemma match_toks_star :
  forall ts s,
    Fnmatch.match_toks (Fnmatch.TStar :: ts) s =
    Fnmatch.match_toks ts s ||
    match s with
    | EmptyString => false
    | String _ s' => Fnmatch.match_toks (Fnmatch.TStar :: ts) s'
    end.
Proof. intros ts [|c s]; reflexivity. Qed.

Lemma match_toks_literal_occurs :
  forall ts s d,
    Fnmatch.match_toks ts s = true ->
    In (Fnmatch.TLit d) ts ->
    exists a b, s = (a ++ String d b)%string.
Proof.
  induction ts as [|t ts IH]; intros s d H Hin; [contradiction|].
  destruct Hin as [->|Hin].
  - destruct s as [|c s]; [discriminate|].
    cbn in H. apply andb_true_iff in H as [Hc _].
    apply Ascii.eqb_eq in Hc. subst c. now exists EmptyString, s.
  - assert (Hstep : forall c s',
               Fnmatch.match_toks ts s' = true ->
               exists a b, String c s' = (a ++ String d b)%string).
    { intros c s' H'. destruct (IH _ _ H' Hin) as (a & b & ->).
      now exists (String c a), b. }
    destruct t as [| |e|neg items].
    + induction s as [|c s IHs]; rewrite match_toks_star in H;
        apply orb_true_iff in H as [H|H].
      * exact (IH _ _ H Hin).
      * discriminate.
      * exact (IH _ _ H Hin).
      * destruct (IHs H) as (a & b & ->). now exists (String c a), b.
    + destruct s as [|c s]; [discriminate|].
      cbn in H. exact (Hstep c s H).
    + destruct s as [|c s]; [discriminate|].
      cbn in H. apply andb_true_iff in H as [_ H]. exact (Hstep c s H).
    + destruct s as [|c s]; [discriminate|].
      cbn in H. apply andb_true_iff in H as [_ H]. exact (Hstep c s H).
Qed.

Lemma fnmatchcase_star :
  forall name pat,
    Fnmatch.fnmatchcase name (String "*" pat)
    = Fnmatch.fnmatchcase name pat ||
      match name with
      | EmptyString => false
      | String _ name' => Fnmatch.fnmatchcase name' (String "*" pat)
      end.
Proof.
  intros name pat. unfold Fnmatch.fnmatchcase, Fnmatch.translate.
  cbn [String.length Fnmatch.translate_fuel Ascii.eqb Bool.eqb].
  apply match_toks_star.
Qed.

Lemma fnmatchcase_ordinary :
  forall c d name pat,
    d <> "*"%char -> d <> "?"%char -> d <> "["%char ->
    Fnmatch.fnmatchcase (String c name) (String d pat)
    = Ascii.eqb d c && Fnmatch.fnmatchcase name pat.
Proof.
  intros c d name pat H1 H2 H3.
  unfold Fnmatch.fnmatchcase, Fnmatch.translate.
  cbn [String.length Fnmatch.translate_fuel].
  apply Ascii.eqb_neq in H1. apply Ascii.eqb_neq in H2.
  apply Ascii.eqb_neq in H3. rewrite H1, H2, H3.
  reflexivity.
Qed.

Lemma fnmatchcase_question :
  forall c name pat,
    Fnmatch.fnmatchcase (String c name) (String "?" pat)
    = Fnmatch.fnmatchcase name pat.
Proof. reflexivity. Qed.

(** C5 (amended): matching goes component by component, and it is not
    anchored to the full relative path but goes from the right. For a
    pattern without a ["**"] component, the protection check accepts a
    relative path exactly when the pattern is relative and not empty and
    the last components of the path, as many as the pattern has, match
    the components of the pattern one by one, and a category pattern only
    selects entries whose last components match it in that way, at any
    depth below the project root. In a category pattern a ["**"]
    component crosses the boundaries between components: [rglob] puts
    one in front of the pattern, every entry it yields has a relative
    path that this longer pattern covers in full when ["**"] stands for
    any number of components, and for a pattern that is not empty and
    does not end in ["**"] every entry with such a relative path is
    yielded when the directories on the way to it can be listed and
    entered. Every other component of a pattern stands for exactly one
    component of the path. Matching is case-sensitive: a component
    without special characters matches the identical name only, every
    character that stands for itself in a pattern occurs in each name the
    pattern matches, and at the head of a pattern a character other than
    [*], [?] and [[] matches that very character, [?] any one character
    and [*] any run of characters. *)
Theorem C5_match_from_the_right :
  (forall rel pattern,
      ~ In "**" (snd (parse_parts pattern)) ->
      (pmatch rel pattern = Ok true <->
       fst (parse_parts pattern) = false /\
       snd (parse_parts pattern) <> [] /\
       exists pre suf,
         rel = pre ++ suf /\
         Forall2 matches suf (snd (parse_parts pattern)))) /\
  (forall t root pattern paths p,
      ~ In "**" (snd (parse_parts pattern)) ->
      rglob t root pattern = Ok paths ->
      In p paths ->
      exists pre suf,
        p = root ++ pre ++ suf /\
        Forall2 matches suf (snd (parse_parts pattern))) /\
  (forall t root pattern paths p,
      rglob t root pattern = Ok paths ->
      In p paths ->
      exists rel,
        p = root ++ rel /\
        anchored_match ("**" :: snd (parse_parts pattern)) rel = true) /\
  (forall t root pattern paths n rel c,
      rglob t root pattern = Ok paths ->
      snd (parse_parts pattern) <> [] ->
      last (snd (parse_parts pattern)) "" <> "**" ->
      resolve t root = Ok n ->
      listed n rel = Some c ->
      anchored_match ("**" :: snd (parse_parts pattern)) rel = true ->
      In (root ++ rel) paths) /\
  (forall name pat,
      is_wildcard_pattern pat = false ->
      (Fnmatch.fnmatchcase name pat = true <-> name = pat)) /\
  (forall name pat d,
      Fnmatch.fnmatchcase name pat = true ->
      In (Fnmatch.TLit d) (Fnmatch.translate pat) ->
      exists a b, name = (a ++ String d b)%string) /\
  (forall c d name pat,
      d <> "*"%char -> d <> "?"%char -> d <> "["%char ->
      Fnmatch.fnmatchcase (String c name) (String d pat)
      = Ascii.eqb d c && Fnmatch.fnmatchcase name pat) /\
  (forall c name pat,
      Fnmatch.fnmatchcase (String c name) (String "?" pat)
      = Fnmatch.fnmatchcase name pat) /\
  (forall name pat,
      Fnmatch.fnmatchcase name (String "*" pat)
      = Fnmatch.fnmatchcase name pat ||
        match name with
        | EmptyString => false
        | String _ name' => Fnmatch.fnmatchcase name' (String "*" pat)
        end).
Proof.
  split; [intros rel pattern _; apply pmatch_from_the_right|].
  split; [exact rglob_from_the_right|].
  split; [exact rglob_anchored|].
  split; [exact rglob_complete|].
  split; [exact fnmatchcase_literal|].
  split; [intros name pat d; apply match_toks_literal_occurs|].
  split; [exact fnmatchcase_ordinary|].
  split; [exact fnmatchcase_question|exact fnmatchcase_star].
Qed.

Lemma C5_match_from_the_right_witness :
  let deep :=
    Dir rwx
      [("a", Dir rwx
               [("b", Dir rwx
                        [("c", Dir rwx [("y.pyc", File "1")])])])] in
  (exists pre suf,
      ["a"; "x.pyc"] = [] ++ pre ++ suf /\
      Forall2 matches suf (snd (parse_parts "*.pyc"))) /\
  (exists rel,
      ["a"; "b"; "c"; "y.pyc"] = [] ++ rel /\
      anchored_match ("**" :: snd (parse_parts "a/**/*.pyc")) rel = true) /\
  In ([] ++ ["a"; "b"; "c"; "y.pyc"])
    (match rglob deep [] "a/**/*.pyc" with
     | Ok paths => paths
     | Raise _ => []
     end) /\
  (Fnmatch.fnmatchcase "README.md" "readme.md" = true <->
   "README.md" = "readme.md") /\
  Fnmatch.fnmatchcase "X.pyc" "x*" = false.
Proof.
  intros deep.
  destruct C5_match_from_the_right
    as (_ & Hright & Hsound & Hcomplete & Hliteral & _ & Hchar & _).
  split; [|split; [|split; [|split]]].
  - apply (Hright Examples.tree [] "*.pyc" [["a"; "x.pyc"]]).
    + simpl. intros [H|[]]. discriminate.
    + reflexivity.
    + now left.
  - apply (Hsound deep [] "a/**/*.pyc" [["a"; "b"; "c"; "y.pyc"]]).
    + reflexivity.
    + now left.
  - apply (Hcomplete deep [] "a/**/*.pyc" _ deep ["a"; "b"; "c"; "y.pyc"]
             (File "1")).
    + reflexivity.
    + discriminate.
    + discriminate.
    + reflexivity.
    + reflexivity.
    + reflexivity.
  - apply Hliteral. reflexivity.
  - rewrite (Hchar "X"%char "x"%char ".pyc" "*");
      [reflexivity|discriminate|discriminate|discriminate].
Defined.

(** In the protection check a ["**"] component stands for exactly one
    component of the path: [docs/a/b/c.log] is not covered by
    ["docs/**/*"], is not protected under the built-in configuration, and
    is found by the pattern ["*.log"]. The statements that follow say nothing
    about protected patterns with such a component. *)
Lemma two_stars_in_protection :
  let t :=
    Dir rwx
      [("docs", Dir rwx
                  [("a", Dir rwx
                           [("b", Dir rwx [("c.log", File "1")])])])] in
  anchored_match ["docs"; "**"; "*"] ["docs"; "a"; "b"; "c.log"] = true /\
  is_protected [] Examples.default_config ["docs"; "a"; "b"; "c.log"]
  = Ok false /\
  find_files [] Examples.default_config t ["*.log"]
  = Ok [["docs"; "a"; "b"; "c.log"]].
Proof. repeat split. Qed.

(** C1 (amended): for a path [p] under the project root whose relative
    path is matched in full, component by component, by a relative
    protected pattern without a ["**"] component, [is_protected] returns
    true as long as neither this pattern nor one listed before it is
    empty; and, whatever the protected patterns are, such a [p] is in no
    result of [find_files]. *)
Theorem C1_protected_never_found :
  forall project_root cfg p rel pre pattern post,
    relative_to p project_root = Ok rel ->
    protected_patterns cfg = pre ++ pattern :: post ->
    fst (parse_parts pattern) = false ->
    ~ In "**" (snd (parse_parts pattern)) ->
    anchored_match (snd (parse_parts pattern)) rel = true ->
    (Forall (fun q => empty_pattern q = false) (pre ++ [pattern]) ->
     is_protected project_root cfg p = Ok true) /\
    (forall t patterns files,
        find_files project_root cfg t patterns = Ok files ->
        ~ In p files).
Proof.
  intros project_root cfg p rel pre pattern post Hrel Hcfg Hroot Hno Hm.
  pose proof (anchored_plain _ _ Hno Hm) as Hall.
  split.
  - intros Hpre. apply Forall_app in Hpre as [Hpre Hpat].
    inversion Hpat as [|? ? Hne _]; subst.
    unfold is_protected. rewrite Hrel; simpl.
    rewrite Hcfg. apply any_match_true; [assumption|].
    apply pmatch_from_the_right. split; [assumption|]. split.
    + intros E. unfold empty_pattern in Hne.
      rewrite Hroot, E in Hne. discriminate.
    + exists [], rel. now split.
  - intros t patterns files Hf Hin.
    destruct (find_files_sound _ _ _ _ Hf _ Hin) as [Hp _].
    unfold is_protected in Hp. rewrite Hrel in Hp; simpl in Hp.
    assert (Hpm : pmatch rel pattern = Ok false).
    { apply (any_match_false _ _ Hp pattern).
      rewrite Hcfg. apply in_or_app. right; now left. }
    unfold pmatch in Hpm.
    destruct (parse_parts pattern) as [root pats]. simpl in *. subst root.
    simpl in Hpm.
    destruct (Nat.eqb (List.length pats) 0) eqn:E0; [discriminate|].
    apply Forall2_length in Hall as Hlen.
    rewrite Hlen, Nat.ltb_irrefl in Hpm.
    injection Hpm as Hz.
    assert (Hz' : zip_match (rev rel) (rev pats) = true).
    { apply zip_match_suffix; [lia|]. exists [], rel. now split. }
    congruence.
Qed.

Lemma C1_protected_never_found_witness :
  is_protected ["proj"] Examples.default_config ["proj"; "readme.md"]
  = Ok true /\
  (forall t patterns files,
      find_files ["proj"] Examples.default_config t patterns = Ok files ->
      ~ In ["proj"; "readme.md"] files).
Proof.
  destruct (@C1_protected_never_found ["proj"] Examples.default_config
              ["proj"; "readme.md"] ["readme.md"]
              ["examples/notebooks/*.ipynb"; "docs/**/*"; ".git/**/*"]
              "*.md"
              ["pyproject.toml"; "setup.cfg"; "Makefile"; "LICENSE"]
              eq_refl eq_refl eq_refl
              ltac:(simpl; intros [H|[]]; discriminate) eq_refl)
    as [H1 H2].
  split; [apply H1|exact H2].
  repeat constructor.
Defined.

(** *** Outside the project root *)

Lemma any_match_total :
  forall rel patterns,
    Forall (fun q => empty_pattern q = false) patterns ->
    exists b, any_match rel patterns = Ok b.
Proof.
  intros rel. induction patterns as [|pattern rest IH]; intros H.
  - now exists false.
  - inversion H as [|? ? Hp Hrest]; subst. simpl.
    destruct (pmatch_total rel pattern Hp) as [b ->]. simpl.
    destruct b; [now exists true|now apply IH].
Qed.

(** C9 (amended): [is_protected] tells by the components alone whether a
    path is outside the project root. On every path whose components do
    not begin with those of the project root it raises [ValueError] before
    it looks at any pattern: such a path is never reported as matched, but
    it is not handled without an exception. A path whose components do
    begin with those of the project root is checked against the patterns
    like any other, and without an exception when no protected pattern is
    empty, also when components [".."] lead it to a place outside the
    project root. The scanner only ever hands [is_protected] paths that
    [rglob] yields, whose components all begin with those of the project
    root. *)
Theorem C9_outside_root :
  forall project_root cfg,
    (forall p, is_prefix project_root p = false ->
               is_protected project_root cfg p = Raise ValueError) /\
    (forall rel,
        is_protected project_root cfg (project_root ++ rel)
        = any_match rel (protected_patterns cfg)) /\
    (forall rel,
        Forall (fun q => empty_pattern q = false) (protected_patterns cfg) ->
        exists b,
          is_protected project_root cfg (project_root ++ rel) = Ok b) /\
    (forall t pattern paths p,
        rglob t project_root pattern = Ok paths -> In p paths ->
        is_prefix project_root p = true) /\
    (forall t patterns files p,
        find_files project_root cfg t patterns = Ok files -> In p files ->
        is_prefix project_root p = true).
Proof.
  intros project_root cfg.
  assert (Hrel : forall rel,
             is_protected project_root cfg (project_root ++ rel)
             = any_match rel (protected_patterns cfg)).
  { intros rel. unfold is_protected.
    now rewrite (relative_to_app project_root rel). }
  split; [|split; [|split; [|split]]].
  - intros p H. unfold is_protected, relative_to. now rewrite H.
  - exact Hrel.
  - intros rel H. rewrite Hrel. now apply any_match_total.
  - intros t pattern paths p. apply rglob_prefix.
  - intros t patterns files p H Hin.
    eapply find_files_under_root; eassumption.
Qed.

Lemma C9_outside_root_witness :
  is_protected ["proj"] Examples.default_config ["etc"; "passwd"]
  = Raise ValueError /\
  (normal (["proj"] ++ [".."; "outside.log"]) = ["outside.log"] /\
   exists b,
     is_protected ["proj"] Examples.default_config
       (["proj"] ++ [".."; "outside.log"]) = Ok b) /\
  is_prefix ["proj"] ["proj"; "a"; "x.pyc"] = true.
Proof.
  split; [|split; [split|]].
  - apply (proj1 (C9_outside_root ["proj"] Examples.default_config)).
    reflexivity.
  - reflexivity.
  - apply (proj1 (proj2 (proj2 (C9_outside_root ["proj"]
                                  Examples.default_config)))).
    repeat constructor.
  - apply (proj1 (proj2 (proj2 (proj2
             (C9_outside_root ["proj"] Examples.default_config))))
             tree_home "*.pyc" [["proj"; "a"; "x.pyc"]]).
    + reflexivity.
    + now left.
Defined.

(** ** Further properties *)

Unset Implicit Arguments.

(** *** The order of paths and the result of the scan *)

Lemma str_compare_antisym :
  forall a b, str_compare b a = CompOpp (str_compare a b).
Proof.
  induction a as [|c a IH]; intros [|d b]; simpl; try reflexivity.
  rewrite (Nat.compare_antisym (nat_of_ascii c) (nat_of_ascii d)).
  destruct (Nat.compare (nat_of_ascii c) (nat_of_ascii d)); simpl; auto.
Qed.

Lemma path_compare_antisym :
  forall p q, path_compare q p = CompOpp (path_compare p q).
Proof.
  induction p as [|x p IH]; intros [|y q]; simpl; try reflexivity.
  rewrite (str_compare_antisym x y).
  destruct (str_compare x y); simpl; auto.
Qed.

Lemma str_compare_trans :
  forall a b c,
    str_compare a b = Lt -> str_compare b c = Lt -> str_compare a c = Lt.
Proof.
  induction a as [|x a IH]; intros [|y b] [|z c] H1 H2; simpl in *;
    try discriminate; try reflexivity.
  destruct (Nat.compare (nat_of_ascii x) (nat_of_ascii y)) eqn:E1;
    try discriminate;
    destruct (Nat.compare (nat_of_ascii y) (nat_of_ascii z)) eqn:E2;
    try discriminate.
  - apply Nat.compare_eq in E1, E2. rewrite E1, E2, Nat.compare_refl. eauto.
  - apply Nat.compare_eq in E1. now rewrite E1, E2.
  - apply Nat.compare_eq in E2. now rewrite <- E2, E1.
  - apply Nat.compare_lt_iff in E1, E2.
    assert (E : Nat.compare (nat_of_ascii x) (nat_of_ascii z) = Lt)
      by (apply Nat.compare_lt_iff; lia).
    now rewrite E.
Qed.

Lemma path_lt_trans :
  forall p q r, path_lt p q -> path_lt q r -> path_lt p r.
Proof.
  unfold path_lt.
  induction p as [|x p IH]; intros [|y q] [|z r] H1 H2; simpl in *;
    try discriminate; try reflexivity.
  destruct (str_compare x y) eqn:E1; try discriminate;
    destruct (str_compare y z) eqn:E2; try discriminate.
  - apply str_compare_eq in E1, E2. subst. rewrite str_compare_refl. eauto.
  - apply str_compare_eq in E1. subst. now rewrite E2.
  - apply str_compare_eq in E2. subst. now rewrite E1.
  - now rewrite (str_compare_trans _ _ _ E1 E2).
Qed.

Lemma path_compare_eq : forall p q, path_compare p q = Eq -> p = q.
Proof.
  intros p q H. apply path_eqb_eq. unfold path_eqb. now rewrite H.
Qed.

Lemma path_compare_refl : forall p, path_compare p p = Eq.
Proof.
  intros p. pose proof (path_eqb_refl p) as H. unfold path_eqb in H.
  destruct (path_compare p p); congruence.
Qed.

Lemma insert_sorted_complete :
  forall p ps q, q = p \/ In q ps -> In q (insert_sorted p ps).
Proof.
  induction ps as [|r ps IH]; intros q H; simpl.
  - destruct H as [->|[]]. now left.
  - destruct (path_compare p r) eqn:E.
    + apply path_compare_eq in E. subst r.
      destruct H as [->|H]; [now left|assumption].
    + destruct H as [->|H]; [now left|now right].
    + destruct H as [->|[->|H]].
      * right. apply IH. now left.
      * now left.
      * right. apply IH. now right.
Qed.

Lemma sorted_set_complete : forall ps q, In q ps -> In q (sorted_set ps).
Proof.
  induction ps as [|p ps IH]; intros q H; [contradiction|].
  simpl. apply insert_sorted_complete.
  destruct H as [->|H]; [now left|right; auto].
Qed.

Lemma insert_sorted_HdRel :
  forall q p ps,
    path_lt q p -> HdRel path_lt q ps -> HdRel path_lt q (insert_sorted p ps).
Proof.
  intros q p [|r ps] Hqp Hq; simpl; [now constructor|].
  inversion Hq; subst.
  destruct (path_compare p r); now constructor.
Qed.

Lemma insert_sorted_Sorted :
  forall p ps, Sorted path_lt ps -> Sorted path_lt (insert_sorted p ps).
Proof.
  induction ps as [|r ps IH]; intros H; simpl.
  - repeat constructor.
  - inversion H as [|? ? Hps Hr]; subst.
    destruct (path_compare p r) eqn:E.
    + assumption.
    + constructor; [assumption|now constructor].
    + constructor; [auto|].
      apply insert_sorted_HdRel; [|assumption].
      unfold path_lt. rewrite path_compare_antisym, E. reflexivity.
Qed.

Lemma sorted_set_Sorted : forall ps, Sorted path_lt (sorted_set ps).
Proof.
  induction ps as [|p ps IH]; simpl; [constructor|].
  now apply insert_sorted_Sorted.
Qed.

Lemma StronglySorted_NoDup :
  forall ps, StronglySorted path_lt ps -> NoDup ps.
Proof.
  induction 1 as [|p ps Hs IH Hall]; constructor; [|assumption].
  intros Hin. rewrite Forall_forall in Hall.
  specialize (Hall p Hin). unfold path_lt in Hall.
  rewrite path_compare_refl in Hall. discriminate.
Qed.

Lemma path_lt_prefix :
  forall p r, r <> [] -> path_lt p (p ++ r).
Proof.
  unfold path_lt.
  induction p as [|x p IH]; intros r Hr; simpl.
  - destruct r; [contradiction|reflexivity].
  - rewrite str_compare_refl. auto.
Qed.

(** X2: the list that [find_files] returns is in strictly increasing
    order of paths; so no path is in it twice, however many patterns select
    it, and a directory comes before everything that lies inside it. *)
Theorem find_files_sorted :
  forall project_root cfg t patterns files,
    find_files project_root cfg t patterns = Ok files ->
    StronglySorted path_lt files /\
    NoDup files /\
    (forall pre p r post,
        files = pre ++ p :: post -> r <> [] -> ~ In (p ++ r) pre).
Proof.
  intros project_root cfg t patterns files H. unfold find_files in H.
  destruct (find_loop project_root cfg t patterns []) as [found|];
    simpl in H; [|discriminate].
  injection H as <-.
  assert (Hs : StronglySorted path_lt (sorted_set found)).
  { apply Sorted_StronglySorted; [exact path_lt_trans|].
    apply sorted_set_Sorted. }
  split; [assumption|]. split; [now apply StronglySorted_NoDup|].
  intros pre p r post Heq Hr Hin.
  rewrite Heq in Hs. clear Heq.
  induction pre as [|q pre IH]; [contradiction|].
  simpl in Hs. inversion Hs as [|? ? Hs' Hall]; subst.
  destruct Hin as [->|Hin]; [|auto].
  rewrite Forall_forall in Hall.
  assert (Hlt : path_lt (p ++ r) p)
    by (apply Hall, in_or_app; right; now left).
  pose proof (path_lt_trans _ _ _ Hlt (path_lt_prefix p r Hr)) as Hc.
  unfold path_lt in Hc. rewrite path_compare_refl in Hc. discriminate.
Qed.

Lemma find_files_sorted_witness :
  NoDup [["a"]; ["a"; "x.pyc"]].
Proof.
  apply (proj1 (proj2 (@find_files_sorted [] Examples.default_config
                         Examples.tree ["*.pyc"; "a/"; "*.pyc"]
                         [["a"]; ["a"; "x.pyc"]] eq_refl))).
Defined.

Section ScannerComplete.
Variable project_root : path.
Variable cfg : config.

Lemma keep_unprotected_complete :
  forall kind t paths found found',
    keep_unprotected project_root cfg kind t paths found = Ok found' ->
    forall p,
      In p found \/
      (In p paths /\ kind t p = Ok true /\
       is_protected project_root cfg p = Ok false) ->
      In p found'.
Proof.
  induction paths as [|q paths IH]; intros found found' H p Hp; simpl in H.
  - injection H as <-. destruct Hp as [?|[[] _]]. assumption.
  - destruct (kind t q) as [[|]|] eqn:Hk; simpl in H; try discriminate.
    + destruct (is_protected project_root cfg q) as [[|]|] eqn:Hq;
        simpl in H; try discriminate.
      * apply (IH _ _ H).
        destruct Hp as [?|([->|?] & ? & ?)]; [now left|congruence|].
        right; auto.
      * apply (IH _ _ H).
        destruct Hp as [?|([->|?] & ? & ?)].
        -- left. apply in_or_app. now left.
        -- left. apply in_or_app. right. now left.
        -- right; auto.
    + apply (IH _ _ H).
      destruct Hp as [?|([->|?] & ? & ?)]; [now left|congruence|].
      right; auto.
Qed.

Lemma find_loop_complete :
  forall t patterns found found',
    find_loop project_root cfg t patterns found = Ok found' ->
    forall p,
      In p found \/
      (is_protected project_root cfg p = Ok false /\
       exists pattern,
         In pattern patterns /\ selected_by project_root t pattern p) ->
      In p found'.
Proof.
  induction patterns as [|pat patterns IH]; intros found found' H p Hp;
    simpl in H.
  - injection H as <-. destruct Hp as [?|[_ [? [[] _]]]]. assumption.
  - destruct (endswith_slash pat) eqn:Hs.
    + destruct (rglob t project_root (rstrip_by is_slash pat))
        as [paths|] eqn:Hg; simpl in H; [|discriminate].
      destruct (keep_unprotected project_root cfg is_dir t paths found)
        as [found1|] eqn:Hk; simpl in H; [|discriminate].
      apply (IH _ _ H).
      destruct Hp as [Hp|[Hprot [q [[<-|Hq] Hsel]]]].
      * left. apply (keep_unprotected_complete _ _ _ _ _ Hk). now left.
      * left. apply (keep_unprotected_complete _ _ _ _ _ Hk). right.
        unfold selected_by in Hsel. rewrite Hs in Hsel.
        destruct Hsel as [[paths' [Hg' Hin]] Hd].
        rewrite Hg in Hg'. injection Hg' as <-. auto.
      * right. split; [assumption|]. now exists q.
    + destruct (rglob t project_root pat) as [paths|] eqn:Hg; simpl in H;
        [|discriminate].
      destruct (keep_unprotected project_root cfg is_file t paths found)
        as [found1|] eqn:Hk; simpl in H; [|discriminate].
      apply (IH _ _ H).
      destruct Hp as [Hp|[Hprot [q [[<-|Hq] Hsel]]]].
      * left. apply (keep_unprotected_complete _ _ _ _ _ Hk). now left.
      * left. apply (keep_unprotected_complete _ _ _ _ _ Hk). right.
        unfold selected_by in Hsel. rewrite Hs in Hsel.
        destruct Hsel as [[paths' [Hg' Hin]] Hd].
        rewrite Hg in Hg'. injection Hg' as <-. auto.
      * right. split; [assumption|]. now exists q.
Qed.

End ScannerComplete.

(** X1: when [find_files] returns, its result holds exactly the paths
    that are not protected and that one of the patterns selects: for a
    pattern that ends in a slash, a directory that [rglob] yields for the
    pattern without its trailing slashes; for any other pattern, a regular
    file that [rglob] yields for it. *)
Theorem find_files_exactly :
  forall project_root cfg t patterns files,
    find_files project_root cfg t patterns = Ok files ->
    forall p,
      In p files <->
      is_protected project_root cfg p = Ok false /\
      exists pattern,
        In pattern patterns /\ selected_by project_root t pattern p.
Proof.
  intros project_root cfg t patterns files H p. split.
  - now apply find_files_sound.
  - intros Hp. unfold find_files in H.
    destruct (find_loop project_root cfg t patterns []) as [found|] eqn:Hl;
      simpl in H; [|discriminate].
    injection H as <-.
    apply sorted_set_complete.
    apply (find_loop_complete _ _ _ _ _ _ Hl). now right.
Qed.

Lemma find_files_exactly_witness :
  In ["a"; "x.pyc"] [["a"; "x.pyc"]] <->
  is_protected [] Examples.default_config ["a"; "x.pyc"] = Ok false /\
  exists pattern,
    In pattern ["*.pyc"; "*.md"] /\
    selected_by [] Examples.tree pattern ["a"; "x.pyc"].
Proof.
  apply (@find_files_exactly [] Examples.default_config Examples.tree
           ["*.pyc"; "*.md"] [["a"; "x.pyc"]] eq_refl).
Defined.

(** *** The protection check does not depend on the order of the patterns *)

Lemma any_match_existsb :
  forall rel patterns,
    Forall (fun q => empty_pattern q = false) patterns ->
    any_match rel patterns = Ok (existsb (matches_path rel) patterns).
Proof.
  induction patterns as [|q patterns IH]; intros H; [reflexivity|].
  inversion H as [|? ? Hq Hrest]; subst. simpl.
  unfold matches_path at 1.
  destruct (pmatch_total rel q Hq) as [b ->]. simpl.
  destruct b; [reflexivity|auto].
Qed.

Lemma existsb_Permutation :
  forall (A : Type) (f : A -> bool) l l',
    Permutation l l' -> existsb f l = existsb f l'.
Proof.
  intros A f l l' H.
  destruct (existsb f l) eqn:E1, (existsb f l') eqn:E2; try reflexivity.
  - apply existsb_exists in E1 as [x [Hx Hf]].
    assert (E : existsb f l' = true)
      by (apply existsb_exists; exists x; split;
          [eapply Permutation_in; eassumption|assumption]).
    congruence.
  - apply existsb_exists in E2 as [x [Hx Hf]].
    assert (E : existsb f l = true)
      by (apply existsb_exists; exists x; split;
          [eapply Permutation_in; [apply Permutation_sym|]; eassumption
          |assumption]).
    congruence.
Qed.

(** X3: when no protected pattern is empty, [is_protected] answers for
    a path below the project root whether one of the patterns matches its
    relative path, and it gives the same result for every other order of
    the same patterns. *)
Theorem is_protected_any_order :
  forall project_root cfg,
    Forall (fun q => empty_pattern q = false) (protected_patterns cfg) ->
    (forall p rel,
        relative_to p project_root = Ok rel ->
        is_protected project_root cfg p
        = Ok (existsb (matches_path rel) (protected_patterns cfg))) /\
    (forall cfg' p,
        Permutation (protected_patterns cfg) (protected_patterns cfg') ->
        is_protected project_root cfg' p = is_protected project_root cfg p).
Proof.
  intros project_root cfg Hne. split.
  - intros p rel Hrel. unfold is_protected. rewrite Hrel. simpl.
    now apply any_match_existsb.
  - intros cfg' p Hperm. unfold is_protected.
    destruct (relative_to p project_root) as [rel|]; [|reflexivity].
    simpl.
    assert (Hne' : Forall (fun q => empty_pattern q = false)
                     (protected_patterns cfg')).
    { rewrite Forall_forall in *. intros q Hq. apply Hne.
      eapply Permutation_in; [apply Permutation_sym|]; eassumption. }
    rewrite !any_match_existsb by assumption.
    f_equal. symmetry. now apply existsb_Permutation.
Qed.

Lemma is_protected_any_order_witness :
  let cfg' :=
    Config (rev (protected_patterns Examples.default_config))
      [] "cleanup_backups" true false in
  is_protected [] cfg' ["docs"; "readme.md"]
  = is_protected [] Examples.default_config ["docs"; "readme.md"].
Proof.
  intros cfg'.
  apply (proj2 (is_protected_any_order [] Examples.default_config
                  ltac:(repeat constructor))).
  apply Permutation_rev.
Defined.

(** *** What a run may change *)

Lemma stats_le_refl : forall s, stats_le s s.
Proof. intros s. unfold stats_le. lia. Qed.

Lemma stats_le_trans :
  forall s1 s2 s3, stats_le s1 s2 -> stats_le s2 s3 -> stats_le s1 s3.
Proof. unfold stats_le. intros s1 s2 s3 (?&?&?) (?&?&?). lia. Qed.

Lemma delete_path_plain_stats :
  forall project_root cfg clock p w,
    stats_le (st w)
      (st (fst (delete_path project_root cfg clock p false w))).
Proof.
  intros project_root cfg clock p w. unfold delete_path. run.
  destruct (get_file_size (fs w) p) as [size|e]; simpl;
    [|apply stats_le_refl].
  destruct (is_file (fs w) p) as [[|]|e]; simpl; [| |apply stats_le_refl].
  - destruct (unlink (fs w) p) as [t' [[]|e]]; simpl;
      [|apply stats_le_refl].
    unfold stats_le. simpl. lia.
  - destruct (is_dir (fs w) p) as [[|]|e]; simpl; [| |apply stats_le_refl].
    + destruct (rmtree (fs w) p) as [t' [[]|e]]; simpl;
        [|apply stats_le_refl].
      unfold stats_le. simpl. lia.
    + unfold stats_le. simpl. lia.
Qed.

Lemma delete_path_stats :
  forall project_root cfg clock p backup w,
    stats_le (st w)
      (st (fst (delete_path project_root cfg clock p backup w))).
Proof.
  intros project_root cfg clock p backup w.
  rewrite delete_path_after_backup.
  destruct (backup_step_frame project_root cfg clock p backup w)
    as (Hst & _).
  destruct (backup_step project_root cfg clock p backup w) as [w1 [u|e]];
    simpl in *.
  - rewrite <- Hst. apply delete_path_plain_stats.
  - rewrite Hst. apply stats_le_refl.
Qed.

Lemma delete_path_stdin :
  forall project_root cfg clock p backup w,
    stdin (fst (delete_path project_root cfg clock p backup w)) = stdin w.
Proof.
  intros project_root cfg clock p backup w.
  rewrite delete_path_after_backup.
  destruct (backup_step_frame project_root cfg clock p backup w)
    as (_ & Hin & _).
  destruct (backup_step project_root cfg clock p backup w) as [w1 [u|e]];
    simpl in *; [|assumption].
  destruct (delete_path project_root cfg clock p false w1) as [w2 r] eqn:E.
  apply delete_path_plain_outcome in E as (_ & _ & Hin' & _).
  simpl. congruence.
Qed.

Lemma delete_all_stats :
  forall project_root cfg clock files backup w,
    stats_le (st w)
      (st (fst (delete_all project_root cfg clock files backup w))) /\
    stdin (fst (delete_all project_root cfg clock files backup w)) = stdin w.
Proof.
  induction files as [|f files IH]; intros backup w; simpl.
  - split; [apply stats_le_refl|reflexivity].
  - pose proof (delete_path_stats project_root cfg clock f backup w) as Hs.
    pose proof (delete_path_stdin project_root cfg clock f backup w) as Hi.
    destruct (delete_path project_root cfg clock f backup w) as [w1 [u|e]];
      simpl in Hs, Hi.
    + destruct (IH backup w1) as [H1 H2].
      split; [eapply stats_le_trans; eassumption|congruence].
    + destruct (is_OSError e); simpl; [|now split].
      unfold bindM. simpl.
      match goal with
      | |- context [delete_all _ _ _ files backup ?w2] =>
          destruct (IH backup w2) as [H1 H2]
      end.
      simpl in H1, H2.
      split; [eapply stats_le_trans; eassumption|congruence].
Qed.

(** [clean_category], step by step. *)
Lemma clean_category_steps :
  forall project_root cfg clock category patterns dry_run backup interactive
         w,
    clean_category project_root cfg clock category patterns
      dry_run backup interactive w =
    match find_files project_root cfg (fs w) patterns with
    | Raise e => (w, Raise e)
    | Ok files =>
        match sum_sizes (fs w) files with
        | Raise e => (w, Raise e)
        | Ok total =>
            if nonempty files then
              let '(w2, r) :=
                show_items project_root (firstn 10 files)
                  (printed (FilesFound category (List.length files) total)
                     w) in
              match r with
              | Raise e => (w2, Raise e)
              | Ok _ =>
                  decide project_root cfg clock category files total
                    dry_run backup interactive
                    (if Nat.ltb 10 (List.length files)
                     then printed (AndMore (List.length files - 10)) w2
                     else w2)
              end
            else (printed (NoFilesFound category) w, Ok (files, total))
        end
    end.
Proof.
  intros project_root cfg clock category patterns dry_run backup interactive
         w.
  unfold clean_category, bindM, reading.
  destruct (find_files project_root cfg (fs w) patterns) as [files|];
    [|reflexivity].
  destruct (sum_sizes (fs w) files) as [total|]; [|reflexivity].
  destruct (nonempty files); [|reflexivity].
  cbn [negb].
  change (print (FilesFound category (List.length files) total) w)
    with (printed (FilesFound category (List.length files) total) w,
          @Ok unit tt).
  cbv iota beta.
  destruct (show_items project_root (firstn 10 files)
              (printed (FilesFound category (List.length files) total) w))
    as [w2 [u|e]]; [|reflexivity].
  unfold decide, proceed, printed, print, ret, input, bindM.
  destruct (Nat.ltb 10 (List.length files));
    (destruct dry_run; [reflexivity|]);
    destruct interactive; simpl;
    try (match goal with
         | |- context [stdin ?w3] => destruct (stdin w3) as [|line rest]
         end; [reflexivity|]; simpl;
         (destruct (String.eqb (strip (lower line)) "s") eqn:Es;
          [apply String.eqb_eq in Es; rewrite Es; reflexivity|]);
         (destruct (String.eqb (strip (lower line)) "y"); simpl;
          [|reflexivity]));
    match goal with
    | |- context [delete_all ?a1 ?a2 ?a3 ?a4 ?a5 ?a6] =>
        destruct (delete_all a1 a2 a3 a4 a5 a6) as [w5 [u5|e5]]
    end; reflexivity.
Qed.

Lemma proceed_stats :
  forall project_root cfg clock category files total backup w,
    let out := proceed project_root cfg clock category files total backup w in
    stats_le (st w) (st (fst out)) /\ stdin (fst out) = stdin w.
Proof.
  intros project_root cfg clock category files total backup w.
  unfold proceed.
  destruct (delete_all_stats project_root cfg clock files backup w)
    as [H1 H2].
  destruct (delete_all project_root cfg clock files backup w) as [w' [u|e]];
    simpl in *; now split.
Qed.

Lemma decide_stats :
  forall project_root cfg clock category files total dry_run backup
         interactive w,
    stats_le (st w)
      (st (fst (decide project_root cfg clock category files total
                  dry_run backup interactive w))).
Proof.
  intros project_root cfg clock category files total dry_run backup
         interactive w.
  unfold decide.
  destruct dry_run; [apply stats_le_refl|].
  destruct interactive.
  - destruct (stdin w) as [|line rest]; [apply stats_le_refl|].
    destruct (String.eqb (strip (lower line)) "y"); [|apply stats_le_refl].
    match goal with
    | |- context [proceed ?a1 ?a2 ?a3 ?a4 ?a5 ?a6 ?a7 ?a8] =>
        apply (proceed_stats a1 a2 a3 a4 a5 a6 a7 a8)
    end.
  - apply proceed_stats.
Qed.

Lemma clean_category_stats :
  forall project_root cfg clock category patterns dry_run backup interactive
         w,
    stats_le (st w)
      (st (fst (clean_category project_root cfg clock category patterns
                  dry_run backup interactive w))).
Proof.
  intros project_root cfg clock category patterns dry_run backup interactive
         w.
  rewrite clean_category_steps.
  destruct (find_files project_root cfg (fs w) patterns) as [files|];
    [|apply stats_le_refl].
  destruct (sum_sizes (fs w) files) as [total|]; [|apply stats_le_refl].
  destruct (nonempty files); [|apply stats_le_refl].
  match goal with
  | |- context [show_items ?a ?l ?w1] =>
      pose proof (show_items_only_printed a l w1) as Hs;
      destruct (show_items a l w1) as [w2 [u|e]]
  end; simpl in Hs.
  - match goal with
    | |- context [decide ?a1 ?a2 ?a3 ?a4 ?a5 ?a6 ?a7 ?a8 ?a9 ?w3] =>
        pose proof (decide_stats a1 a2 a3 a4 a5 a6 a7 a8 a9 w3) as Hd;
        assert (Hw3 : st w3 = st w)
          by (destruct (Nat.ltb 10 (List.length files)); op_solve)
    end.
    rewrite Hw3 in Hd. exact Hd.
  - assert (Hw2 : st w2 = st w) by op_solve.
    simpl. rewrite Hw2. apply stats_le_refl.
Qed.

Lemma run_loop_stats :
  forall project_root cfg clock categories dry_run backup interactive n m w,
    stats_le (st w)
      (st (fst (run_loop project_root cfg clock categories
                  dry_run backup interactive n m w))).
Proof.
  induction categories as [|c categories IH];
    intros dry_run backup interactive n m w; simpl.
  - apply stats_le_refl.
  - destruct (lookup c (cleanup_patterns cfg)) as [patterns|]; [|apply IH].
    unfold bindM.
    pose proof (clean_category_stats project_root cfg clock c patterns
                  dry_run backup interactive w) as Hc.
    destruct (clean_category project_root cfg clock c patterns
                dry_run backup interactive w) as [w1 [found|e]];
      simpl in Hc; [|assumption].
    eapply stats_le_trans; [exact Hc|apply IH].
Qed.

(** X4: the statistics are only ever counted up. Whatever the
    categories, the flags and the answers at the prompts are, and however
    the run ends, the three counters after [run_cleanup] are at least what
    they were before. *)
Theorem run_cleanup_counts_up :
  forall project_root cfg clock categories dry_run backup interactive w,
    stats_le (st w)
      (st (fst (run_cleanup project_root cfg clock categories
                  dry_run backup interactive w))).
Proof.
  intros project_root cfg clock categories dry_run backup interactive w.
  unfold run_cleanup, bindM.
  set (w1 := fst (print (Banner project_root) w)).
  change (print (Banner project_root) w) with (w1, @Ok unit tt).
  cbv iota beta.
  set (w2 := if dry_run then fst (print DryRunMode w1) else w1).
  assert (E2 : (if dry_run then print DryRunMode else ret tt) w1
               = (w2, Ok tt)) by (subst w2; now destruct dry_run).
  rewrite E2.
  set (w3 := if backup then fst (print BackupMode w2) else w2).
  assert (E3 : (if backup then print BackupMode else ret tt) w2
               = (w3, Ok tt)) by (subst w3; now destruct backup).
  rewrite E3.
  assert (H3 : st w3 = st w)
    by (subst w3 w2 w1; destruct dry_run, backup; reflexivity).
  pose proof (run_loop_stats project_root cfg clock categories
                dry_run backup interactive 0 0 w3) as Hl.
  rewrite H3 in Hl.
  destruct (run_loop project_root cfg clock categories
              dry_run backup interactive 0 0 w3) as [w4 [totals|e]];
    simpl in Hl; [|exact Hl].
  unfold get_stats, print. simpl.
  destruct dry_run; exact Hl.
Qed.

(** *** The prompt *)

Lemma decide_declined :
  forall project_root cfg clock category files total backup w,
    String.eqb (answer w) "y" = false ->
    let out :=
      decide project_root cfg clock category files total
        false backup true w in
    fs (fst out) = fs w /\ st (fst out) = st w /\ ticks (fst out) = ticks w.
Proof.
  intros project_root cfg clock category files total backup w H.
  unfold decide, answer in *.
  destruct (stdin w) as [|line rest]; [now repeat split|].
  simpl in H. rewrite H. now repeat split.
Qed.

(** X5: in interactive mode nothing is deleted unless the line read at
    the prompt is [y], in any letter case and with white space around it.
    With any other answer, or with no input left, the file system, the
    statistics and the clock are as they were, whether backup was asked for
    or not. *)
Theorem declined_changes_nothing :
  forall project_root cfg clock category patterns backup w,
    String.eqb (answer w) "y" = false ->
    let out :=
      clean_category project_root cfg clock category patterns
        false backup true w in
    fs (fst out) = fs w /\ st (fst out) = st w /\ ticks (fst out) = ticks w.
Proof.
  intros project_root cfg clock category patterns backup w H out.
  subst out. rewrite clean_category_steps.
  destruct (find_files project_root cfg (fs w) patterns) as [files|];
    [|now repeat split].
  destruct (sum_sizes (fs w) files) as [total|]; [|now repeat split].
  destruct (nonempty files); [|now repeat split].
  match goal with
  | |- context [show_items ?a ?l ?w1] =>
      pose proof (show_items_only_printed a l w1) as Hs;
      destruct (show_items a l w1) as [w2 [u|e]]
  end; simpl in Hs; [|op_solve].
  match goal with
  | |- context [decide ?a1 ?a2 ?a3 ?a4 ?a5 ?a6 ?a7 ?a8 ?a9 ?w3] =>
      assert (Hw3 : only_printed w w3)
        by (destruct (Nat.ltb 10 (List.length files)); op_solve);
      destruct (decide_declined a1 a2 a3 a4 a5 a6 a8 w3) as (H1 & H2 & H3)
  end.
  - unfold answer in *. destruct Hw3 as (_ & _ & _ & Hin). now rewrite Hin.
  - destruct Hw3 as (? & ? & ? & _). repeat split; congruence.
Qed.

Lemma declined_changes_nothing_witness :
  let w := Examples.start Examples.tree ["no"] in
  let out :=
    clean_category [] Examples.default_config Examples.ticking
      "python_compiled" ["*.pyc"; "*.pyo"] false true true w in
  fs (fst out) = fs w /\ st (fst out) = st w /\ ticks (fst out) = ticks w.
Proof.
  intros w.
  apply (declined_changes_nothing [] Examples.default_config
           Examples.ticking "python_compiled" ["*.pyc"; "*.pyo"] true w).
  reflexivity.
Defined.

(** X6: [clean_category] reads at most one line of standard input, and
    it reads none in dry-run mode, in non-interactive mode, or when the
    scan found nothing. *)
Theorem prompt_reads_one_line :
  forall project_root cfg clock category patterns dry_run backup interactive
         w,
    let out :=
      clean_category project_root cfg clock category patterns
        dry_run backup interactive w in
    stdin (fst out) = stdin w \/
    (dry_run = false /\ interactive = true /\
     (exists files,
         find_files project_root cfg (fs w) patterns = Ok files /\
         files <> []) /\
     stdin (fst out) = tl (stdin w)).
Proof.
  intros project_root cfg clock category patterns dry_run backup interactive
         w out.
  subst out. rewrite clean_category_steps.
  destruct (find_files project_root cfg (fs w) patterns) as [files|] eqn:Hf;
    [|now left].
  destruct (sum_sizes (fs w) files) as [total|]; [|now left].
  destruct (nonempty files) eqn:Hne; [|now left].
  match goal with
  | |- context [show_items ?a ?l ?w1] =>
      pose proof (show_items_only_printed a l w1) as Hs;
      destruct (show_items a l w1) as [w2 [u|e]]
  end; simpl in Hs; [|left; op_solve].
  match goal with
  | |- context [decide ?a1 ?a2 ?a3 ?a4 ?a5 ?a6 ?a7 ?a8 ?a9 ?w3] =>
      assert (Hw3 : stdin w3 = stdin w)
        by (destruct (Nat.ltb 10 (List.length files)); op_solve);
      generalize dependent w3
  end.
  intros w3 Hw3. unfold decide.
  destruct dry_run; [now left|].
  destruct interactive.
  - right. split; [reflexivity|]. split; [reflexivity|].
    split; [exists files; split; [reflexivity|];
            intros ->; discriminate|].
    rewrite <- Hw3.
    destruct (stdin w3) as [|line rest]; [reflexivity|].
    destruct (String.eqb (strip (lower line)) "y"); [|reflexivity].
    match goal with
    | |- context [proceed ?a1 ?a2 ?a3 ?a4 ?a5 ?a6 ?a7 ?a8] =>
        destruct (proceed_stats a1 a2 a3 a4 a5 a6 a7 a8) as [_ H]
    end.
    exact H.
  - left. rewrite <- Hw3.
    apply proceed_stats.
Qed.

(** *** Runs that only report *)

Lemma clean_category_dry :
  forall project_root cfg clock category patterns backup interactive w,
    only_printed w
      (fst (clean_category project_root cfg clock category patterns
              true backup interactive w)).
Proof.
  intros project_root cfg clock category patterns backup interactive w.
  rewrite clean_category_steps.
  destruct (find_files project_root cfg (fs w) patterns) as [files|];
    [|apply only_printed_refl].
  destruct (sum_sizes (fs w) files) as [total|]; [|apply only_printed_refl].
  destruct (nonempty files); [|op_solve].
  match goal with
  | |- context [show_items ?a ?l ?w1] =>
      pose proof (show_items_only_printed a l w1) as Hs;
      destruct (show_items a l w1) as [w2 [u|e]]
  end; simpl in Hs; [|op_solve].
  unfold decide.
  destruct (Nat.ltb 10 (List.length files)); op_solve.
Qed.

Lemma run_loop_dry :
  forall project_root cfg clock categories backup interactive n m w,
    only_printed w
      (fst (run_loop project_root cfg clock categories
              true backup interactive n m w)).
Proof.
  induction categories as [|c categories IH];
    intros backup interactive n m w; simpl.
  - apply only_printed_refl.
  - destruct (lookup c (cleanup_patterns cfg)) as [patterns|]; [|apply IH].
    unfold bindM.
    pose proof (clean_category_dry project_root cfg clock c patterns
                  backup interactive w) as Hc.
    destruct (clean_category project_root cfg clock c patterns
                true backup interactive w) as [w1 [found|e]];
      simpl in Hc; [|assumption].
    eapply only_printed_trans; [exact Hc|apply IH].
Qed.

(** X7: a whole run in dry-run mode only prints. For every list of
    categories, known or not, and whether or not it ends with an exception,
    [run_cleanup] leaves the file system and the statistics as they were,
    reads no input and does not look at the clock. *)
Theorem run_cleanup_dry_run :
  forall project_root cfg clock categories backup interactive w,
    only_printed w
      (fst (run_cleanup project_root cfg clock categories
              true backup interactive w)).
Proof.
  intros project_root cfg clock categories backup interactive w.
  unfold run_cleanup, bindM.
  set (w1 := fst (print (Banner project_root) w)).
  change (print (Banner project_root) w) with (w1, @Ok unit tt).
  cbv iota beta.
  set (w2 := fst (print DryRunMode w1)).
  change (print DryRunMode w1) with (w2, @Ok unit tt).
  cbv iota beta.
  set (w3 := if backup then fst (print BackupMode w2) else w2).
  assert (E3 : (if backup then print BackupMode else ret tt) w2
               = (w3, Ok tt)) by (subst w3; now destruct backup).
  rewrite E3.
  assert (H3 : only_printed w w3)
    by (subst w3 w2 w1; destruct backup; op_solve).
  pose proof (run_loop_dry project_root cfg clock categories
                backup interactive 0 0 w3) as Hl.
  destruct (run_loop project_root cfg clock categories
              true backup interactive 0 0 w3) as [w4 [totals|e]];
    simpl in Hl |- *; op_solve.
Qed.

Lemma list_loop_only_printed :
  forall project_root cfg d w,
    only_printed w (fst (list_loop project_root cfg d w)).
Proof.
  induction d as [|[category patterns] d IH]; intros w; simpl.
  - apply only_printed_refl.
  - run.
    destruct (find_files project_root cfg (fs w) patterns) as [files|];
      simpl; [|apply only_printed_refl].
    destruct (sum_sizes (fs w) files) as [total|]; simpl;
      [|apply only_printed_refl].
    match goal with
    | |- context [list_loop _ _ d ?w1] =>
        specialize (IH w1);
        destruct (list_loop project_root cfg d w1) as [w2 r]
    end; simpl in *. op_solve.
Qed.

(** X8: listing the categories only prints. [list_categories], and so
    [main] when it is called with [--list] and without [--save-config],
    leaves the file system and the statistics as they were, reads no input
    and never reaches the validation of category names. *)
Theorem list_only_prints :
  forall project_root cfg config_path config_text clock a w,
    arg_save_config a = false ->
    arg_list a = true ->
    main project_root cfg config_path config_text clock a w
    = list_categories project_root cfg w /\
    only_printed w (fst (list_categories project_root cfg w)).
Proof.
  intros project_root cfg config_path config_text clock a w Hs Hl.
  split.
  - unfold main. now rewrite Hs, Hl.
  - apply list_loop_only_printed.
Qed.

Lemma list_only_prints_witness :
  let w := Examples.start Examples.tree [] in
  only_printed w (fst (list_categories [] Examples.default_config w)).
Proof.
  intros w.
  apply (proj2 (list_only_prints [] Examples.default_config [".cleanrc"]
                  "{}" Examples.ticking
                  (Args ["bogus"] false false false true false) w
                  eq_refl eq_refl)).
Defined.

(** *** What a run can reach *)

Lemma delete_path_frame :
  forall project_root cfg clock p backup w g,
    unrelated g p = true ->
    (backup = true ->
     forall k,
       unrelated g
         (joinpath (joinpath project_root (backup_dir cfg)) (clock k))
       = true) ->
    resolve (fs (fst (delete_path project_root cfg clock p backup w))) g
    = resolve (fs w) g.
Proof.
  intros project_root cfg clock p backup w g Hp Hb.
  rewrite delete_path_after_backup.
  pose proof (@backup_step_leaves project_root cfg clock p backup w g Hb)
    as H1.
  destruct (backup_step project_root cfg clock p backup w) as [w1 [u|e]];
    simpl in H1; [|exact H1].
  destruct (delete_path project_root cfg clock p false w1) as [w2 r] eqn:E.
  simpl. rewrite <- H1.
  exact (@delete_path_plain_frame project_root cfg clock p w1 w2 r g E Hp).
Qed.

Lemma delete_all_frame :
  forall project_root cfg clock files backup g,
    (forall f, In f files -> unrelated g f = true) ->
    (backup = true ->
     forall k,
       unrelated g
         (joinpath (joinpath project_root (backup_dir cfg)) (clock k))
       = true) ->
    forall w,
      resolve (fs (fst (delete_all project_root cfg clock files backup w))) g
      = resolve (fs w) g.
Proof.
  intros project_root cfg clock files backup g Hfiles Hb.
  induction files as [|f files IH]; intros w; [reflexivity|].
  simpl.
  pose proof (delete_path_frame project_root cfg clock f backup w g
                (Hfiles f (or_introl eq_refl)) Hb) as H1.
  assert (IH' : forall w0,
             resolve
               (fs (fst (delete_all project_root cfg clock files backup w0)))
               g
             = resolve (fs w0) g)
    by (apply IH; intros f0 H0; apply Hfiles; now right).
  destruct (delete_path project_root cfg clock f backup w) as [w1 [u|e]];
    simpl in H1.
  - rewrite IH'. exact H1.
  - destruct (is_OSError e); [|exact H1].
    unfold bindM, print. simpl. rewrite IH'. exact H1.
Qed.

Lemma decide_frame :
  forall project_root cfg clock category files total dry_run backup
         interactive g,
    (forall f, In f files -> unrelated g f = true) ->
    (backup = true ->
     forall k,
       unrelated g
         (joinpath (joinpath project_root (backup_dir cfg)) (clock k))
       = true) ->
    forall w,
      resolve
        (fs (fst (decide project_root cfg clock category files total
                    dry_run backup interactive w))) g
      = resolve (fs w) g.
Proof.
  intros project_root cfg clock category files total dry_run backup
         interactive g Hfiles Hb.
  assert (Hp : forall w,
             resolve
               (fs (fst (proceed project_root cfg clock category files
                           total backup w))) g
             = resolve (fs w) g).
  { intros w. unfold proceed.
    pose proof (delete_all_frame project_root cfg clock files backup g
                  Hfiles Hb w) as H.
    destruct (delete_all project_root cfg clock files backup w)
      as [w' [u|e]]; exact H. }
  intros w. unfold decide.
  destruct dry_run; [reflexivity|].
  destruct interactive; [|apply Hp].
  destruct (stdin w) as [|line rest]; [reflexivity|].
  destruct (String.eqb (strip (lower line)) "y"); [|reflexivity].
  rewrite Hp. reflexivity.
Qed.

Lemma clean_category_frame :
  forall project_root cfg clock category patterns dry_run backup interactive
         w g,
    (forall files f,
        find_files project_root cfg (fs w) patterns = Ok files ->
        In f files -> unrelated g f = true) ->
    (backup = true ->
     forall k,
       unrelated g
         (joinpath (joinpath project_root (backup_dir cfg)) (clock k))
       = true) ->
    resolve
      (fs (fst (clean_category project_root cfg clock category patterns
                  dry_run backup interactive w))) g
    = resolve (fs w) g.
Proof.
  intros project_root cfg clock category patterns dry_run backup interactive
         w g Hfiles Hb.
  rewrite clean_category_steps.
  destruct (find_files project_root cfg (fs w) patterns) as [files|];
    [|reflexivity].
  specialize (Hfiles files).
  destruct (sum_sizes (fs w) files) as [total|]; [|reflexivity].
  destruct (nonempty files); [|reflexivity].
  match goal with
  | |- context [show_items ?a ?l ?w1] =>
      pose proof (show_items_only_printed a l w1) as Hs;
      destruct (show_items a l w1) as [w2 [u|e]]
  end; simpl in Hs.
  - rewrite (decide_frame project_root cfg clock category files total
               dry_run backup interactive g
               (fun f H => Hfiles f eq_refl H) Hb).
    assert (E : fs (if Nat.ltb 10 (List.length files)
                    then printed (AndMore (List.length files - 10)) w2
                    else w2) = fs w)
      by (destruct (Nat.ltb 10 (List.length files)); op_solve).
    now rewrite E.
  - assert (E : fs w2 = fs w) by op_solve.
    simpl. now rewrite E.
Qed.

(** X9: what [clean_category] can reach, in a file system without
    links, symbolic or hard, and when the project root, the patterns of
    the category and, with backup, the backup directories have no
    component [".."]. A path without such a component that lies neither above nor
    below one of the entries the scan found, and, with backup, neither
    above nor below a directory [project_root / backup_dir / timestamp],
    is after the call what it was before, in every mode and however the
    call ends. *)
Theorem clean_category_reach :
  forall project_root cfg clock category patterns dry_run backup interactive
         w g,
    plain project_root = true ->
    plain g = true ->
    Forall (fun s => plain_pattern s = true) patterns ->
    (backup = true ->
     forall k,
       plain (joinpath (joinpath project_root (backup_dir cfg)) (clock k))
       = true) ->
    (forall files f,
        find_files project_root cfg (fs w) patterns = Ok files ->
        In f files -> unrelated g f = true) ->
    (backup = true ->
     forall k,
       unrelated g
         (joinpath (joinpath project_root (backup_dir cfg)) (clock k))
       = true) ->
    resolve
      (fs (fst (clean_category project_root cfg clock category patterns
                  dry_run backup interactive w))) g
    = resolve (fs w) g.
Proof.
  intros project_root cfg clock category patterns dry_run backup interactive
         w g _ _ _ _ Hfiles Hb.
  now apply clean_category_frame.
Qed.

Lemma clean_category_reach_witness :
  let w := Examples.start Examples.tree [] in
  resolve
    (fs (fst (clean_category [] Examples.default_config Examples.ticking
                "python_compiled" ["*.pyc"; "*.pyo"] false true false w)))
    ["a"; "y.log"]
  = resolve (fs w) ["a"; "y.log"].
Proof.
  intros w.
  apply (clean_category_reach [] Examples.default_config Examples.ticking
           "python_compiled" ["*.pyc"; "*.pyo"] false true false w
           ["a"; "y.log"]).
  - reflexivity.
  - reflexivity.
  - repeat constructor.
  - intros _ k. destruct k as [|[|k]]; reflexivity.
  - intros files f Hf Hin.
    vm_compute in Hf. injection Hf as <-.
    destruct Hin as [<-|[]]. reflexivity.
  - intros _ k. destruct k as [|[|k]]; reflexivity.
Defined.

Lemma run_loop_frame :
  forall project_root cfg clock dry_run backup interactive g,
    unrelated g project_root = true ->
    (backup = true ->
     forall k,
       unrelated g
         (joinpath (joinpath project_root (backup_dir cfg)) (clock k))
       = true) ->
    forall categories n m w,
      resolve
        (fs (fst (run_loop project_root cfg clock categories
                    dry_run backup interactive n m w))) g
      = resolve (fs w) g.
Proof.
  intros project_root cfg clock dry_run backup interactive g Hg Hb.
  induction categories as [|c categories IH]; intros n m w; simpl.
  - reflexivity.
  - destruct (lookup c (cleanup_patterns cfg)) as [patterns|]; [|apply IH].
    unfold bindM.
    assert (Hc :
      resolve
        (fs (fst (clean_category project_root cfg clock c patterns
                    dry_run backup interactive w))) g
      = resolve (fs w) g).
    { apply clean_category_frame; [|exact Hb].
      intros files f Hf Hin.
      apply (@unrelated_extend g project_root f Hg).
      exact (@find_files_under_root project_root cfg (fs w) patterns files
               Hf f Hin). }
    destruct (clean_category project_root cfg clock c patterns
                dry_run backup interactive w) as [w1 [found|e]];
      simpl in Hc; [|exact Hc].
    rewrite IH. exact Hc.
Qed.

Lemma run_cleanup_frame :
  forall project_root cfg clock categories dry_run backup interactive w g,
    unrelated g project_root = true ->
    (backup = true ->
     forall k,
       unrelated g
         (joinpath (joinpath project_root (backup_dir cfg)) (clock k))
       = true) ->
    resolve
      (fs (fst (run_cleanup project_root cfg clock categories
                  dry_run backup interactive w))) g
    = resolve (fs w) g.
Proof.
  intros project_root cfg clock categories dry_run backup interactive w g
         Hg Hb.
  unfold run_cleanup, bindM.
  set (w1 := fst (print (Banner project_root) w)).
  change (print (Banner project_root) w) with (w1, @Ok unit tt).
  cbv iota beta.
  set (w2 := if dry_run then fst (print DryRunMode w1) else w1).
  assert (E2 : (if dry_run then print DryRunMode else ret tt) w1
               = (w2, Ok tt)) by (subst w2; now destruct dry_run).
  rewrite E2.
  set (w3 := if backup then fst (print BackupMode w2) else w2).
  assert (E3 : (if backup then print BackupMode else ret tt) w2
               = (w3, Ok tt)) by (subst w3; now destruct backup).
  rewrite E3.
  assert (H3 : fs w3 = fs w)
    by (subst w3 w2 w1; destruct dry_run, backup; reflexivity).
  pose proof (run_loop_frame project_root cfg clock dry_run backup
                interactive g Hg Hb categories 0 0 w3) as Hl.
  rewrite H3 in Hl.
  destruct (run_loop project_root cfg clock categories
              dry_run backup interactive 0 0 w3) as [w4 [totals|e]];
    simpl in Hl; [|exact Hl].
  unfold get_stats, print. simpl.
  destruct dry_run; exact Hl.
Qed.

(** X10: the script stays inside the project, in a file system without
    links, symbolic or hard, and when the project root, the patterns of
    all categories and, with [--backup], the backup directories have no
    component [".."]. Unless it is asked to save the configuration,
    [main] leaves every path alone that has no such component and lies
    neither above nor below the project root and, with [--backup], neither
    above nor below a directory [project_root / backup_dir / timestamp]:
    such a path is after the run what it was before, whatever the
    arguments and the answers are and however the run ends. *)
Theorem main_stays_inside :
  forall project_root cfg config_path config_text clock a w g,
    arg_save_config a = false ->
    plain project_root = true ->
    plain g = true ->
    (forall category patterns pattern,
        In (category, patterns) (cleanup_patterns cfg) ->
        In pattern patterns -> plain_pattern pattern = true) ->
    (arg_backup a = true ->
     forall k,
       plain (joinpath (joinpath project_root (backup_dir cfg)) (clock k))
       = true) ->
    unrelated g project_root = true ->
    (arg_backup a = true ->
     forall k,
       unrelated g
         (joinpath (joinpath project_root (backup_dir cfg)) (clock k))
       = true) ->
    resolve
      (fs (fst (main project_root cfg config_path config_text clock a w))) g
    = resolve (fs w) g.
Proof.
  intros project_root cfg config_path config_text clock a w g Hs _ _ _ _
         Hg Hb.
  unfold main. rewrite Hs.
  destruct (arg_list a).
  - destruct (list_loop_only_printed project_root cfg
                (cleanup_patterns cfg) w) as [E _].
    unfold list_categories. now rewrite E.
  - cbv zeta.
    match goal with
    | |- context [nonempty (filter ?f ?l)] =>
        destruct (nonempty (filter f l))
    end.
    + reflexivity.
    + now apply run_cleanup_frame.
Qed.

Lemma main_stays_inside_witness :
  let w := Examples.start tree_home [] in
  resolve
    (fs (fst (main ["proj"] Examples.default_config ["proj"; ".cleanrc"]
                "{}" Examples.ticking
                (Args ["python_compiled"; "logs"] false true true false false)
                w)))
    ["other"]
  = resolve (fs w) ["other"].
Proof.
  intros w.
  apply (main_stays_inside ["proj"] Examples.default_config
           ["proj"; ".cleanrc"] "{}" Examples.ticking
           (Args ["python_compiled"; "logs"] false true true false false)
           w ["other"]).
  - reflexivity.
  - reflexivity.
  - reflexivity.
  - intros category patterns pattern Hc Hp.
    repeat (destruct Hc as [Hc|Hc];
            [injection Hc as <- <-;
             repeat (destruct Hp as [<-|Hp]; [reflexivity|]);
             destruct Hp|]).
    destruct Hc.
  - intros _ k. destruct k as [|[|k]]; reflexivity.
  - reflexivity.
  - intros _ k. destruct k as [|[|k]]; reflexivity.
Defined.

(** *** The command line *)

Lemma filter_nil :
  forall (A : Type) (f : A -> bool) (l : list A),
    filter f l = [] <-> Forall (fun x => f x = false) l.
Proof.
  intros A f l. induction l as [|x l IH]; simpl.
  - split; [constructor|reflexivity].
  - destruct (f x) eqn:E; split; intros H.
    + discriminate.
    + inversion H. congruence.
    + constructor; [assumption|]. now apply IH.
    + inversion H. now apply IH.
Qed.

Lemma keys_known :
  forall (V : Type) (d : list (string * V)),
    Forall (fun c => mem c (keys d) = true) (keys d).
Proof.
  intros V d. apply Forall_forall. intros c H. now apply mem_In.
Qed.

(** X11: [main] checks the category names before anything is touched.
    Without [--save-config] and [--list]: when every name on the command
    line is a key of [cleanup_patterns], [main] is [run_cleanup] on these
    names, or on all the keys when no name is given; when one name is not,
    [main] ends with [SystemExit(1)] having only printed, so that not even
    the known categories named with it are cleaned. *)
Theorem main_validates :
  forall project_root cfg config_path config_text clock a w,
    arg_save_config a = false ->
    arg_list a = false ->
    let known c := mem c (keys (cleanup_patterns cfg)) in
    let out := main project_root cfg config_path config_text clock a w in
    (Forall (fun c => known c = true) (arg_categories a) ->
     out =
     run_cleanup project_root cfg clock
       (if nonempty (arg_categories a) then arg_categories a
        else keys (cleanup_patterns cfg))
       (arg_dry_run a) (arg_backup a) (negb (arg_no_interactive a)) w) /\
    (Exists (fun c => known c = false) (arg_categories a) ->
     snd out = Raise (SystemExit 1) /\ only_printed w (fst out)).
Proof.
  intros project_root cfg config_path config_text clock a w Hs Hl known out.
  subst out. unfold main. rewrite Hs, Hl. cbv zeta.
  set (categories :=
         if nonempty (arg_categories a) then arg_categories a
         else keys (cleanup_patterns cfg)).
  split.
  - intros Hall.
    assert (Hc : Forall (fun c => known c = true) categories).
    { subst categories. destruct (nonempty (arg_categories a));
        [assumption|apply keys_known]. }
    assert (E : filter (fun c => negb (known c)) categories = []).
    { apply filter_nil. eapply Forall_impl; [|exact Hc].
      simpl. intros c H. now rewrite H. }
    subst known. simpl in E. rewrite E. reflexivity.
  - intros Hex.
    assert (En : nonempty (arg_categories a) = true)
      by (destruct (arg_categories a); [inversion Hex|reflexivity]).
    subst categories. rewrite En.
    destruct (filter (fun c => negb (known c)) (arg_categories a))
      as [|c0 bad] eqn:E.
    + apply filter_nil in E. apply Exists_exists in Hex.
      destruct Hex as (c & Hin & Hc).
      rewrite Forall_forall in E. specialize (E c Hin).
      simpl in E. rewrite Hc in E. discriminate.
    + subst known. simpl in E. rewrite E. simpl.
      split; [reflexivity|]. unfold only_printed. simpl. now repeat split.
Qed.

Lemma main_validates_witness :
  let w := Examples.start Examples.tree [] in
  let out :=
    main [] Examples.default_config [".cleanrc"] "{}" Examples.ticking
      (Args ["logs"; "bogus"] false false true false false) w in
  snd out = Raise (SystemExit 1) /\ only_printed w (fst out).
Proof.
  intros w.
  apply (proj2 (main_validates [] Examples.default_config [".cleanrc"] "{}"
                  Examples.ticking
                  (Args ["logs"; "bogus"] false false true false false) w
                  eq_refl eq_refl)).
  apply Exists_cons_tl. apply Exists_cons_hd. reflexivity.
Defined.

(** *** Operations that fail *)

Lemma set_entry_same :
  forall x c es, find_entry x es = Some c -> set_entry x c es = es.
Proof.
  induction es as [|[y n] es IH]; simpl; intros H; [discriminate|].
  destruct (String.eqb x y).
  - now injection H as ->.
  - now rewrite IH.
Qed.

Lemma remove_entry_absent :
  forall x es, find_entry x es = None -> remove_entry x es = es.
Proof.
  induction es as [|[y n] es IH]; simpl; intros H; [reflexivity|].
  destruct (String.eqb x y); [discriminate|]. now rewrite IH.
Qed.

Lemma put_entry_same :
  forall x es, put_entry x (find_entry x es) es = es.
Proof.
  intros x es. unfold put_entry.
  destruct (find_entry x es) as [c|] eqn:E.
  - now apply set_entry_same.
  - now apply remove_entry_absent.
Qed.

Lemma alter_fails_cleanly :
  forall f, fails_cleanly f ->
    forall p t e, snd (alter t p f) = Raise e -> fst (alter t p f) = t.
Proof.
  intros f Hf. induction p as [|x p IH]; intros t e H; [reflexivity|].
  destruct t as [data|m es]; [reflexivity|].
  rewrite alter_cons in *.
  destruct (can_search m); [|reflexivity].
  destruct p as [|y p].
  - destruct (f m (find_entry x es)) as [o r] eqn:E. simpl in *. subst r.
    apply Hf in E. subst o. now rewrite put_entry_same.
  - destruct (find_entry x es) as [c|] eqn:Ec; [|reflexivity].
    specialize (IH c e).
    destruct (alter c (y :: p) f) as [c' r]. simpl in *.
    rewrite (IH H). now rewrite set_entry_same.
Qed.

Lemma unlink_op_fails_cleanly : fails_cleanly unlink_op.
Proof.
  intros m [[data|m' es]|] o' e H; simpl in H.
  - destruct (can_write m); [discriminate|]. now injection H as <-.
  - now injection H as <-.
  - now injection H as <-.
Qed.

Lemma write_op_fails_cleanly : forall data, fails_cleanly (write_op data).
Proof.
  intros data m [[d|m' es]|] o' e H; simpl in H.
  - discriminate.
  - now injection H as <-.
  - destruct (can_write m); [discriminate|]. now injection H as <-.
Qed.

(** X12: [save_config] never raises. Either the file at [config_path]
    now holds the text of the configuration and the success is reported,
    or the file system is exactly as it was and the error is reported. In
    both cases no path beside [config_path] (neither above nor below it)
    has changed, and the statistics, the clock and the input are as
    before. *)
Theorem save_config_outcome :
  forall config_path config_text w,
    let out := save_config config_path config_text w in
    snd out = Ok tt /\
    st (fst out) = st w /\ ticks (fst out) = ticks w /\
    stdin (fst out) = stdin w /\
    (forall g, unrelated g config_path = true ->
               resolve (fs (fst out)) g = resolve (fs w) g) /\
    ((resolve (fs (fst out)) config_path = Ok (File config_text) /\
      stdout (fst out) = stdout w ++ [ConfigSaved config_path]) \/
     (exists e,
         fs (fst out) = fs w /\
         stdout (fst out) = stdout w ++ [ErrorSavingConfig e])).
Proof.
  intros config_path config_text w out. subst out.
  unfold save_config, changing.
  pose proof (@alter_os_only (write_op config_text)
                (write_op_os_only config_text) config_path (fs w)) as Hos.
  pose proof (alter_fails_cleanly (write_op config_text)
                (write_op_fails_cleanly config_text) config_path (fs w))
    as Hclean.
  pose proof (fun g => @alter_frame (write_op config_text) config_path
                         (fs w) g) as Hframe.
  pose proof (@alter_written config_text config_path (fs w)) as Hw.
  destruct (alter (fs w) config_path (write_op config_text)) as [t' [[]|e]];
    simpl in *.
  - repeat split; try reflexivity; [exact Hframe|].
    left. split; [now apply Hw|reflexivity].
  - rewrite (Hos e eq_refl). simpl.
    repeat split; try reflexivity; [exact Hframe|].
    right. exists e. split; [exact (Hclean e eq_refl)|reflexivity].
Qed.

(** X13: a deletion that fails on something that is not a directory
    changes nothing. When [delete_path], without backup, raises for a path
    that is not a directory, the file system and the statistics are
    exactly as they were before the call. *)
Theorem failed_unlink_changes_nothing :
  forall project_root cfg clock p w e,
    snd (delete_path project_root cfg clock p false w) = Raise e ->
    is_dir (fs w) p <> Ok true ->
    fs (fst (delete_path project_root cfg clock p false w)) = fs w /\
    st (fst (delete_path project_root cfg clock p false w)) = st w.
Proof.
  intros project_root cfg clock p w e H Hd.
  unfold delete_path in *. run.
  destruct (get_file_size (fs w) p) as [size|]; simpl in *;
    [|now split].
  destruct (is_file (fs w) p) as [[|]|]; simpl in *; [| |now split].
  - pose proof (alter_fails_cleanly unlink_op unlink_op_fails_cleanly
                  p (fs w)) as Hclean.
    unfold unlink in *.
    destruct (alter (fs w) p unlink_op) as [t' [[]|e']]; simpl in *;
      [discriminate|].
    split; [exact (Hclean e' eq_refl)|reflexivity].
  - destruct (is_dir (fs w) p) as [[|]|]; simpl in *;
      [congruence|discriminate|now split].
Qed.

Lemma failed_unlink_changes_nothing_witness :
  let w := Examples.start Examples.tree_locked [] in
  let out :=
    delete_path [] Examples.default_config Examples.ticking
      ["locked"; "b.log"] false w in
  snd out = Raise (OSError EACCES) /\
  fs (fst out) = fs w /\ st (fst out) = st w.
Proof.
  intros w. split; [reflexivity|].
  apply (failed_unlink_changes_nothing [] Examples.default_config
           Examples.ticking ["locked"; "b.log"] w (OSError EACCES)).
  - reflexivity.
  - discriminate.
Defined.

(** X14: a regular file is lost only through an entry that was found,
    in a file system without links, symbolic or hard, and when the
    project root, the patterns of the category, the path of the file and,
    with backup, the backup directories have no component [".."]. A regular file that
    is not one of the entries the scan of [clean_category] found, and does
    not lie inside one of them, is after the call where it was, with its
    contents, in every mode and however the call ends (with backup:
    provided it does not lie inside one of the backup directories, where
    a copy may overwrite it). *)
Theorem unfound_file_survives :
  forall project_root cfg clock category patterns dry_run backup interactive
         w g data,
    plain project_root = true ->
    plain g = true ->
    Forall (fun s => plain_pattern s = true) patterns ->
    (backup = true ->
     forall k,
       plain (joinpath (joinpath project_root (backup_dir cfg)) (clock k))
       = true) ->
    resolve (fs w) g = Ok (File data) ->
    (forall files f,
        find_files project_root cfg (fs w) patterns = Ok files ->
        In f files -> is_prefix f g = false) ->
    (backup = true ->
     forall k,
       unrelated g
         (joinpath (joinpath project_root (backup_dir cfg)) (clock k))
       = true) ->
    resolve
      (fs (fst (clean_category project_root cfg clock category patterns
                  dry_run backup interactive w))) g
    = Ok (File data).
Proof.
  intros project_root cfg clock category patterns dry_run backup interactive
         w g data _ _ _ _ Hg Hfiles Hb.
  rewrite <- Hg.
  apply clean_category_frame; [|exact Hb].
  intros files f Hf Hin.
  pose proof (Hfiles files f Hf Hin) as Hfg.
  unfold unrelated. rewrite Hfg, andb_true_r. apply negb_true_iff.
  assert (Hne : g <> f).
  { intros ->. now rewrite is_prefix_refl in Hfg. }
  assert (Hex : exists n, resolve (fs w) f = Ok n).
  { destruct (@find_files_present project_root cfg (fs w) patterns files
                Hf f Hin) as [H|H].
    - unfold is_file, test_path in H.
      destruct (resolve (fs w) f) as [n|e]; [now exists n|].
      destruct (ignore_error e); discriminate.
    - unfold is_dir, test_path in H.
      destruct (resolve (fs w) f) as [n|e]; [now exists n|].
      destruct (ignore_error e); discriminate. }
  destruct Hex as [n Hn].
  exact (@file_not_prefix (fs w) g f data n Hg Hn Hne).
Qed.

Lemma unfound_file_survives_witness :
  let w := Examples.start Examples.tree [] in
  resolve
    (fs (fst (clean_category [] Examples.default_config Examples.ticking
                "python_compiled" ["*.pyc"; "*.pyo"] false true false w)))
    ["docs"; "readme.md"]
  = Ok (File "hello").
Proof.
  intros w.
  apply (unfound_file_survives [] Examples.default_config Examples.ticking
           "python_compiled" ["*.pyc"; "*.pyo"] false true false w
           ["docs"; "readme.md"] "hello").
  - reflexivity.
  - reflexivity.
  - repeat constructor.
  - intros _ k. destruct k as [|[|k]]; reflexivity.
  - reflexivity.
  - intros files f Hf Hin.
    vm_compute in Hf. injection Hf as <-.
    destruct Hin as [<-|[]]. reflexivity.
  - intros _ k. destruct k as [|[|k]]; reflexivity.
Defined.

(** *** The configuration file *)

Import Loader.

Lemma lookup_mem :
  forall (V : Type) key (d : list (string * V)),
    mem key (keys d) = false -> lookup key d = None.
Proof.
  intros V key d. induction d as [|[k v] d IH]; simpl; [reflexivity|].
  destruct (String.eqb key k); simpl; [discriminate|exact IH].
Qed.

Lemma lookup_set_item :
  forall key k v d,
    lookup key (set_item k v d)
    = if String.eqb key k then Some v else lookup key d.
Proof.
  intros key k v d. induction d as [|[k0 v0] d IH]; simpl.
  - reflexivity.
  - destruct (String.eqb k k0) eqn:E; simpl.
    + apply String.eqb_eq in E. subst k0.
      destruct (String.eqb key k); reflexivity.
    + destruct (String.eqb key k0) eqn:E0.
      * apply String.eqb_eq in E0. subst k0.
        rewrite String.eqb_sym, E. reflexivity.
      * exact IH.
Qed.

Lemma mem_set_item :
  forall key k v d,
    mem key (keys (set_item k v d))
    = String.eqb key k || mem key (keys d).
Proof.
  intros key k v d. induction d as [|[k0 v0] d IH]; simpl.
  - reflexivity.
  - destruct (String.eqb k k0) eqn:E; simpl.
    + apply String.eqb_eq in E. subst k0.
      destruct (String.eqb key k); reflexivity.
    + rewrite IH.
      destruct (String.eqb key k0), (String.eqb key k); reflexivity.
Qed.

Lemma merge_object :
  forall defaults d,
    exists d',
      merge defaults (JObject d) = Done (JObject d') /\
      forall key,
        lookup key d' =
        match lookup key d with
        | Some v => Some v
        | None => lookup key defaults
        end.
Proof.
  induction defaults as [|[k v] defaults IH]; intros d.
  - exists d. split; [reflexivity|].
    intros key. now destruct (lookup key d).
  - simpl. destruct (mem k (keys d)) eqn:Ek.
    + destruct (IH d) as (d' & Hm & Hl).
      exists d'. split; [exact Hm|].
      intros key. rewrite Hl.
      destruct (lookup key d) eqn:Ed; [reflexivity|].
      destruct (String.eqb key k) eqn:E; [|reflexivity].
      apply String.eqb_eq in E. subst key.
      apply lookup_None_mem in Ed. congruence.
    + destruct (IH (set_item k v d)) as (d' & Hm & Hl).
      exists d'. split; [exact Hm|].
      intros key. rewrite Hl, lookup_set_item.
      destruct (String.eqb key k) eqn:E.
      * apply String.eqb_eq in E. subst key.
        now rewrite (lookup_mem _ k d Ek).
      * reflexivity.
Qed.

Lemma merge_keeps :
  forall key defaults config c,
    contains config key = Done true ->
    merge defaults config = Done c ->
    contains c key = Done true.
Proof.
  intros key. induction defaults as [|[k v] defaults IH];
    intros config c Hc Hm; simpl in Hm.
  - now injection Hm as <-.
  - destruct (contains config k) as [[|]|e] eqn:Ek; [| |discriminate].
    + exact (IH config c Hc Hm).
    + destruct config as [| | | |l|d]; simpl in Hm; try discriminate.
      apply (IH (JObject (set_item k v d)) c); [|exact Hm].
      simpl in *. injection Hc as Hc.
      now rewrite mem_set_item, Hc, orb_true_r.
Qed.

Lemma merge_contains :
  forall defaults config c,
    merge defaults config = Done c ->
    Forall (fun key => contains c key = Done true) (keys defaults).
Proof.
  induction defaults as [|[k v] defaults IH]; intros config c Hm; simpl.
  - constructor.
  - simpl in Hm.
    destruct (contains config k) as [[|]|e] eqn:Ek; [| |discriminate].
    + constructor; [|exact (IH config c Hm)].
      exact (merge_keeps k defaults config c Ek Hm).
    + destruct config as [| | | |l|d]; simpl in Hm; try discriminate.
      constructor; [|exact (IH _ c Hm)].
      apply (merge_keeps k defaults (JObject (set_item k v d)) c);
        [|exact Hm].
      simpl. now rewrite mem_set_item, String.eqb_refl.
Qed.

Lemma open_read_os_only :
  forall t p e, open_read t p = Raise e -> exists n, e = OSError n.
Proof.
  intros t p e H. unfold open_read in H.
  pose proof (resolve_os_only p t) as Hos.
  destruct (resolve t p) as [[data|m es]|e0]; [discriminate| |].
  - injection H as <-. now exists EISDIR.
  - injection H as <-. specialize (Hos e0 eq_refl).
    destruct e0; try discriminate. now eexists.
Qed.

(** X15: a configuration file that holds a JSON object is merged with
    the defaults key by key. [load_config] returns, without a warning, a
    dictionary in which every key of the file has the value of the file,
    taken as a whole and whatever its type, every other key of the
    defaults has its default value, and no further key is present. *)
Theorem load_config_merges :
  forall loads p t data d,
    resolve t p = Ok (File data) ->
    loads data = Parsed (JObject d) ->
    exists d',
      load_config loads (AsPath p) t = ([], Done (JObject d')) /\
      forall key,
        lookup key d' =
        match lookup key d with
        | Some v => Some v
        | None => lookup key (items default_config)
        end.
Proof.
  intros loads p t data d Hr Hl.
  destruct (merge_object (items default_config) d) as (d' & Hm & Hk).
  exists d'. split; [|exact Hk].
  unfold load_config, exists_, test_path, open_read.
  rewrite Hr, Hl, Hm. reflexivity.
Qed.

Lemma load_config_merges_witness :
  exists d',
    load_config sample_loads (AsPath [".cleanrc"]) tree_configured
    = ([], Done (JObject d')) /\
    forall key,
      lookup key d' =
      match lookup key [("backup_dir", JString "old")] with
      | Some v => Some v
      | None => lookup key (items default_config)
      end.
Proof.
  apply (load_config_merges sample_loads [".cleanrc"] tree_configured
           sample_text [("backup_dir", JString "old")]);
    reflexivity.
Defined.

(** X16: whatever [load_config] returns answers [key in config] with
    [True] for each of the five keys of the defaults: the keys the file
    lacks have been added, or the defaults themselves are returned. *)
Theorem load_config_has_every_key :
  forall loads config_path t out config,
    load_config loads config_path t = (out, Done config) ->
    Forall (fun key => contains config key = Done true)
      ["protected_patterns"; "cleanup_patterns"; "backup_dir";
       "interactive"; "dry_run"].
Proof.
  intros loads config_path t out config H.
  assert (Hd : Forall (fun key => contains default_config key = Done true)
                 (keys (items default_config)))
    by (repeat constructor).
  unfold load_config in H.
  destruct config_path as [s|p]; [discriminate|].
  destruct (exists_ t p) as [[|]|e]; [| |discriminate].
  - destruct (open_read t p) as [data|[n| | | | |]]; try discriminate.
    + destruct (loads data) as [v| |[| | |[n| | | | |]]];
        try discriminate.
      * injection H as _ H.
        exact (merge_contains (items default_config) v config H).
      * injection H as _ <-. exact Hd.
      * injection H as _ <-. exact Hd.
    + injection H as _ <-. exact Hd.
  - injection H as _ <-. exact Hd.
Qed.

Lemma load_config_has_every_key_witness :
  Forall
    (fun key =>
       contains
         (match snd (load_config sample_loads (AsPath [".cleanrc"])
                       tree_configured) with
          | Done config => config
          | Fail _ => JNull
          end) key = Done true)
    ["protected_patterns"; "cleanup_patterns"; "backup_dir";
     "interactive"; "dry_run"].
Proof.
  apply (load_config_has_every_key sample_loads (AsPath [".cleanrc"])
           tree_configured []).
  reflexivity.
Defined.

(** X17: the exceptions that come out of [load_config]. Once
    [exists()] has answered, an exception comes out only for a regular
    file that could be opened, and it is either the exception with which
    [json.load] ended, passed on unchanged when it is neither a
    [JSONDecodeError] nor an [OSError] (a [UnicodeDecodeError], for
    bytes that are no text, is one), or a [TypeError], for a file that
    holds valid JSON which is not an object. A missing file, a file that
    cannot be opened, a malformed text and any object give a
    configuration; an exception of [json.load] that the [except] clause
    does not name always comes out. *)
Theorem load_config_raises_only :
  forall loads p t,
    (forall b e,
        exists_ t p = Ok b ->
        snd (load_config loads (AsPath p) t) = Fail e ->
        exists data,
          resolve t p = Ok (File data) /\
          ((loads data = Broken e /\ forall n, e <> Other (OSError n)) \/
           (e = TypeError /\
            exists v, loads data = Parsed v /\ forall d, v <> JObject d))) /\
    (forall data e,
        resolve t p = Ok (File data) ->
        loads data = Broken e ->
        (forall n, e <> Other (OSError n)) ->
        load_config loads (AsPath p) t = ([], Fail e)).
Proof.
  intros loads p t. split.
  - intros b e Hb H.
    unfold load_config in H. rewrite Hb in H.
    destruct b; [|discriminate].
    destruct (open_read t p) as [data|e0] eqn:Eo.
    + assert (Hr : resolve t p = Ok (File data)).
      { unfold open_read in Eo.
        destruct (resolve t p) as [[data0|m es]|e1]; try discriminate.
        now injection Eo as ->. }
      exists data. split; [exact Hr|].
      destruct (loads data) as [v| |e1] eqn:El; [| discriminate |].
      * right. cbn [snd] in H.
        assert (Hv : forall d, v <> JObject d).
        { intros d ->.
          destruct (merge_object (items default_config) d)
            as (d' & Hm & _).
          rewrite Hm in H. discriminate. }
        split; [|exists v; now split].
        clear Hv El Hr Eo Hb.
        revert v H.
        generalize (items default_config) as defaults.
        induction defaults as [|[k x] defaults IH]; intros v H;
          simpl in H; [discriminate|].
        destruct v as [|b0|lit|s|l|d]; simpl in H;
          try (now injection H as <-).
        -- destruct (is_substring k s);
             [exact (IH _ H)|now injection H as <-].
        -- destruct (existsb (is_string k) l);
             [exact (IH _ H)|now injection H as <-].
        -- destruct (merge_object ((k, x) :: defaults) d)
             as (d' & Hm & _).
           simpl in Hm. rewrite Hm in H. discriminate.
      * left.
        destruct e1 as [| | |[n| | | | |]]; cbn [snd] in H;
          try discriminate; injection H as <-;
          (split; [reflexivity|intros n; discriminate]).
    + destruct (open_read_os_only t p e0 Eo) as [n ->]. discriminate.
  - intros data e Hr Hl Hn.
    unfold load_config, exists_, test_path, open_read.
    rewrite Hr, Hl.
    destruct e as [| | |[n| | | | |]]; try reflexivity.
    exfalso. exact (Hn n eq_refl).
Qed.

Lemma load_config_raises_only_witness :
  let t := Dir rwx [(".cleanrc", File "[]")] in
  let u := Dir rwx [(".cleanrc", File (String (Ascii.ascii_of_nat 255) ""))] in
  (exists data,
      resolve t [".cleanrc"] = Ok (File data) /\
      ((sample_loads data = Broken TypeError /\
        forall n, TypeError <> Other (OSError n)) \/
       (TypeError = TypeError /\
        exists v,
          sample_loads data = Parsed v /\ forall d, v <> JObject d))) /\
  load_config sample_loads (AsPath [".cleanrc"]) u
  = ([], Fail UnicodeDecodeError).
Proof.
  intros t u. split.
  - apply (proj1 (load_config_raises_only sample_loads [".cleanrc"] t)
             true TypeError);
      reflexivity.
  - apply (proj2 (load_config_raises_only sample_loads [".cleanrc"] u)
             (String (Ascii.ascii_of_nat 255) "") UnicodeDecodeError).
    + reflexivity.
    + reflexivity.
    + intros n. discriminate.
Defined.

(** X18: a configuration path given to the constructor makes it fail.
    [__init__] keeps a non-empty [config_path] as the string it is, and
    [load_config] calls [exists()] on it: the constructor raises
    [AttributeError] before the file system is looked at. Only without a
    path (or with the empty one) is [project_root / ".cleanrc"] loaded. *)
Theorem init_with_config_path :
  forall loads project_root config_path t,
    (forall s,
        config_path = Some s -> s <> "" ->
        init loads project_root config_path t
        = (AsStr s, ([], Fail AttributeError))) /\
    (config_path = None \/ config_path = Some "" ->
     init loads project_root config_path t
     = (AsPath (project_root ++ [".cleanrc"]),
        load_config loads (AsPath (project_root ++ [".cleanrc"])) t)).
Proof.
  intros loads project_root config_path t. split.
  - intros s -> Hs. unfold init.
    destruct (String.eqb s "") eqn:E; [|reflexivity].
    apply String.eqb_eq in E. contradiction.
  - intros [->| ->]; reflexivity.
Qed.

Lemma init_with_config_path_witness :
  init sample_loads [] (Some "my.json") tree_configured
  = (AsStr "my.json", ([], Fail AttributeError)).
Proof.
  apply (proj1 (init_with_config_path sample_loads [] (Some "my.json")
                  tree_configured) "my.json" eq_refl).
  discriminate.
Defined.

(** *** Sizes for the reader *)

Import Format.

Lemma round_half_even_bounds :
  forall a b : N,
    (0 < b)%N ->
    (2 * a <= 2 * (round_half_even a b * b) + b /\
     2 * (round_half_even a b * b) <= 2 * a + b)%N.
Proof.
  intros a b Hb. unfold round_half_even.
  pose proof (N.div_mod a b) as Hdm.
  pose proof (N.mod_lt a b) as Hlt.
  assert (Hb0 : b <> 0%N) by lia.
  specialize (Hdm Hb0). specialize (Hlt Hb0).
  set (q := (a / b)%N) in *. set (r := (a mod b)%N) in *.
  assert (Hq1 : ((q + 1) * b = b * q + b)%N) by lia.
  assert (Hq : (q * b = b * q)%N) by lia.
  destruct (N.ltb_spec (2 * r) b); [rewrite Hq; lia|].
  destruct (N.ltb_spec b (2 * r)); [rewrite Hq1; lia|].
  destruct (N.even q); [rewrite Hq; lia|rewrite Hq1; lia].
Qed.

Lemma tenths_bounds :
  forall n d : N,
    (0 < d)%N ->
    (20 * n <= 2 * (tenths (Float n d) * d) + d /\
     2 * (tenths (Float n d) * d) <= 20 * n + d)%N.
Proof.
  intros n d Hd. unfold tenths. cbn [num den].
  destruct (round_half_even_bounds (10 * n) d Hd) as [H1 H2].
  split; lia.
Qed.

(** X19: what [format_size] shows, for every size below [2 ** 53]
    bytes (where the conversion to a float is exact). The unit is the
    [k]-th of B, KB, MB, GB, TB for the largest [k <= 4] with
    [1024 ** k <= n], and the number in front of it, which has one
    decimal, is [n / 1024 ** k] to within a twentieth. *)
Theorem format_size_shows :
  forall n : N,
    (n < 2 ^ 53)%N ->
    exists (k : nat) (t : N),
      (k <= 4)%nat /\
      format_size n = Some (show_tenths t ++ " " ++ unit_name k)%string /\
      (k = 0%nat \/ (1024 ^ N.of_nat k <= n)%N) /\
      (k = 4%nat \/ (n < 1024 ^ N.of_nat (S k))%N) /\
      (20 * n <= 2 * (t * 1024 ^ N.of_nat k) + 1024 ^ N.of_nat k)%N /\
      (2 * (t * 1024 ^ N.of_nat k) <= 20 * n + 1024 ^ N.of_nat k)%N.
Proof.
  intros n Hn. unfold format_size.
  destruct (N.ltb_spec n 1024) as [H0|H0].
  - exists 0%nat, (tenths (Float n 1)).
    split; [lia|]. split; [reflexivity|].
    split; [now left|]. split; [right; exact H0|].
    change (1024 ^ N.of_nat 0)%N with 1%N.
    apply tenths_bounds. lia.
  - unfold float_of_int.
    destruct (N.ltb_spec n (2 ^ 53)) as [_|H]; [|lia].
    unfold format_loop, below_1024, div_1024. cbn [num den].
    change (1 * 1024)%N with (1024 ^ N.of_nat 1)%N.
    change (1024 ^ N.of_nat 1 * 1024)%N with (1024 ^ N.of_nat 2)%N.
    change (1024 ^ N.of_nat 2 * 1024)%N with (1024 ^ N.of_nat 3)%N.
    change (1024 ^ N.of_nat 3 * 1024)%N with (1024 ^ N.of_nat 4)%N.
    change (1024 * 1024 ^ N.of_nat 1)%N with (1024 ^ N.of_nat 2)%N.
    change (1024 * 1024 ^ N.of_nat 2)%N with (1024 ^ N.of_nat 3)%N.
    change (1024 * 1024 ^ N.of_nat 3)%N with (1024 ^ N.of_nat 4)%N.
    assert (P1 : (0 < 1024 ^ N.of_nat 1)%N) by reflexivity.
    assert (P2 : (0 < 1024 ^ N.of_nat 2)%N) by reflexivity.
    assert (P3 : (0 < 1024 ^ N.of_nat 3)%N) by reflexivity.
    assert (P4 : (0 < 1024 ^ N.of_nat 4)%N) by reflexivity.
    assert (H1 : (1024 ^ N.of_nat 1 <= n)%N) by exact H0.
    destruct (N.ltb_spec n (1024 ^ N.of_nat 2)) as [L2|L2].
    { exists 1%nat, (tenths (Float n (1024 ^ N.of_nat 1))).
      split; [lia|]. split; [reflexivity|].
      split; [now right|]. split; [now right|].
      now apply tenths_bounds. }
    destruct (N.ltb_spec n (1024 ^ N.of_nat 3)) as [L3|L3].
    { exists 2%nat, (tenths (Float n (1024 ^ N.of_nat 2))).
      split; [lia|]. split; [reflexivity|].
      split; [now right|]. split; [now right|].
      now apply tenths_bounds. }
    destruct (N.ltb_spec n (1024 ^ N.of_nat 4)) as [L4|L4].
    { exists 3%nat, (tenths (Float n (1024 ^ N.of_nat 3))).
      split; [lia|]. split; [reflexivity|].
      split; [now right|]. split; [now right|].
      now apply tenths_bounds. }
    exists 4%nat, (tenths (Float n (1024 ^ N.of_nat 4))).
    split; [lia|]. split; [reflexivity|].
    split; [now right|]. split; [now left|].
    now apply tenths_bounds.
Qed.

Lemma format_size_shows_witness :
  exists (k : nat) (t : N),
    (k <= 4)%nat /\
    format_size 1048575 = Some (show_tenths t ++ " " ++ unit_name k)%string /\
    (k = 0%nat \/ (1024 ^ N.of_nat k <= 1048575)%N) /\
    (k = 4%nat \/ (1048575 < 1024 ^ N.of_nat (S k))%N) /\
    (20 * 1048575 <= 2 * (t * 1024 ^ N.of_nat k) + 1024 ^ N.of_nat k)%N /\
    (2 * (t * 1024 ^ N.of_nat k) <= 20 * 1048575 + 1024 ^ N.of_nat k)%N.
Proof.
  apply (format_size_shows 1048575). reflexivity.
Defined.

Lemma string_append_assoc :
  forall a b c : string, ((a ++ b) ++ c = a ++ (b ++ c))%string.
Proof.
  induction a as [|x a IH]; intros b c; simpl; [reflexivity|].
  now rewrite IH.
Qed.

(** X20: a size below 1024 is shown as it is: the count of bytes in
    decimal, followed by [.0 B]. *)
Theorem format_size_bytes :
  forall n : N,
    (n < 1024)%N ->
    format_size n = Some (decimal n ++ ".0 B")%string.
Proof.
  intros n Hn. unfold format_size.
  destruct (N.ltb_spec n 1024) as [_|H]; [|lia].
  unfold fmt1, tenths, round_half_even, show_tenths. cbn [num den].
  rewrite N.div_1_r, N.mod_1_r.
  change (2 * 0 <? 1)%N with true. cbv iota.
  replace (10 * n / 10)%N with n
    by (symmetry; rewrite N.mul_comm; apply N.div_mul; lia).
  replace ((10 * n) mod 10)%N with 0%N
    by (symmetry; rewrite N.mul_comm; apply N.Div0.mod_mul).
  change (decimal 0) with "0".
  now rewrite string_append_assoc.
Qed.

Lemma format_size_bytes_witness : format_size 512 = Some "512.0 B".
Proof.
  apply (format_size_bytes 512). reflexivity.
Defined.

(** *** Backups *)

(** X21: a backup that fails leaves the entry alone. If the backup
    step of [delete_path] raises, [delete_path] raises the same exception
    without deleting or counting anything: an entry that lies neither
    above nor below the backup directories, be it a file or a directory
    with all it contains, is then exactly what it was. *)
Theorem failed_backup_keeps_entry :
  forall project_root cfg clock p w w1 e,
    (forall k,
        unrelated p
          (joinpath (joinpath project_root (backup_dir cfg)) (clock k))
        = true) ->
    backup_step project_root cfg clock p true w = (w1, Raise e) ->
    delete_path project_root cfg clock p true w = (w1, Raise e) /\
    resolve (fs w1) p = resolve (fs w) p /\
    st w1 = st w.
Proof.
  intros project_root cfg clock p w w1 e Hp H.
  split; [now rewrite delete_path_after_backup, H|].
  pose proof (@backup_step_leaves project_root cfg clock p true w p
                (fun _ => Hp)) as Hl.
  destruct (@backup_step_frame project_root cfg clock p true w)
    as (Hst & _).
  rewrite H in Hl, Hst. now split.
Qed.

Lemma failed_backup_keeps_entry_witness :
  let t := Dir rwx [("a", Dir rwx [("x", File "1")]);
                    ("cleanup_backups", File "in the way")] in
  let w := Examples.start t [] in
  let w1 :=
    fst (backup_step [] Examples.default_config Examples.ticking
           ["a"] true w) in
  delete_path [] Examples.default_config Examples.ticking ["a"] true w
  = (w1, Raise (OSError ENOTDIR)) /\
  resolve (fs w1) ["a"] = resolve (fs w) ["a"] /\
  st w1 = st w.
Proof.
  intros t w w1.
  apply (failed_backup_keeps_entry [] Examples.default_config
           Examples.ticking ["a"] w w1 (OSError ENOTDIR)).
  - intros k. destruct k as [|[|k]]; reflexivity.
  - reflexivity.
Defined.

Lemma unrelated_sym : forall a b, unrelated a b = unrelated b a.
Proof. intros a b. unfold unrelated. apply andb_comm. Qed.

Lemma unrelated_apps :
  forall a b a' b',
    unrelated a b = true -> unrelated (a ++ a') (b ++ b') = true.
Proof.
  intros a b a' b' H.
  apply (@unrelated_extend (a ++ a') b (b ++ b')); [|apply is_prefix_app].
  rewrite unrelated_sym.
  apply (@unrelated_extend b a (a ++ a')); [|apply is_prefix_app].
  now rewrite unrelated_sym.
Qed.

Lemma unrelated_siblings :
  forall d x y q,
    x <> y -> unrelated (d ++ x :: q) (d ++ [y]) = true.
Proof.
  intros d x y q H. unfold unrelated.
  induction d as [|z d IH]; simpl.
  - assert (E1 : String.eqb x y = false) by now apply String.eqb_neq.
    assert (E2 : String.eqb y x = false)
      by (apply String.eqb_neq; congruence).
    now rewrite E1, E2.
  - rewrite String.eqb_refl. exact IH.
Qed.

Lemma is_prefix_length :
  forall p q, is_prefix p q = true -> List.length p <= List.length q.
Proof.
  induction p as [|x p IH]; intros q H; simpl; [lia|].
  destruct q as [|y q]; [discriminate|].
  simpl in *. apply andb_true_iff in H. destruct H as [_ H].
  specialize (IH q H). lia.
Qed.

Lemma is_prefix_longer :
  forall a r, r <> [] -> is_prefix (a ++ r) a = false.
Proof.
  intros a r Hr. destruct (is_prefix (a ++ r) a) eqn:E; [|reflexivity].
  apply is_prefix_length in E. rewrite length_app in E.
  destruct r; [contradiction|simpl in E; lia].
Qed.

Lemma mkdir_op_fails_cleanly : fails_cleanly mkdir_op.
Proof.
  intros m [n|] o' e H; simpl in H.
  - now injection H as <-.
  - destruct (can_write m); [discriminate|]. now injection H as <-.
Qed.

Lemma os_mkdir_made :
  forall t p t',
    os_mkdir t p = (t', Ok tt) -> resolve t' p = Ok (Dir rwx []).
Proof.
  intros t p t' H. destruct p as [|x p]; [discriminate|].
  unfold os_mkdir in H.
  destruct (@alter_Ok mkdir_op (x :: p) t t' H) as (m & o & o' & Hf & Hr).
  rewrite Hr. unfold mkdir_op in Hf.
  destruct o; [discriminate|].
  destruct (can_write m); [|discriminate].
  now injection Hf as <-.
Qed.

Lemma os_mkdir_failed :
  forall t p e, snd (os_mkdir t p) = Raise e -> fst (os_mkdir t p) = t.
Proof.
  intros t p e H. destruct p as [|x p]; [reflexivity|].
  exact (alter_fails_cleanly mkdir_op mkdir_op_fails_cleanly (x :: p) t e H).
Qed.

Lemma unless_is_dir_absent :
  forall t p e,
    resolve t p = Raise (OSError ENOENT) -> unless_is_dir t p e = Raise e.
Proof.
  intros t p e H. unfold unless_is_dir, is_dir, test_path.
  now rewrite H.
Qed.

Lemma mkdir_exist_ok_made :
  forall t p t',
    mkdir_exist_ok t p = (t', Ok tt) ->
    resolve t p = Raise (OSError ENOENT) ->
    resolve t' p = Ok (Dir rwx []).
Proof.
  intros t p t' H Ha. unfold mkdir_exist_ok in H.
  pose proof (os_mkdir_made t p) as Hm.
  pose proof (os_mkdir_failed t p) as Hf.
  destruct (os_mkdir t p) as [t1 [[]|e]]; simpl in *.
  - injection H as <-. now apply Hm.
  - rewrite (Hf e eq_refl) in H.
    rewrite (unless_is_dir_absent t p e Ha) in H.
    destruct e as [[]| | | | |]; discriminate.
Qed.

Lemma mkdir_parents_rev_eq :
  forall t rp,
    mkdir_parents_rev t rp =
    let '(fs', r) := os_mkdir t (rev rp) in
    match r with
    | Ok _ => (fs', Ok tt)
    | Raise (OSError ENOENT) =>
        match rp with
        | [] => (fs', Raise (OSError ENOENT))
        | _ :: rp' =>
            let '(fs1, r1) := mkdir_parents_rev fs' rp' in
            match r1 with
            | Ok _ => mkdir_exist_ok fs1 (rev rp)
            | Raise e => (fs1, Raise e)
            end
        end
    | Raise e => (fs', unless_is_dir fs' (rev rp) e)
    end.
Proof. intros t rp. destruct rp; reflexivity. Qed.

Lemma mkdir_parents_made :
  forall t p t',
    mkdir_parents t p = (t', Ok tt) ->
    resolve t p = Raise (OSError ENOENT) ->
    resolve t' p = Ok (Dir rwx []).
Proof.
  intros t p t' H Ha. unfold mkdir_parents in H.
  rewrite mkdir_parents_rev_eq, rev_involutive in H.
  pose proof (os_mkdir_made t p) as Hm.
  pose proof (os_mkdir_failed t p) as Hf.
  destruct (os_mkdir t p) as [t1 [[]|e]]; simpl in Hm, Hf.
  - injection H as <-. now apply Hm.
  - rewrite (Hf e eq_refl) in H.
    assert (Hu : unless_is_dir t p e = Raise e)
      by now apply unless_is_dir_absent.
    destruct e as [[]| | | | |]; try (rewrite Hu in H; discriminate).
    destruct (rev p) as [|x rp'] eqn:Ep; [discriminate|].
    pose proof (mkdir_parents_rev_frame rp' t p) as Hfr.
    destruct (mkdir_parents_rev t rp') as [t2 [[]|e2]]; [|discriminate].
    apply (mkdir_exist_ok_made t2 p t' H).
    simpl in Hfr. rewrite Hfr; [exact Ha|].
    assert (Hp : p = rev rp' ++ [x])
      by (rewrite <- (rev_involutive p), Ep; reflexivity).
    rewrite Hp. apply is_prefix_longer. discriminate.
Qed.

Lemma copy_entries_failed :
  forall copy m src dst es t,
    snd (copy_entries copy m src dst es t true) = true.
Proof.
  intros copy m src dst. induction es as [|[x c] es IH]; intros t;
    [reflexivity|].
  cbn [copy_entries].
  destruct (if can_search m
            then match c with
                 | Dir _ _ => copy c (src ++ [x]) t (dst ++ [x])
                 | File _ => copy2 t (src ++ [x]) (dst ++ [x])
                 end
            else (t, Raise (OSError EACCES))) as [t1 r].
  apply IH.
Qed.

Lemma copy_entries_names_frame :
  forall m src dst g es,
    (forall x, In x (map fst es) -> unrelated g (dst ++ [x]) = true) ->
    forall t errors,
      resolve (fst (copy_entries copytree_node m src dst es t errors)) g
      = resolve t g.
Proof.
  intros m src dst g. induction es as [|[x c] es IH]; intros Hg t errors;
    [reflexivity|].
  cbn [copy_entries].
  assert (Hx : unrelated g (dst ++ [x]) = true)
    by (apply Hg; now left).
  assert (Hes : forall y, In y (map fst es) ->
                          unrelated g (dst ++ [y]) = true)
    by (intros y Hy; apply Hg; now right).
  destruct (can_search m).
  - destruct c as [d|m' es'].
    + pose proof (@copy2_frame t (src ++ [x]) (dst ++ [x]) g Hx) as H1.
      destruct (copy2 t (src ++ [x]) (dst ++ [x])) as [t1 r].
      rewrite IH by assumption. exact H1.
    + pose proof (@copytree_node_frame (Dir m' es') g (src ++ [x]) t
                    (dst ++ [x]) Hx) as H1.
      destruct (copytree_node (Dir m' es') (src ++ [x]) t (dst ++ [x]))
        as [t1 r].
      rewrite IH by assumption. exact H1.
  - now rewrite IH.
Qed.

Lemma resolve_File_inv :
  forall d q data, resolve (File d) q = Ok (File data) -> q = [] /\ d = data.
Proof.
  intros d q data H. destruct q as [|x q]; [|discriminate].
  simpl in H. injection H as ->. now split.
Qed.

Lemma copy_entries_copies :
  forall m src dst,
    unrelated src dst = true ->
    forall es,
      Forall (fun e => copied (snd e)) es ->
      forall t errors t',
        copy_entries copytree_node m src dst es t errors = (t', false) ->
        distinct (map fst es) = true ->
        forallb (fun e => unique_names (snd e)) es = true ->
        (forall x c, In (x, c) es -> resolve t (src ++ [x]) = Ok c) ->
        (forall x c, In (x, c) es ->
                     resolve t (dst ++ [x]) = Raise (OSError ENOENT)) ->
        forall x c, In (x, c) es ->
          forall q data,
            resolve c q = Ok (File data) ->
            resolve t' (dst ++ x :: q) = Ok (File data).
Proof.
  intros m src dst Hsd.
  induction es as [|[x0 c0] es IH];
    intros Hall t errors t' Hrun Hdis Huni Hsrc Hdst x c Hin q data Hq;
    [contradiction|].
  inversion Hall as [|? ? Hc0 Hrest]; subst. simpl in Hc0.
  apply distinct_cons in Hdis. destruct Hdis as [Hnot Hdis].
  simpl in Huni. apply andb_true_iff in Huni. destruct Huni as [Hu0 Huni].
  cbn [copy_entries] in Hrun.
  assert (Hs0 : resolve t (src ++ [x0]) = Ok c0) by (apply Hsrc; now left).
  assert (Hd0 : resolve t (dst ++ [x0]) = Raise (OSError ENOENT))
    by (apply (Hdst x0 c0); now left).
  assert (Hu : unrelated (src ++ [x0]) (dst ++ [x0]) = true)
    by now apply unrelated_apps.
  (* the step for [x0] *)
  assert (Hstep :
    exists t1,
      copy_entries copytree_node m src dst es t1 errors = (t', false) /\
      (forall g, unrelated g (dst ++ [x0]) = true ->
                 resolve t1 g = resolve t g) /\
      (forall q data,
          resolve c0 q = Ok (File data) ->
          resolve t1 (dst ++ x0 :: q) = Ok (File data))).
  { destruct (can_search m).
    - destruct c0 as [d|m' es'].
      + pose proof (fun g => @copy2_frame t (src ++ [x0]) (dst ++ [x0]) g)
          as Hfr.
        unfold copy2 in Hrun, Hfr.
        unfold os_path_isdir in Hrun, Hfr. rewrite Hd0, Hs0 in Hrun, Hfr.
        destruct (path_eqb (src ++ [x0]) (dst ++ [x0])).
        * pose proof (copy_entries_failed copytree_node m src dst es t)
            as Hf.
          rewrite orb_true_r in Hrun. rewrite Hrun in Hf. discriminate.
        * pose proof (@alter_written d (dst ++ [x0]) t) as Hw.
          destruct (alter t (dst ++ [x0]) (write_op d)) as [t1 [[]|e]].
          -- rewrite orb_false_r in Hrun.
             exists t1. split; [exact Hrun|]. split; [exact Hfr|].
             intros q0 data0 H0. apply resolve_File_inv in H0.
             destruct H0 as [-> ->]. now apply Hw.
          -- pose proof (copy_entries_failed copytree_node m src dst es t1)
               as Hf.
             rewrite orb_true_r in Hrun. rewrite Hrun in Hf. discriminate.
      + pose proof (fun g => @copytree_node_frame (Dir m' es') g
                               (src ++ [x0]) t (dst ++ [x0])) as Hfr.
        pose proof (Hc0 (src ++ [x0]) t (dst ++ [x0])) as Hcp.
        destruct (copytree_node (Dir m' es') (src ++ [x0]) t (dst ++ [x0]))
          as [t1 [[]|e]].
        * rewrite orb_false_r in Hrun.
          exists t1. split; [exact Hrun|]. split; [exact Hfr|].
          intros q0 data0 H0.
          specialize (Hcp t1 eq_refl Hs0 Hu Hd0 Hu0 q0 data0 H0).
          now rewrite <- app_assoc in Hcp.
        * pose proof (copy_entries_failed copytree_node m src dst es t1)
            as Hf.
          rewrite orb_true_r in Hrun. rewrite Hrun in Hf. discriminate.
    - pose proof (copy_entries_failed copytree_node m src dst es t) as Hf.
      rewrite orb_true_r in Hrun. rewrite Hrun in Hf. discriminate. }
  destruct Hstep as (t1 & Hrest1 & Hfr1 & Hcopy1).
  destruct Hin as [Heq|Hin].
  - injection Heq as <- <-.
    pose proof (@copy_entries_names_frame m src dst (dst ++ x0 :: q) es)
      as Hfr.
    rewrite <- (Hcopy1 q data Hq).
    replace t' with
      (fst (copy_entries copytree_node m src dst es t1 errors))
      by now rewrite Hrest1.
    apply Hfr. intros y Hy. apply unrelated_siblings.
    intros ->. contradiction.
  - apply (IH Hrest t1 errors t' Hrest1 Hdis Huni) with (c := c);
      try assumption.
    + intros y cy Hy. rewrite Hfr1; [apply Hsrc; now right|].
      now apply unrelated_apps.
    + intros y cy Hy. rewrite Hfr1; [apply (Hdst y cy); now right|].
      apply unrelated_siblings. intros ->.
      apply Hnot. apply in_map_iff. now exists (x0, cy).
Qed.

Lemma copytree_node_copies : forall n, copied n.
Proof.
  induction n as [d|m es IH] using node_rect_all;
    intros src t dst t' Hrun Hsrc Hsd Hdst Huni q data Hq;
    [discriminate|].
  cbn [copytree_node] in Hrun.
  destruct (can_read m); [|discriminate].
  pose proof (mkdir_parents_made t dst) as Hmade.
  pose proof (@mkdir_parents_frame t dst src
                (@unrelated_not_prefix _ _ Hsd)) as Hkeep.
  destruct (mkdir_parents t dst) as [t1 [[]|e]]; [|discriminate].
  specialize (Hmade t1 eq_refl Hdst). simpl in Hkeep.
  destruct (copy_entries copytree_node m src dst es t1 false)
    as [t2 errors] eqn:Hloop.
  destruct errors; [discriminate|]. injection Hrun as <-.
  destruct q as [|x q]; [discriminate|].
  rewrite resolve_Dir in Hq.
  destruct (can_search m) eqn:Hs; [|discriminate].
  destruct (find_entry x es) as [c|] eqn:Hx; [|discriminate].
  simpl in Huni. apply andb_true_iff in Huni. destruct Huni as [Hdis Huni].
  apply (copy_entries_copies m src dst Hsd es IH t1 false t2 Hloop
           Hdis Huni) with (c := c).
  - intros y cy Hy.
    apply (@resolve_child t1 src m es y cy); try assumption.
    now rewrite Hkeep.
  - intros y cy Hy. rewrite resolve_app, Hmade. reflexivity.
  - now apply find_entry_In.
  - exact Hq.
Qed.


Lemma is_prefix_own_parent :
  forall p, p <> [] -> is_prefix p (removelast p) = false.
Proof.
  intros p Hp. destruct (is_prefix p (removelast p)) eqn:E; [|reflexivity].
  apply is_prefix_length in E.
  destruct (exists_last Hp) as (p' & x & ->).
  rewrite removelast_last, length_app in E. simpl in E. lia.
Qed.

Lemma backup_file_of_dir :
  forall project_root p bdir rel m es w w1,
    resolve (fs w) p = Ok (Dir m es) ->
    unique_names (Dir m es) = true ->
    relative_to p project_root = Ok rel ->
    rel <> [] ->
    unrelated p bdir = true ->
    resolve (fs w) (bdir ++ rel) = Raise (OSError ENOENT) ->
    backup_file project_root p bdir w = (w1, Ok tt) ->
    resolve (fs w1) p = Ok (Dir m es) /\
    st w1 = st w /\ ticks w1 = ticks w /\
    forall q data,
      resolve (Dir m es) q = Ok (File data) ->
      resolve (fs w1) (bdir ++ rel ++ q) = Ok (File data).
Proof.
  intros project_root p bdir rel m es w w1 Hp Huni Hrel Hne Hun Hfresh H.
  assert (Hdst : unrelated p (bdir ++ rel) = true)
    by (apply (@unrelated_extend p bdir (bdir ++ rel) Hun), is_prefix_app).
  assert (Hnp : is_prefix p (bdir ++ rel) = false)
    by now apply unrelated_not_prefix.
  assert (Hnb : is_prefix p bdir = false)
    by now apply unrelated_not_prefix.
  assert (Hnpar : is_prefix p (parent (bdir ++ rel)) = false).
  { destruct (is_prefix p (parent (bdir ++ rel))) eqn:E; [|reflexivity].
    apply is_prefix_removelast in E. congruence. }
  assert (Hbp : bdir ++ rel <> [])
    by (intros E; apply app_eq_nil in E; destruct E; contradiction).
  unfold backup_file in H. run. rewrite Hrel in H. simpl in H.
  pose proof (@mkdir_parents_frame (fs w) bdir p Hnb) as K1.
  pose proof (@mkdir_parents_frame (fs w) bdir (bdir ++ rel)
                (is_prefix_longer bdir rel Hne)) as F1.
  destruct (mkdir_parents (fs w) bdir) as [t1 [[]|e1]]; simpl in *;
    [|discriminate].
  pose proof (@mkdir_parents_frame t1 (parent (bdir ++ rel)) p Hnpar) as K2.
  pose proof (@mkdir_parents_frame t1 (parent (bdir ++ rel)) (bdir ++ rel)
                (is_prefix_own_parent (bdir ++ rel) Hbp)) as F2.
  destruct (mkdir_parents t1 (parent (bdir ++ rel))) as [t2 [[]|e2]];
    simpl in *; [|discriminate].
  assert (Hp2 : resolve t2 p = Ok (Dir m es)) by congruence.
  assert (Hf2 : resolve t2 (bdir ++ rel) = Raise (OSError ENOENT))
    by congruence.
  unfold is_file, is_dir, test_path in H. rewrite Hp2 in H. simpl in H.
  rewrite Hp2 in H. cbn [is_dir_node fs] in H.
  unfold copytree in H. rewrite Hp2, Hnp in H.
  pose proof (@copytree_node_frame (Dir m es) p p t2 (bdir ++ rel) Hdst)
    as K3.
  pose proof (copytree_node_copies (Dir m es) p t2 (bdir ++ rel)) as C3.
  destruct (copytree_node (Dir m es) p t2 (bdir ++ rel)) as [t3 [[]|e3]];
    simpl in *; [|discriminate].
  injection H as <-. simpl.
  split; [congruence|]. split; [reflexivity|]. split; [reflexivity|].
  intros q data Hq. rewrite app_assoc.
  exact (C3 t3 eq_refl Hp2 Hdst Hf2 Huni q data Hq).
Qed.

(** X22: the backup of a directory holds its files. When [delete_path]
    with backup returns for a directory in which no name occurs twice,
    which lies neither above nor below the backup directory of this call
    and has no backup there yet, the directory is gone and every regular
    file that could be reached in it is, with its contents, at the same
    relative path under
    [<project_root>/<backup_dir>/<time stamp of the call>]. *)
Theorem directory_backup_holds_files :
  forall project_root cfg clock p rel m es w w',
    resolve (fs w) p = Ok (Dir m es) ->
    unique_names (Dir m es) = true ->
    relative_to p project_root = Ok rel ->
    rel <> [] ->
    unrelated p (backup_root project_root cfg clock w) = true ->
    resolve (fs w) (backup_root project_root cfg clock w ++ rel)
    = Raise (OSError ENOENT) ->
    delete_path project_root cfg clock p true w = (w', Ok tt) ->
    resolve (fs w') p = Raise (OSError ENOENT) /\
    forall q data,
      resolve (Dir m es) q = Ok (File data) ->
      resolve (fs w') (backup_root project_root cfg clock w ++ rel ++ q)
      = Ok (File data).
Proof.
  intros project_root cfg clock p rel m es w w' Hp Huni Hrel Hne Hun
         Hfresh H.
  rewrite delete_path_after_backup in H.
  unfold backup_step, bindM, now in H.
  fold (backup_root project_root cfg clock w) in H.
  set (bdir := backup_root project_root cfg clock w) in *.
  match type of H with
  | context [backup_file project_root p bdir ?w0] =>
      pose proof (backup_file_of_dir project_root p bdir rel m es w0)
        as Hb;
      destruct (backup_file project_root p bdir w0) as [w1 [[]|e]] eqn:Eb
  end; [|discriminate].
  destruct (Hb w1 Hp Huni Hrel Hne Hun Hfresh eq_refl)
    as (Hp1 & _ & _ & Hcopy).
  assert (Hfr : forall g, unrelated g p = true ->
                          resolve (fs w') g = resolve (fs w1) g)
    by (intros g Hg;
        exact (@delete_path_plain_frame project_root cfg clock p w1 w'
                 (Ok tt) g H Hg)).
  split.
  - unfold delete_path in H. run.
    destruct (get_file_size (fs w1) p) as [size|]; simpl in H;
      [|discriminate].
    unfold is_file, is_dir, test_path in H. rewrite Hp1 in H. simpl in H.
    rewrite Hp1 in H. simpl in H.
    pose proof (@rmtree_removed (fs w1) p) as Hrm.
    destruct (rmtree (fs w1) p) as [t' [[]|e]]; simpl in H; [|discriminate].
    injection H as <-. simpl. now apply Hrm.
  - intros q data Hq. rewrite Hfr; [now apply Hcopy|].
    rewrite unrelated_sym.
    apply (@unrelated_extend p bdir (bdir ++ rel ++ q) Hun), is_prefix_app.
Qed.

Lemma directory_backup_holds_files_witness :
  let w := Examples.start Examples.tree [] in
  let w' :=
    fst (delete_path [] Examples.default_config Examples.ticking
           ["a"] true w) in
  resolve (fs w') ["a"] = Raise (OSError ENOENT) /\
  forall q data,
    resolve
      (Dir rwx [("x.pyc", File "0123456789");
                ("y.log", File "01234567890123456789")]) q
    = Ok (File data) ->
    resolve (fs w') (["cleanup_backups"; "20240101_120000"] ++ ["a"] ++ q)
    = Ok (File data).
Proof.
  intros w w'.
  apply (directory_backup_holds_files [] Examples.default_config
           Examples.ticking ["a"] ["a"] rwx
           [("x.pyc", File "0123456789");
            ("y.log", File "01234567890123456789")] w w');
    try reflexivity.
  discriminate.
Defined.

(** *** The exit status *)

Lemma stays_Ok : forall (A : Type) (a : A), stays (Ok a).
Proof. intros A a e H. discriminate. Qed.

Lemma stays_Raise :
  forall (A : Type) e, no_exit e = true -> stays (@Raise A e).
Proof. intros A e H e' [= <-]. exact H. Qed.

Lemma stays_os_only :
  forall (A : Type) (r : result A), os_only r -> stays r.
Proof.
  intros A r H e He. specialize (H e He). now destruct e.
Qed.

Lemma stays_bind :
  forall (A B : Type) (r : result A) (k : A -> result B),
    stays r -> (forall a, stays (k a)) -> stays (bind r k).
Proof.
  intros A B [a|e] k Hr Hk; simpl; [apply Hk|].
  intros e' [= <-]. now apply Hr.
Qed.

Lemma staying_bind :
  forall (A B : Type) (c : M A) (k : A -> M B),
    staying c -> (forall a, staying (k a)) -> staying (bindM c k).
Proof.
  intros A B c k Hc Hk w. unfold bindM.
  specialize (Hc w). destruct (c w) as [w1 [a|e]]; simpl in *.
  - apply Hk.
  - intros e' [= <-]. now apply Hc.
Qed.

Lemma staying_ret : forall (A : Type) (a : A), staying (ret a).
Proof. intros A a w. apply stays_Ok. Qed.

Lemma staying_print : forall m, staying (print m).
Proof. intros m w. apply stays_Ok. Qed.

Lemma staying_reading :
  forall (A : Type) (f : node -> result A),
    (forall t, stays (f t)) -> staying (reading f).
Proof. intros A f H w. apply H. Qed.

Lemma staying_changing :
  forall f, (forall t, os_only (snd (f t))) -> staying (changing f).
Proof.
  intros f H w. unfold changing. specialize (H (fs w)).
  destruct (f (fs w)) as [t r]. simpl in *. now apply stays_os_only.
Qed.

Lemma staying_changing_stays :
  forall f, (forall t, stays (snd (f t))) -> staying (changing f).
Proof.
  intros f H w. unfold changing. specialize (H (fs w)).
  destruct (f (fs w)) as [t r]. exact H.
Qed.

Lemma copytree_stays : forall t src dst, stays (snd (copytree t src dst)).
Proof.
  intros t src dst. unfold copytree.
  pose proof (resolve_os_only src t) as H.
  destruct (resolve t src) as [n|e]; simpl.
  - destruct (is_prefix src dst); simpl; [now apply stays_Raise|].
    apply stays_os_only, copytree_node_os_only.
  - apply stays_os_only. intros e' [= <-]. now apply H.
Qed.

Lemma staying_input : forall m, staying (input m).
Proof.
  intros m w. unfold input. destruct (stdin w); simpl;
    [now apply stays_Raise|apply stays_Ok].
Qed.

Lemma relative_to_stays : forall p q, stays (relative_to p q).
Proof.
  intros p q. unfold relative_to.
  destruct (is_prefix q p); [apply stays_Ok|now apply stays_Raise].
Qed.

Lemma pmatch_stays : forall parts pattern, stays (pmatch parts pattern).
Proof.
  intros parts pattern. unfold pmatch.
  destruct (parse_parts pattern) as [root pat_parts].
  destruct (negb root && Nat.eqb (List.length pat_parts) 0);
    [now apply stays_Raise|].
  destruct root; [apply stays_Ok|].
  destruct (Nat.ltb (List.length parts) (List.length pat_parts));
    apply stays_Ok.
Qed.

Lemma any_match_stays : forall rel patterns, stays (any_match rel patterns).
Proof.
  intros rel. induction patterns as [|pattern rest IH]; simpl.
  - apply stays_Ok.
  - apply stays_bind; [apply pmatch_stays|].
    intros [|]; [apply stays_Ok|exact IH].
Qed.

Lemma is_protected_stays :
  forall project_root cfg p, stays (is_protected project_root cfg p).
Proof.
  intros project_root cfg p. unfold is_protected.
  apply stays_bind; [apply relative_to_stays|].
  intros rel. apply any_match_stays.
Qed.

Lemma make_selector_stays : forall parts, stays (make_selector parts).
Proof.
  induction parts as [|pat parts IH]; simpl; [apply stays_Ok|].
  destruct (String.eqb pat "**").
  - apply stays_bind; [exact IH|]. intros s. apply stays_Ok.
  - destruct (contains_2stars pat); [now apply stays_Raise|].
    apply stays_bind; [exact IH|]. intros s.
    destruct (is_wildcard_pattern pat); apply stays_Ok.
Qed.

Lemma rglob_stays : forall t P pattern, stays (rglob t P pattern).
Proof.
  intros t P pattern. unfold rglob.
  destruct (parse_parts pattern) as [root parts].
  destruct root; [now apply stays_Raise|].
  apply stays_bind; [apply make_selector_stays|]. intros sel.
  apply stays_bind; [apply stays_os_only, test_path_os_only|].
  intros [|]; [|apply stays_Ok].
  apply stays_bind; [apply stays_os_only, resolve_os_only|].
  intros n. apply stays_Ok.
Qed.

Lemma keep_unprotected_stays :
  forall project_root cfg kind t,
    (forall p, stays (kind t p)) ->
    forall paths found,
      stays (keep_unprotected project_root cfg kind t paths found).
Proof.
  intros project_root cfg kind t Hk.
  induction paths as [|p paths IH]; intros found; simpl; [apply stays_Ok|].
  apply stays_bind; [apply Hk|].
  intros [|]; [|apply IH].
  apply stays_bind; [apply is_protected_stays|].
  intros [|]; apply IH.
Qed.

Lemma find_loop_stays :
  forall project_root cfg t patterns found,
    stays (find_loop project_root cfg t patterns found).
Proof.
  intros project_root cfg t.
  induction patterns as [|pattern rest IH]; intros found; simpl;
    [apply stays_Ok|].
  destruct (endswith_slash pattern);
    (apply stays_bind; [apply rglob_stays|]; intros paths;
     apply stays_bind;
     [apply keep_unprotected_stays; intros p;
      apply stays_os_only, test_path_os_only|];
     intros found'; apply IH).
Qed.

Lemma find_files_stays :
  forall project_root cfg t patterns,
    stays (find_files project_root cfg t patterns).
Proof.
  intros project_root cfg t patterns. unfold find_files.
  apply stays_bind; [apply find_loop_stays|]. intros found. apply stays_Ok.
Qed.

Lemma sum_sizes_stays : forall t files, stays (sum_sizes t files).
Proof.
  intros t. induction files as [|f files IH]; simpl; [apply stays_Ok|].
  apply stays_bind; [apply stays_os_only, get_file_size_os_only|].
  intros n. apply stays_bind; [exact IH|]. intros total. apply stays_Ok.
Qed.

Lemma show_items_staying :
  forall project_root files, staying (show_items project_root files).
Proof.
  intros project_root. induction files as [|f files IH]; simpl;
    [apply staying_ret|].
  apply staying_bind;
    [apply staying_reading; intros t; apply relative_to_stays|].
  intros rel. apply staying_bind;
    [apply staying_reading; intros t;
     apply stays_os_only, get_file_size_os_only|].
  intros size. apply staying_bind; [apply staying_print|].
  intros _. exact IH.
Qed.

Lemma backup_file_staying :
  forall project_root p bdir, staying (backup_file project_root p bdir).
Proof.
  intros project_root p bdir. unfold backup_file.
  apply staying_bind;
    [apply staying_changing; intros t; apply mkdir_parents_os_only|].
  intros _. apply staying_bind;
    [apply staying_reading; intros t; apply relative_to_stays|].
  intros rel. apply staying_bind;
    [apply staying_changing; intros t; apply mkdir_parents_os_only|].
  intros _. apply staying_bind;
    [apply staying_reading; intros t;
     apply stays_os_only, test_path_os_only|].
  intros [|]; [apply staying_changing; intros t; apply copy2_os_only|].
  apply staying_bind;
    [apply staying_reading; intros t;
     apply stays_os_only, test_path_os_only|].
  intros [|]; [apply staying_changing_stays; intros t; apply copytree_stays|].
  apply staying_ret.
Qed.

Lemma staying_get_stats : staying get_stats.
Proof. intros w. apply stays_Ok. Qed.

Lemma staying_set_stats : forall s, staying (set_stats s).
Proof. intros s w. apply stays_Ok. Qed.

Lemma delete_path_staying :
  forall project_root cfg clock p backup,
    staying (delete_path project_root cfg clock p backup).
Proof.
  intros project_root cfg clock p backup. unfold delete_path.
  apply staying_bind.
  { destruct backup; [|apply staying_ret].
    apply staying_bind; [intros w; apply stays_Ok|].
    intros timestamp. apply backup_file_staying. }
  intros _. apply staying_bind;
    [apply staying_reading; intros t;
     apply stays_os_only, get_file_size_os_only|].
  intros size. apply staying_bind;
    [apply staying_reading; intros t;
     apply stays_os_only, test_path_os_only|].
  intros f. apply staying_bind.
  { destruct f.
    - apply staying_bind;
        [apply staying_changing; intros t; apply unlink_os_only|].
      intros _. apply staying_bind; [apply staying_get_stats|].
      intros s. apply staying_set_stats.
    - apply staying_bind;
        [apply staying_reading; intros t;
         apply stays_os_only, test_path_os_only|].
      intros [|]; [|apply staying_ret].
      apply staying_bind;
        [apply staying_changing; intros t; apply rmtree_os_only|].
      intros _. apply staying_bind; [apply staying_get_stats|].
      intros s. apply staying_set_stats. }
  intros _. apply staying_bind; [apply staying_get_stats|].
  intros s. apply staying_set_stats.
Qed.

Lemma delete_all_staying :
  forall project_root cfg clock files backup,
    staying (delete_all project_root cfg clock files backup).
Proof.
  intros project_root cfg clock files backup.
  induction files as [|f files IH]; [apply staying_ret|].
  intros w. simpl.
  pose proof (delete_path_staying project_root cfg clock f backup w) as Hd.
  destruct (delete_path project_root cfg clock f backup w) as [w1 [[]|e]];
    simpl in Hd.
  - apply IH.
  - destruct (is_OSError e).
    + unfold bindM, print. simpl. apply IH.
    + simpl. intros e' [= <-]. now apply Hd.
Qed.

Lemma clean_category_staying :
  forall project_root cfg clock category patterns dry_run backup
         interactive,
    staying (clean_category project_root cfg clock category patterns
               dry_run backup interactive).
Proof.
  intros project_root cfg clock category patterns dry_run backup
         interactive.
  unfold clean_category.
  apply staying_bind;
    [apply staying_reading; intros t; apply find_files_stays|].
  intros files. apply staying_bind;
    [apply staying_reading; intros t; apply sum_sizes_stays|].
  intros total.
  destruct (negb (nonempty files)).
  { apply staying_bind; [apply staying_print|].
    intros _. apply staying_ret. }
  apply staying_bind; [apply staying_print|].
  intros _. apply staying_bind; [apply show_items_staying|].
  intros _. apply staying_bind.
  { destruct (Nat.ltb 10 (List.length files));
      [apply staying_print|apply staying_ret]. }
  intros _. destruct dry_run.
  { apply staying_bind; [apply staying_print|].
    intros _. apply staying_ret. }
  apply staying_bind.
  { destruct interactive; [|apply staying_ret].
    apply staying_bind; [apply staying_input|].
    intros line.
    destruct (String.eqb (strip (lower line)) "s"); [apply staying_ret|].
    destruct (negb (String.eqb (strip (lower line)) "y"));
      apply staying_ret. }
  intros [|]; [apply staying_ret|].
  apply staying_bind; [apply delete_all_staying|].
  intros _. apply staying_bind; [apply staying_print|].
  intros _. apply staying_ret.
Qed.

Lemma run_loop_staying :
  forall project_root cfg clock categories dry_run backup interactive n m,
    staying (run_loop project_root cfg clock categories
               dry_run backup interactive n m).
Proof.
  intros project_root cfg clock.
  induction categories as [|c categories IH];
    intros dry_run backup interactive n m; simpl; [apply staying_ret|].
  destruct (lookup c (cleanup_patterns cfg)) as [patterns|]; [|apply IH].
  apply staying_bind; [apply clean_category_staying|].
  intros found. apply IH.
Qed.

Lemma run_cleanup_staying :
  forall project_root cfg clock categories dry_run backup interactive,
    staying (run_cleanup project_root cfg clock categories
               dry_run backup interactive).
Proof.
  intros project_root cfg clock categories dry_run backup interactive.
  unfold run_cleanup.
  apply staying_bind; [apply staying_print|].
  intros _. apply staying_bind;
    [destruct dry_run; [apply staying_print|apply staying_ret]|].
  intros _. apply staying_bind;
    [destruct backup; [apply staying_print|apply staying_ret]|].
  intros _. apply staying_bind; [apply run_loop_staying|].
  intros totals. apply staying_bind; [apply staying_get_stats|].
  intros s. apply staying_bind; [apply staying_print|].
  intros _. destruct dry_run; [apply staying_print|apply staying_ret].
Qed.

Lemma list_categories_staying :
  forall project_root cfg, staying (list_categories project_root cfg).
Proof.
  intros project_root cfg. unfold list_categories.
  induction (cleanup_patterns cfg) as [|[category patterns] d IH]; simpl;
    [apply staying_ret|].
  apply staying_bind;
    [apply staying_reading; intros t; apply find_files_stays|].
  intros files. apply staying_bind;
    [apply staying_reading; intros t; apply sum_sizes_stays|].
  intros total. apply staying_bind; [apply staying_print|].
  intros _. exact IH.
Qed.

Lemma save_config_staying :
  forall config_path config_text,
    staying (save_config config_path config_text).
Proof.
  intros config_path config_text w. unfold save_config, changing.
  pose proof (@alter_os_only (write_op config_text)
                (write_op_os_only config_text) config_path (fs w)) as Hos.
  destruct (alter (fs w) config_path (write_op config_text))
    as [t' [[]|e]]; simpl in *; [apply stays_Ok|].
  rewrite (Hos e eq_refl). apply stays_Ok.
Qed.

(** X23: the exit status tells an unknown category, and nothing else.
    [main] ends with [SystemExit] exactly when it was called without
    [--save-config] and [--list] and with a category name that is not a
    key of [cleanup_patterns]; the code is then 1. No failure of a scan,
    a backup or a deletion, and no answer at a prompt, ends the script in
    this way. *)
Theorem exit_status :
  forall project_root cfg config_path config_text clock a w,
    let out := main project_root cfg config_path config_text clock a w in
    let rejected :=
      arg_save_config a = false /\ arg_list a = false /\
      Exists (fun c => mem c (keys (cleanup_patterns cfg)) = false)
        (arg_categories a) in
    (rejected -> snd out = Raise (SystemExit 1)) /\
    (forall code, snd out = Raise (SystemExit code) -> rejected).
Proof.
  intros project_root cfg config_path config_text clock a w out rejected.
  subst out rejected. unfold main.
  destruct (arg_save_config a).
  { split; [intros (H & _); discriminate|].
    intros code H.
    now apply (save_config_staying config_path config_text w) in H. }
  destruct (arg_list a).
  { split; [intros (_ & H & _); discriminate|].
    intros code H.
    now apply (list_categories_staying project_root cfg w) in H. }
  cbv zeta.
  destruct (nonempty (arg_categories a)) eqn:En; cbv iota.
  - destruct (filter
                (fun c => negb (mem c (keys (cleanup_patterns cfg))))
                (arg_categories a)) as [|c0 bad] eqn:E; simpl.
    + split.
      * intros (_ & _ & Hex). apply filter_nil in E.
        apply Exists_exists in Hex. destruct Hex as (c & Hin & Hc).
        rewrite Forall_forall in E. specialize (E c Hin). simpl in E.
        rewrite Hc in E. discriminate.
      * intros code H.
        now apply (run_cleanup_staying project_root cfg clock
                     (arg_categories a) (arg_dry_run a) (arg_backup a)
                     (negb (arg_no_interactive a)) w) in H.
    + split; [reflexivity|].
      intros code _. split; [reflexivity|]. split; [reflexivity|].
      assert (Hin : In c0 (filter
                             (fun c =>
                                negb (mem c (keys (cleanup_patterns cfg))))
                             (arg_categories a)))
        by (rewrite E; now left).
      apply filter_In in Hin. destruct Hin as [Hin Hc].
      apply Exists_exists. exists c0. split; [exact Hin|].
      now apply negb_true_iff in Hc.
  - assert (E : filter
                  (fun c => negb (mem c (keys (cleanup_patterns cfg))))
                  (keys (cleanup_patterns cfg)) = []).
    { apply filter_nil. apply Forall_forall. intros c Hc.
      apply mem_In in Hc. now rewrite Hc. }
    rewrite E. simpl. split.
    + intros (_ & _ & Hex).
      destruct (arg_categories a); [inversion Hex|discriminate].
    + intros code H.
      now apply (run_cleanup_staying project_root cfg clock
                   (keys (cleanup_patterns cfg)) (arg_dry_run a)
                   (arg_backup a) (negb (arg_no_interactive a)) w) in H.
Qed.

Lemma exit_status_witness :
  snd (main [] Examples.default_config [".cleanrc"] "{}" Examples.ticking
         (Args ["bogus"] true false true false false)
         (Examples.start Examples.tree []))
  = Raise (SystemExit 1).
Proof.
  apply (proj1 (exit_status [] Examples.default_config [".cleanrc"] "{}"
                  Examples.ticking
                  (Args ["bogus"] true false true false false)
                  (Examples.start Examples.tree []))).
  split; [reflexivity|]. split; [reflexivity|].
  apply Exists_cons_hd. reflexivity.
Defined.

(** *** What is counted *)

Lemma delete_path_plain_counts :
  forall project_root cfg clock p w,
    deletions (st (fst (delete_path project_root cfg clock p false w)))
    <= deletions (st w) + 1.
Proof.
  intros project_root cfg clock p w. unfold delete_path, deletions. run.
  destruct (get_file_size (fs w) p) as [size|e]; simpl; [|lia].
  destruct (is_file (fs w) p) as [[|]|e]; simpl; [| |lia].
  - destruct (unlink (fs w) p) as [t' [[]|e]]; simpl; lia.
  - destruct (is_dir (fs w) p) as [[|]|e]; simpl; [| |lia].
    + destruct (rmtree (fs w) p) as [t' [[]|e]]; simpl; lia.
    + lia.
Qed.

Lemma delete_path_counts :
  forall project_root cfg clock p backup w,
    deletions (st (fst (delete_path project_root cfg clock p backup w)))
    <= deletions (st w) + 1.
Proof.
  intros project_root cfg clock p backup w.
  rewrite delete_path_after_backup.
  destruct (@backup_step_frame project_root cfg clock p backup w)
    as (Hst & _).
  destruct (backup_step project_root cfg clock p backup w) as [w1 [u|e]];
    simpl in *.
  - rewrite <- Hst. apply delete_path_plain_counts.
  - rewrite Hst. lia.
Qed.

Lemma delete_all_counts :
  forall project_root cfg clock files backup w,
    deletions (st (fst (delete_all project_root cfg clock files backup w)))
    <= deletions (st w) + List.length files.
Proof.
  induction files as [|f files IH]; intros backup w; simpl; [lia|].
  pose proof (delete_path_counts project_root cfg clock f backup w) as Hs.
  destruct (delete_path project_root cfg clock f backup w) as [w1 [u|e]];
    simpl in Hs.
  - specialize (IH backup w1). lia.
  - destruct (is_OSError e); simpl; [|lia].
    unfold bindM. simpl.
    match goal with
    | |- context [delete_all _ _ _ files backup ?w2] =>
        specialize (IH backup w2)
    end.
    simpl in IH. lia.
Qed.

(** X24: no more deletions are counted than entries were found. After
    [clean_category], the number of files and directories counted as
    deleted has grown by at most the number of entries its scan returned,
    whatever failed on the way; when the scan itself raises, nothing is
    counted. *)
Theorem counts_at_most_found :
  forall project_root cfg clock category patterns dry_run backup interactive
         w,
    deletions
      (st (fst (clean_category project_root cfg clock category patterns
                  dry_run backup interactive w)))
    <= deletions (st w)
       + match find_files project_root cfg (fs w) patterns with
         | Ok files => List.length files
         | Raise _ => 0
         end.
Proof.
  intros project_root cfg clock category patterns dry_run backup interactive
         w.
  rewrite clean_category_steps.
  destruct (find_files project_root cfg (fs w) patterns) as [files|];
    [|simpl; lia].
  destruct (sum_sizes (fs w) files) as [total|]; [|simpl; lia].
  destruct (nonempty files); [|simpl; lia].
  match goal with
  | |- context [show_items ?a ?l ?w1] =>
      pose proof (@show_items_only_printed a l w1) as Hs;
      destruct (show_items a l w1) as [w2 [u|e]]
  end; simpl in Hs.
  - match goal with
    | |- context [decide ?a1 ?a2 ?a3 ?a4 ?a5 ?a6 ?a7 ?a8 ?a9 ?w3] =>
        assert (Hw3 : st w3 = st w)
          by (destruct (Nat.ltb 10 (List.length files)); op_solve);
        generalize dependent w3
    end.
    intros w3 Hw3. rewrite <- Hw3. unfold decide.
    destruct dry_run; [simpl; lia|].
    assert (Hp : forall w0,
               deletions
                 (st (fst (proceed project_root cfg clock category files
                             total backup w0)))
               <= deletions (st w0) + List.length files).
    { intros w0. unfold proceed.
      pose proof (delete_all_counts project_root cfg clock files backup w0)
        as H.
      destruct (delete_all project_root cfg clock files backup w0)
        as [w' [u'|e']]; exact H. }
    destruct interactive; [|apply Hp].
    destruct (stdin w3) as [|line rest]; [simpl; lia|].
    destruct (String.eqb (strip (lower line)) "y"); [|simpl; lia].
    match goal with
    | |- context [proceed _ _ _ _ _ _ _ ?w0] => exact (Hp w0)
    end.
  - assert (Hw2 : st w2 = st w) by op_solve.
    simpl. rewrite Hw2. lia.
Qed.

(** *** More protection *)

Lemma any_match_none :
  forall rel patterns,
    (forall pattern, In pattern patterns -> pmatch rel pattern = Ok false) ->
    any_match rel patterns = Ok false.
Proof.
  intros rel. induction patterns as [|pattern rest IH]; intros H; simpl;
    [reflexivity|].
  rewrite (H pattern (or_introl eq_refl)). simpl.
  apply IH. intros q Hq. apply H. now right.
Qed.

(** X25: protecting more never lets the scan find more. If every
    protected pattern of one configuration is also a protected pattern of
    a second one, every entry [find_files] returns under the second, for
    the same tree and patterns, is also returned under the first. *)
Theorem more_protection_finds_less :
  forall project_root cfg cfg' t patterns files files',
    incl (protected_patterns cfg) (protected_patterns cfg') ->
    find_files project_root cfg t patterns = Ok files ->
    find_files project_root cfg' t patterns = Ok files' ->
    incl files' files.
Proof.
  intros project_root cfg cfg' t patterns files files' Hincl Hf Hf' p Hp.
  destruct (@find_files_sound project_root cfg' t patterns files' Hf' p Hp)
    as (Hprot & Hsel).
  assert (Hprot0 : is_protected project_root cfg p = Ok false).
  { unfold is_protected in *.
    destruct (relative_to p project_root) as [rel|]; simpl in *;
      [|discriminate].
    apply any_match_none. intros pattern Hin.
    exact (@any_match_false rel (protected_patterns cfg') Hprot pattern
             (Hincl pattern Hin)). }
  unfold find_files in Hf.
  destruct (find_loop project_root cfg t patterns []) as [found|] eqn:Hl;
    simpl in Hf; [|discriminate].
  injection Hf as <-.
  apply sorted_set_complete.
  apply (find_loop_complete project_root cfg t patterns [] found Hl).
  right. now split.
Qed.

Lemma more_protection_finds_less_witness :
  incl [["a"; "y.log"]] [["a"; "x.pyc"]; ["a"; "y.log"]].
Proof.
  apply (more_protection_finds_less []
           (Config [] [] "cleanup_backups" true false)
           (Config ["*.pyc"] [] "cleanup_backups" true false)
           Examples.tree ["*.pyc"; "*.log"]).
  - intros x [].
  - reflexivity.
  - reflexivity.
Defined.

(** *** Saving and loading *)

Lemma merge_full :
  forall defaults d,
    Forall (fun key => mem key (keys d) = true) (keys defaults) ->
    merge defaults (JObject d) = Done (JObject d).
Proof.
  induction defaults as [|[k v] defaults IH]; intros d H; [reflexivity|].
  inversion H as [|? ? Hk Hrest]; subst.
  simpl. rewrite Hk. now apply IH.
Qed.

(** X26: what [save_config] has written, [load_config] reads back as it
    is. When [save_config] reports success for a text that stands for a
    dictionary with the five keys of the defaults, [load_config] on the
    same path then returns this dictionary, with nothing added, nothing
    replaced and no warning. *)
Theorem saved_configuration_loads :
  forall loads p text d w,
    loads text = Parsed (JObject d) ->
    Forall (fun key => mem key (keys d) = true)
      ["protected_patterns"; "cleanup_patterns"; "backup_dir";
       "interactive"; "dry_run"] ->
    stdout (fst (save_config p text w)) = stdout w ++ [ConfigSaved p] ->
    load_config loads (AsPath p) (fs (fst (save_config p text w)))
    = ([], Done (JObject d)).
Proof.
  intros loads p text d w Hl Hd Hs.
  assert (Hr : resolve (fs (fst (save_config p text w))) p
               = Ok (File text)).
  { unfold save_config, changing in *.
    pose proof (@alter_written text p (fs w)) as Hw.
    pose proof (@alter_os_only (write_op text) (write_op_os_only text)
                  p (fs w)) as Hos.
    destruct (alter (fs w) p (write_op text)) as [t' [[]|e]]; simpl in *.
    - now apply Hw.
    - rewrite (Hos e eq_refl) in Hs. simpl in Hs.
      apply app_inv_head in Hs. discriminate. }
  unfold load_config, exists_, test_path, open_read.
  rewrite Hr, Hl.
  now rewrite (merge_full (items default_config) d Hd).
Qed.

Lemma saved_configuration_loads_witness :
  let loads := fun _ : string => Parsed default_config in
  let w := Examples.start Examples.tree [] in
  load_config loads (AsPath [".cleanrc"])
    (fs (fst (save_config [".cleanrc"] "the defaults, dumped" w)))
  = ([], Done default_config).
Proof.
  intros loads w.
  apply (saved_configuration_loads loads [".cleanrc"]
           "the defaults, dumped" (items default_config) w).
  - reflexivity.
  - repeat constructor.
  - reflexivity.
Defined.

(** *** The patterns as a set *)

Lemma sorted_lists_equal :
  forall l l' : list path,
    StronglySorted path_lt l ->
    StronglySorted path_lt l' ->
    (forall p, In p l <-> In p l') ->
    l = l'.
Proof.
  assert (Hirr : forall p, ~ path_lt p p).
  { intros p H. unfold path_lt in H. rewrite path_compare_refl in H.
    discriminate. }
  induction l as [|x l IH]; intros l' Hs Hs' Hin.
  - destruct l' as [|y l']; [reflexivity|].
    destruct (proj2 (Hin y) (or_introl eq_refl)).
  - destruct l' as [|y l'].
    { destruct (proj1 (Hin x) (or_introl eq_refl)). }
    inversion Hs as [|? ? Hl Hall]; subst.
    inversion Hs' as [|? ? Hl' Hall']; subst.
    rewrite Forall_forall in Hall, Hall'.
    assert (Hxy : x = y).
    { destruct (proj1 (Hin x) (or_introl eq_refl)) as [E|Hx];
        [now symmetry|].
      destruct (proj2 (Hin y) (or_introl eq_refl)) as [E|Hy];
        [assumption|].
      exfalso. apply (Hirr x).
      exact (path_lt_trans _ _ _ (Hall y Hy) (Hall' x Hx)). }
    subst y. f_equal. apply IH; try assumption.
    intros p. split; intros Hp.
    + destruct (proj1 (Hin p) (or_intror Hp)) as [E|H]; [|assumption].
      subst p. exfalso. exact (Hirr x (Hall x Hp)).
    + destruct (proj2 (Hin p) (or_intror Hp)) as [E|H]; [|assumption].
      subst p. exfalso. exact (Hirr x (Hall' x Hp)).
Qed.

(** X27: only the set of patterns counts. Two lists of patterns with
    the same members, in whatever order and however often repeated, give
    the same result of [find_files] on the same tree, when both scans
    return. *)
Theorem find_files_pattern_set :
  forall project_root cfg t patterns patterns' files files',
    (forall pattern, In pattern patterns <-> In pattern patterns') ->
    find_files project_root cfg t patterns = Ok files ->
    find_files project_root cfg t patterns' = Ok files' ->
    files = files'.
Proof.
  intros project_root cfg t patterns patterns' files files' Hsame Hf Hf'.
  assert (Hin : forall ps qs fs1 fs2,
             (forall pattern, In pattern ps -> In pattern qs) ->
             find_files project_root cfg t ps = Ok fs1 ->
             find_files project_root cfg t qs = Ok fs2 ->
             forall p, In p fs1 -> In p fs2).
  { intros ps qs fs1 fs2 Hsub H1 H2 p Hp.
    destruct (@find_files_sound project_root cfg t ps fs1 H1 p Hp)
      as (Hprot & pattern & Hpat & Hsel).
    unfold find_files in H2.
    destruct (find_loop project_root cfg t qs []) as [found|] eqn:Hl;
      simpl in H2; [|discriminate].
    injection H2 as <-.
    apply sorted_set_complete.
    apply (find_loop_complete project_root cfg t qs [] found Hl).
    right. split; [assumption|]. exists pattern. split; [|assumption].
    now apply Hsub. }
  assert (Hsorted : forall ps fs1,
             find_files project_root cfg t ps = Ok fs1 ->
             StronglySorted path_lt fs1).
  { intros ps fs1 H. unfold find_files in H.
    destruct (find_loop project_root cfg t ps []) as [found|];
      simpl in H; [|discriminate].
    injection H as <-.
    apply Sorted_StronglySorted; [exact path_lt_trans|].
    apply sorted_set_Sorted. }
  apply sorted_lists_equal.
  - exact (Hsorted patterns files Hf).
  - exact (Hsorted patterns' files' Hf').
  - intros p. split.
    + apply (Hin patterns patterns' files files'); try assumption.
      intros pattern. apply Hsame.
    + apply (Hin patterns' patterns files' files); try assumption.
      intros pattern. apply Hsame.
Qed.

Lemma find_files_pattern_set_witness :
  [["a"; "x.pyc"]; ["a"; "y.log"]]
  = match find_files [] Examples.default_config Examples.tree
            ["*.log"; "*.pyc"; "*.log"] with
    | Ok files => files
    | Raise _ => []
    end.
Proof.
  apply (find_files_pattern_set [] Examples.default_config Examples.tree
           ["*.pyc"; "*.log"] ["*.log"; "*.pyc"; "*.log"]).
  - intros pattern. simpl. tauto.
  - reflexivity.
  - reflexivity.
Defined.
